(** * Component documentation extractor: properties, inheritance, events, styles

    A shallow embedding of the extraction engine of the widget documentation
    generator:

    - [src/source-extractor.ts]: [SourceExtractor] (source maps and component
      directories) and [TypeScriptParser] (the syntax-tree visitors);
    - [src/doc-generator.ts]: [DocumentationGenerator] (ancestor resolution,
      event reconciliation, filtering, assembly).

    The TypeScript compiler API, [JSON.parse], and Node's [fs] and [path]
    modules are libraries the program calls; they are gathered in the record
    [Host] and every function that uses them takes the host as an argument.

    Text is modelled by [string]. The model is one of text in the 7-bit range
    ([seven_bit]): the character classes and the case conversions below are
    those of ECMAScript on that range, and say nothing of a character outside
    it (the no-break space, the line and paragraph separators, letters with
    diacritics). A statement that depends on them is a statement about text
    in that range; those of sections 21 and 22 take the range as a
    hypothesis. *)

From Stdlib Require Import String Ascii Bool List Arith Lia.
From stdpp Require Import base option list gmap strings.

Set Warnings "-register-all".

Open Scope string_scope.

(* ================================================================== *)
(** * 1. JavaScript string primitives *)
(* ================================================================== *)

(** [if (s)] on a string: the empty string is falsy. *)
Definition truthy (s : string) : bool := negb (s =? "").

(** [if (o)] on an optional string ([undefined], [null] and [''] are falsy). *)
Definition truthyOpt (o : option string) : bool :=
  match o with Some s => truthy s | None => false end.

(** [s.startsWith(p)] *)
Fixpoint startsWith (s p : string) {struct p} : bool :=
  match p, s with
  | EmptyString, _ => true
  | String a p', String b s' => Ascii.eqb a b && startsWith s' p'
  | String _ _, EmptyString => false
  end.

(** [s.endsWith(suf)]: some suffix of [s] is [suf]. *)
Fixpoint endsWith (s suf : string) : bool :=
  (s =? suf) ||
  match s with
  | EmptyString => false
  | String _ s' => endsWith s' suf
  end.

(** [s.includes(sub)] *)
Fixpoint includes (s sub : string) : bool :=
  startsWith s sub ||
  match s with
  | EmptyString => false
  | String _ s' => includes s' sub
  end.

(** [s.substring(n)] *)
Fixpoint drop_chars (n : nat) (s : string) : string :=
  match n, s with
  | O, _ => s
  | S _, EmptyString => EmptyString
  | S n', String _ s' => drop_chars n' s'
  end.

(** [s.replace(pat, rep)] with a string pattern and a replacement without
    dollar patterns: only the first occurrence is replaced. *)
Fixpoint replace (pat rep s : string) : string :=
  if startsWith s pat then rep ++ drop_chars (String.length pat) s
  else match s with
       | EmptyString => EmptyString
       | String c s' => String c (replace pat rep s')
       end.

Definition code (c : ascii) : nat := nat_of_ascii c.

Definition in_range (lo hi : nat) (c : ascii) : bool :=
  (lo <=? code c)%nat && (code c <=? hi)%nat.

Definition is_upper (c : ascii) : bool := in_range 65 90 c.
Definition is_lower (c : ascii) : bool := in_range 97 122 c.
Definition is_digit (c : ascii) : bool := in_range 48 57 c.

(** The characters of the 7-bit range, on which the model is one of the
    program. *)
Definition seven_bit (c : ascii) : bool := (code c <? 128)%nat.

(** [\w] *)
Definition is_word (c : ascii) : bool :=
  is_upper c || is_lower c || is_digit c || (code c =? 95)%nat.

(** [\s], and the characters [trim] removes, on a character of the 7-bit
    range: tab, line feed, vertical tab, form feed, carriage return, space. *)
Definition is_space (c : ascii) : bool :=
  in_range 9 13 c || (code c =? 32)%nat.

(** Line terminators, which [.] does not match, on a character of the 7-bit
    range: line feed and carriage return. *)
Definition is_line_terminator (c : ascii) : bool :=
  (code c =? 10)%nat || (code c =? 13)%nat.

(** [c.toLowerCase()] on a character of the 7-bit range. *)
Definition lower_char (c : ascii) : ascii :=
  if is_upper c then ascii_of_nat (code c + 32) else c.

(** [s.toLowerCase()] *)
Fixpoint toLowerCase (s : string) : string :=
  match s with
  | EmptyString => EmptyString
  | String c s' => String (lower_char c) (toLowerCase s')
  end.

(** [s.trimStart()], also the greedy [\s*] of the patterns below. *)
Fixpoint trimStart (s : string) : string :=
  match s with
  | String c s' => if is_space c then trimStart s' else s
  | EmptyString => EmptyString
  end.

Fixpoint trimEnd (s : string) : string :=
  match s with
  | EmptyString => EmptyString
  | String c s' =>
      let t := trimEnd s' in
      if is_space c && (t =? "") then EmptyString else String c t
  end.

(** [s.trim()] *)
Definition trim (s : string) : string := trimEnd (trimStart s).

(** [s.split(sep)] for a one-character separator. *)
Fixpoint split (sep : ascii) (s : string) : list string :=
  match s with
  | EmptyString => [EmptyString]
  | String c s' =>
      if Ascii.eqb c sep then EmptyString :: split sep s'
      else match split sep s' with
           | h :: t => String c h :: t
           | [] => [String c EmptyString]
           end
  end.

(** [parts.join(sep)] *)
Fixpoint join (sep : string) (parts : list string) : string :=
  match parts with
  | [] => EmptyString
  | [p] => p
  | p :: rest => p ++ sep ++ join sep rest
  end.

(** [xs.includes(x)] on an array of strings. *)
Definition mem (x : string) (xs : list string) : bool :=
  existsb (String.eqb x) xs.

(** [[...new Set(xs)]]: duplicates removed, first occurrences kept in order. *)
Fixpoint unique (seen xs : list string) : list string :=
  match xs with
  | [] => []
  | x :: rest => if mem x seen then unique seen rest
                 else x :: unique (x :: seen) rest
  end.

(** If [s] starts with [p], the rest of [s]. *)
Fixpoint strip_prefix (p s : string) : option string :=
  match p, s with
  | EmptyString, _ => Some s
  | String a p', String b s' => if Ascii.eqb a b then strip_prefix p' s' else None
  | String _ _, EmptyString => None
  end.

(** The longest prefix of [s] whose characters satisfy [f], and the rest. *)
Fixpoint span (f : ascii -> bool) (s : string) : string * string :=
  match s with
  | EmptyString => (EmptyString, EmptyString)
  | String c s' =>
      if f c then let '(a, b) := span f s' in (String c a, b)
      else (EmptyString, s)
  end.

(** ** Regular-expression drivers

    A pattern is embedded as an anchored matcher: given the text at the
    current position it returns the captured value and the text after the
    match. All patterns of the program consume at least one character, so
    [lastIndex] strictly advances and the length of the text bounds the loop. *)

Definition Matcher (A : Type) : Type := string -> option (A * string).

(** [while ((m = re.exec(s)) !== null) ...] for a global pattern: every match,
    leftmost first, the search resuming after the previous match. *)
Fixpoint execAll_from {A} (re : Matcher A) (fuel : nat) (s : string) : list A :=
  match fuel with
  | O => []
  | S fuel' =>
      match re s with
      | Some (a, rest) => a :: execAll_from re fuel' rest
      | None =>
          match s with
          | EmptyString => []
          | String _ s' => execAll_from re fuel' s'
          end
      end
  end.

Definition execAll {A} (re : Matcher A) (s : string) : list A :=
  execAll_from re (S (String.length s)) s.

(** [s.match(re)] for a pattern without the global flag: the leftmost match. *)
Fixpoint matchFirst {A} (re : Matcher A) (s : string) : option A :=
  match re s with
  | Some (a, _) => Some a
  | None =>
      match s with
      | EmptyString => None
      | String _ s' => matchFirst re s'
      end
  end.

(** [s.replace(re, f)] for a global pattern; the matcher returns the text that
    replaces the match. *)
Fixpoint replaceAll_from (re : Matcher string) (fuel : nat) (s : string) : string :=
  match fuel with
  | O => s
  | S fuel' =>
      match re s with
      | Some (r, rest) => r ++ replaceAll_from re fuel' rest
      | None =>
          match s with
          | EmptyString => EmptyString
          | String c s' => String c (replaceAll_from re fuel' s')
          end
      end
  end.

Definition replaceAll (re : Matcher string) (s : string) : string :=
  replaceAll_from re (S (String.length s)) s.

(* ================================================================== *)
(** * 2. Outcomes of a call *)
(* ================================================================== *)

(** A call returns a value, throws, or does not return (the recursion on
    ancestors and on child components has no bound in the source; the model
    gives those functions a depth budget and [Diverge] reports its exhaustion).
    [try { } catch] handles [Throw] only. *)
Inductive Res (A : Type) : Type :=
  | Ok (a : A)
  | Throw
  | Diverge.
Arguments Ok {A} a.
Arguments Throw {A}.
Arguments Diverge {A}.

Definition bind {A B} (m : Res A) (k : A -> Res B) : Res B :=
  match m with
  | Ok a => k a
  | Throw => Throw
  | Diverge => Diverge
  end.

Notation "'let*' x ':=' m 'in' k" := (bind m (fun x => k))
  (at level 10, x pattern, m at level 100, k at level 200).

(** [try { m } catch (e) { h }] *)
Definition try_catch {A} (m : Res A) (h : Res A) : Res A :=
  match m with
  | Throw => h
  | _ => m
  end.

(** A loop whose body may throw. *)
Fixpoint foldM {A S} (body : S -> A -> Res S) (xs : list A) (s : S) : Res S :=
  match xs with
  | [] => Ok s
  | x :: rest => let* s' := body s x in foldM body rest s'
  end.

(* ================================================================== *)
(** * 3. Data model ([types.ts]) *)
(* ================================================================== *)

(** [inherited] is declared optional; every site that builds a [PropInfo]
    sets it. *)
Record PropInfo := mkPropInfo {
  prop_name : string;
  prop_type : string;
  defaultValue : option string;
  optional : bool;
  inherited : bool;
  inheritedFrom : option string;
}.

Record ParameterInfo := mkParameterInfo {
  parameter_name : string;
  parameter_type : string;
  parameter_optional : bool;
}.

Inductive Visibility := Public | Private | Protected.

Record MethodInfo := mkMethodInfo {
  method_name : string;
  visibility : Visibility;
  returnType : string;
  parameters : list ParameterInfo;
}.

Record EventInfo := mkEventInfo {
  event_name : string;
  event_type : string;
  event_parameters : option string;
}.

Record StyleInfo := mkStyleInfo {
  className : string;
  style_description : option string;
}.

(** [children] is [undefined] in the source exactly when the list is empty. *)
Inductive ComponentDoc := mkComponentDoc {
  componentName : string;
  componentPath : string;
  category : string;
  props : list PropInfo;
  methods : list MethodInfo;
  events : list EventInfo;
  styles : list StyleInfo;
  baseClass : option string;
  children : list ComponentDoc;
}.

(** A decoded source map ([SourceMapContent]); [sourcesContent] is [None] when
    the payload has no such field. *)
Record SourceMapContent := mkSourceMap {
  sources : list string;
  sourcesContent : option (list string);
}.

(* ================================================================== *)
(** * 4. Syntax trees and the host libraries *)
(* ================================================================== *)

(** The view of a TypeScript syntax tree that the visitors read. Texts are
    what [getText(sourceFile)] or [.text] return for the sub-node. *)

Inductive HeritageToken := ExtendsKeyword | ImplementsKeyword.

(** [types] holds the text of each listed type's expression; every element of
    a heritage clause is an [ExpressionWithTypeArguments]. *)
Record HeritageClause := mkHeritage {
  token : HeritageToken;
  types : list string;
}.

Inductive Modifier := PrivateKeyword | ProtectedKeyword | OtherModifier.

(** [identifier] is the name's text when the name is an identifier (and not a
    binding pattern). *)
Record ParameterDeclaration := mkParameter {
  identifier : option string;
  param_questionToken : bool;
  param_type : option string;
}.

Inductive ClassElement :=
  | PropertyDeclaration (name : string) (questionToken : bool)
      (type : option string) (initializer : option string)
  | MethodDeclaration (name : string) (modifiers : list Modifier)
      (type : option string) (params : list ParameterDeclaration)
  | OtherClassElement.

Inductive TypeElement :=
  | PropertySignature (name : string) (questionToken : bool) (type : option string)
  | OtherTypeElement.

Inductive TypeNode :=
  | TypeLiteral (members : list TypeElement)
  | OtherType.

Inductive Expression :=
  | Identifier (text : string)
  | PropertyAccessExpression (name : string)
  | StringLiteral (text : string)
  | BinaryExpression (getText : string)
  | OtherExpression.

(** [var_name] is the declared name when it is an identifier. *)
Record VariableDeclaration := mkVariable {
  var_name : option string;
  var_initializer : option Expression;
}.

Inductive Syntax :=
  | ClassDeclaration (name : option string) (heritageClauses : list HeritageClause)
      (members : list ClassElement)
  | InterfaceDeclaration (name : string) (heritageClauses : list HeritageClause)
      (members : list TypeElement)
  | TypeAliasDeclaration (name : string) (type : TypeNode)
  | VariableStatement (declarations : list VariableDeclaration)
  | CallExpression (expression : Expression) (arguments : list Expression)
  | OtherSyntax.

(** A node: what the visitors read of it, and the children [ts.forEachChild]
    enumerates, in document order. *)
Inductive Node := mkNode (syntax : Syntax) (childNodes : list Node).

(** An entry of [fs.readdirSync(dir, { withFileTypes: true })], together with
    the listing of the directory it names when it names one. A directory whose
    listing cannot be read ([readdirSync] throws) is a [ClosedDirEntry]. *)
Inductive Dirent :=
  | FileEntry (name : string)
  | DirEntry (name : string) (entries : list Dirent)
  | ClosedDirEntry (name : string)
  | OtherEntry (name : string).

(** The libraries the program runs on. A file-system call that throws returns
    [None]. [JSON_parse] returns [None] when [JSON.parse] throws or yields a
    falsy value. [path.join] never returns the empty string. *)
Record Host := mkHost {
  createSourceFile : string -> Node;
  JSON_parse : string -> option SourceMapContent;
  existsSync : string -> bool;
  readFileSync : string -> option string;
  readdirSync : string -> option (list string);
  readdirSync_withFileTypes : string -> option (list Dirent);
  path_join : list string -> string;
  path_basename : string -> string;
  path_resolve : string -> string -> string;
}.

Definition lift {A} (o : option A) : Res A :=
  match o with Some a => Ok a | None => Throw end.

(* ================================================================== *)
(** * 5. [TypeScriptParser] *)
(* ================================================================== *)

Record PropsResult := mkPropsResult {
  pr_props : list PropInfo;
  pr_className : string;
  pr_baseClass : option string;
}.

(** The loop over [node.heritageClauses]: each [extends] clause assigns the
    text of its first type; [ts.isExpressionWithTypeArguments(undefined)]
    throws when the clause lists no type. *)
Definition heritageStep (baseClass : option string) (heritage : HeritageClause)
  : Res (option string) :=
  match token heritage with
  | ExtendsKeyword =>
      match types heritage with
      | baseType :: _ => Ok (Some baseType)
      | [] => Throw
      end
  | ImplementsKeyword => Ok baseClass
  end.

Definition getBaseClass (clauses : list HeritageClause) : Res (option string) :=
  foldM heritageStep clauses None.

(** The default value recorded for an initializer text. *)
Definition cleanInitializer (initText : string) : string :=
  if initText =? "null as any" then "null"
  else if endsWith initText " as any" then replace " as any" "" initText
  else initText.

Definition typeText (type : option string) : string :=
  match type with Some t => t | None => "any" end.

Definition classMemberProp (member : ClassElement) : option PropInfo :=
  match member with
  | PropertyDeclaration propName questionToken type initializer =>
      Some {| prop_name := propName;
              prop_type := typeText type;
              defaultValue := cleanInitializer <$> initializer;
              optional := questionToken;
              inherited := false;
              inheritedFrom := None |}
  | _ => None
  end.

Definition typeMemberProp (member : TypeElement) : option PropInfo :=
  match member with
  | PropertySignature propName questionToken type =>
      Some {| prop_name := propName;
              prop_type := typeText type;
              defaultValue := None;
              optional := questionToken;
              inherited := false;
              inheritedFrom := None |}
  | OtherTypeElement => None
  end.

(** What the three [if] blocks of [visit] assign to [result] at one node:
    [Ok None] when the node is not a Props declaration. *)
Definition declaredProps (syntax : Syntax) : Res (option PropsResult) :=
  match syntax with
  | ClassDeclaration (Some className) heritageClauses members =>
      if endsWith className "Props" then
        let* baseClass := getBaseClass heritageClauses in
        Ok (Some (mkPropsResult (omap classMemberProp members) className baseClass))
      else Ok None
  | InterfaceDeclaration interfaceName heritageClauses members =>
      if endsWith interfaceName "Props" then
        let* baseClass := getBaseClass heritageClauses in
        Ok (Some (mkPropsResult (omap typeMemberProp members) interfaceName baseClass))
      else Ok None
  | TypeAliasDeclaration typeName (TypeLiteral members) =>
      if endsWith typeName "Props" then
        Ok (Some (mkPropsResult (omap typeMemberProp members) typeName None))
      else Ok None
  | _ => Ok None
  end.

Definition assign {A} (new old : option A) : option A :=
  match new with Some _ => new | None => old end.

(** [visit] of [extractProps], threading the variable [result]. *)
Fixpoint visitProps (node : Node) (result : option PropsResult)
  : Res (option PropsResult) :=
  match node with
  | mkNode syntax childNodes =>
      let* found := declaredProps syntax in
      foldM (fun result child => visitProps child result) childNodes
        (assign found result)
  end.

Definition extractProps (H : Host) (sourceCode : string) : Res (option PropsResult) :=
  visitProps (createSourceFile H sourceCode) None.

(** ** [extractMethods] *)

Record MethodsResult := mkMethodsResult {
  mr_methods : list MethodInfo;
  mr_className : string;
}.

Definition lifecycleMethods : list string :=
  ["constructor"; "render"; "componentDidMount"; "componentWillUnmount";
   "shouldComponentUpdate"; "componentDidUpdate"].

(** The loop over [member.modifiers]: the last visibility keyword wins. *)
Definition visibilityOf (modifiers : list Modifier) : Visibility :=
  fold_left (fun v modifier =>
               match modifier with
               | PrivateKeyword => Private
               | ProtectedKeyword => Protected
               | OtherModifier => v
               end) modifiers Public.

Definition parameterInfo (param : ParameterDeclaration) : option ParameterInfo :=
  match identifier param with
  | Some paramName =>
      Some (mkParameterInfo paramName (typeText (param_type param))
              (param_questionToken param))
  | None => None
  end.

Definition classMemberMethod (member : ClassElement) : option MethodInfo :=
  match member with
  | MethodDeclaration methodName modifiers type params =>
      if mem methodName lifecycleMethods then None
      else match visibilityOf modifiers with
           | Public =>
               Some (mkMethodInfo methodName Public
                       (match type with Some t => t | None => "void" end)
                       (omap parameterInfo params))
           | _ => None
           end
  | _ => None
  end.

Definition declaredMethods (syntax : Syntax) : option MethodsResult :=
  match syntax with
  | ClassDeclaration (Some className) _ members =>
      if negb (endsWith className "Props") && negb (endsWith className "Styles")
         && negb (endsWith className "State")
      then Some (mkMethodsResult (omap classMemberMethod members) className)
      else None
  | _ => None
  end.

Fixpoint visitMethods (node : Node) (result : option MethodsResult)
  : option MethodsResult :=
  match node with
  | mkNode syntax childNodes =>
      fold_left (fun result child => visitMethods child result) childNodes
        (assign (declaredMethods syntax) result)
  end.

Definition extractMethods (H : Host) (sourceCode : string) : option MethodsResult :=
  visitMethods (createSourceFile H sourceCode) None.

(** ** [extractStyleClasses] *)

(** The expansion of dollar patterns in a replacement string, for a pattern
    without capture groups: [$$], [$&], [$`] and [$'] are the special forms. *)
Fixpoint substitute (matched before after replacement : string) : string :=
  match replacement with
  | String "$" (String "$" r) => String "$" (substitute matched before after r)
  | String "$" (String "&" r) => matched ++ substitute matched before after r
  | String "$" (String "`" r) => before ++ substitute matched before after r
  | String "$" (String "'" r) => after ++ substitute matched before after r
  | String c r => String c (substitute matched before after r)
  | EmptyString => EmptyString
  end.

(** [s.replace(/pat/g, replacement)] for a literal, non-empty [pat];
    [before] is the text already scanned. *)
Fixpoint replaceLiteral_from (pat replacement : string) (fuel : nat)
    (before s : string) : string :=
  match fuel with
  | O => s
  | S fuel' =>
      match strip_prefix pat s with
      | Some rest =>
          substitute pat before rest replacement
          ++ replaceLiteral_from pat replacement fuel' (before ++ pat) rest
      | None =>
          match s with
          | EmptyString => EmptyString
          | String c s' =>
              String c (replaceLiteral_from pat replacement fuel'
                          (before ++ String c EmptyString) s')
          end
      end
  end.

Definition replaceLiteral (pat replacement s : string) : string :=
  replaceLiteral_from pat replacement (S (String.length s)) EmptyString s.

(** The double-quote character. *)
Definition dquote : ascii := ascii_of_nat 34.

Definition is_quote (c : ascii) : bool :=
  Ascii.eqb c "'" || Ascii.eqb c dquote || Ascii.eqb c "`".

(** The global pattern for one quote character: single, double or backtick. *)
Definition quotePattern : Matcher string := fun s =>
  match s with
  | String c rest => if is_quote c then Some (EmptyString, rest) else None
  | EmptyString => None
  end.

(** The global pattern for a plus sign with the white space around it. *)
Definition plusPattern : Matcher string := fun s =>
  match trimStart s with
  | String "+" rest => Some (EmptyString, trimStart rest)
  | _ => None
  end.

(** The class name recorded for a concatenation argument of text [text]. *)
Definition resolveClassName (defaultClass text : string) : string :=
  if includes text "DEFAULT_CLASS" && truthy defaultClass then
    replaceAll plusPattern
      (replaceAll quotePattern
         (replaceLiteral "DEFAULT_CLASS" ("'" ++ defaultClass ++ "'") text))
  else text.

Record StyleState := mkStyleState {
  defaultClass : string;
  styleClasses : list string;
}.

Definition pushNew (cls : string) (classes : list string) : list string :=
  if mem cls classes then classes else classes ++ [cls].

Definition declarationStep (defaultClass : string) (declaration : VariableDeclaration)
  : string :=
  match var_name declaration, var_initializer declaration with
  | Some name, Some (StringLiteral text) =>
      if name =? "DEFAULT_CLASS" then text else defaultClass
  | _, _ => defaultClass
  end.

Definition isAddStyleCall (expression : Expression) : bool :=
  match expression with
  | Identifier text => text =? "addStyle"
  | PropertyAccessExpression name => name =? "addStyle"
  | _ => false
  end.

(** The body of [visit] of [extractStyleClasses] at one node. *)
Definition styleStep (st : StyleState) (syntax : Syntax) : StyleState :=
  match syntax with
  | VariableStatement declarations =>
      mkStyleState (fold_left declarationStep declarations (defaultClass st))
        (styleClasses st)
  | CallExpression expression (firstArg :: _) =>
      if isAddStyleCall expression then
        match firstArg with
        | StringLiteral text =>
            mkStyleState (defaultClass st) (pushNew text (styleClasses st))
        | BinaryExpression text =>
            mkStyleState (defaultClass st)
              (pushNew (resolveClassName (defaultClass st) text) (styleClasses st))
        | _ => st
        end
      else st
  | _ => st
  end.

Fixpoint visitStyles (node : Node) (st : StyleState) : StyleState :=
  match node with
  | mkNode syntax childNodes =>
      fold_left (fun st child => visitStyles child st) childNodes (styleStep st syntax)
  end.

Definition stylesOfTree (sourceFile : Node) : option StyleState :=
  let st := visitStyles sourceFile (mkStyleState EmptyString []) in
  if truthy (defaultClass st) || (0 <? length (styleClasses st))%nat
  then Some st else None.

Definition extractStyleClasses (H : Host) (sourceCode : string) : option StyleState :=
  stylesOfTree (createSourceFile H sourceCode).

(** ** [extractEvents] *)

Definition isEventProp (prop : PropInfo) : bool :=
  startsWith (prop_name prop) "on"
  && ((prop_type prop =? "Function") || includes (prop_type prop) "=>").

(** The declared events, as pairs of a name and a type. *)
Definition extractEvents (props : list PropInfo) : list (string * string) :=
  map (fun prop => (prop_name prop, prop_type prop)) (List.filter isEventProp props).

(** ** [extractEventCallbacks] *)

Definition quote : Matcher unit := fun s =>
  match s with
  | String c rest => if Ascii.eqb c "'" || Ascii.eqb c dquote then Some (tt, rest) else None
  | EmptyString => None
  end.

Definition nonEmpty (s : string) : option string :=
  if truthy s then Some s else None.

(** The value of an optional string when it is truthy. *)
Definition whenTruthy (o : option string) : option string :=
  match o with Some s => nonEmpty s | None => None end.

(** The global pattern of [extractEventCallbacks]: the word
    [invokeEventCallback], an opening parenthesis, a quoted run of one or more
    word characters (the event name, first capture), a comma, and a bracketed
    run of characters other than the closing bracket (second capture), then a
    closing parenthesis; white space is allowed around the punctuation. *)
Definition invokePattern : Matcher (string * string) := fun s =>
  s ← strip_prefix "invokeEventCallback" s;
  s ← strip_prefix "(" (trimStart s);
  '(_, s) ← quote (trimStart s);
  let '(eventName, s) := span is_word s in
  eventName ← nonEmpty eventName;
  '(_, s) ← quote s;
  s ← strip_prefix "," (trimStart s);
  s ← strip_prefix "[" (trimStart s);
  let '(params, s) := span (fun c => negb (Ascii.eqb c "]")) s in
  s ← strip_prefix "]" s;
  s ← strip_prefix ")" (trimStart s);
  Some ((eventName, params), s).

Definition isParam (p : string) : bool :=
  truthy p && negb (p =? "this.props.target") && negb (p =? "target").

Definition signature (params : string) : string :=
  let paramList := List.filter isParam (map trim (split "," params)) in
  match paramList with
  | [] => "()"
  | _ => "(" ++ join ", " paramList ++ ")"
  end.

(** One iteration of the [exec] loop; [eventSet] is the set of the names
    already in [events]. *)
Definition callbackStep (events : list (string * string)) (m : string * string)
  : list (string * string) :=
  let '(eventName, params) := m in
  if mem eventName (map fst events) then events
  else events ++ [(eventName, signature (trim params))].

(** The emitted events, as pairs of a name and a parameter signature. *)
Definition extractEventCallbacks (sourceCode : string) : list (string * string) :=
  fold_left callbackStep (execAll invokePattern sourceCode) [].

(* ================================================================== *)
(** * 6. [SourceExtractor] *)
(* ================================================================== *)

(** [readSourceMap]: [null] when the file cannot be read or decoded. *)
Definition readSourceMap (H : Host) (mapFilePath : string) : option SourceMapContent :=
  content ← readFileSync H mapFilePath; JSON_parse H content.

(** [extractSourceContent]: the lookup is [None] for an empty list and for an
    index out of bounds. *)
Definition extractSourceContent (H : Host) (mapFilePath : string) (sourceIndex : nat)
  : option string :=
  sourceMap ← readSourceMap H mapFilePath;
  contents ← sourcesContent sourceMap;
  contents !! sourceIndex.

Record ComponentSources := mkSources {
  src_props : option string;
  src_component : option string;
  src_styles : option string;
}.

Definition isIndexFile (f : string) : bool := (f =? "index.tsx") || (f =? "index.ts").

Definition isTypesFile (f : string) : bool :=
  (f =? "types.ts") || (f =? "types.tsx") || endsWith f ".types.ts".

Definition isStylesFile (f : string) : bool :=
  (f =? "styles.ts") || (f =? "styles.tsx") || endsWith f ".styles.ts"
  || endsWith f ".styles.tsx".

(** The content of the first file of [files] that satisfies [role], when there
    is one and it can be read ([try { readFileSync } catch]). *)
Definition readRole (H : Host) (componentDir : string) (files : list string)
    (role : string -> bool) : option string :=
  f ← List.find role files; readFileSync H (path_join H [componentDir; f]).

(** The truthy source embedded in the first source map of [files] with the
    given suffix. *)
Definition extractRole (H : Host) (componentDir : string) (files : list string)
    (suffix : string) : option string :=
  f ← List.find (fun f => endsWith f suffix) files;
  content ← extractSourceContent H (path_join H [componentDir; f]) 0;
  nonEmpty content.

Definition override {A} (new old : option A) : option A := assign new old.

Definition extractComponentSources (H : Host) (componentDir : string)
  : Res ComponentSources :=
  let* files := lift (readdirSync H componentDir) in
  match List.find isIndexFile files with
  | Some indexTsx =>
      let content := readFileSync H (path_join H [componentDir; indexTsx]) in
      Ok {| src_component := content;
            src_props := override (readRole H componentDir files isTypesFile) content;
            src_styles := readRole H componentDir files isStylesFile |}
  | None =>
      Ok {| src_props := extractRole H componentDir files ".props.js.map";
            src_component := extractRole H componentDir files ".component.js.map";
            src_styles := extractRole H componentDir files ".styles.js.map" |}
  end.

(* ================================================================== *)
(** * 7. [DocumentationGenerator] *)
(* ================================================================== *)

Record Overrides := mkOverrides {
  o_excludeProps : option (list string);
  o_excludeMethods : option (list string);
  o_excludeStyleClasses : option (list string);
}.

(** The fields of [GeneratorConfig] the generator reads. [childComponents]
    maps a parent name to its entries in [Object.entries] order. *)
Record GeneratorConfig := mkConfig {
  childComponents : gmap string (list (string * string));
  excludeProps : list string;
  excludeInheritedProps : list string;
  excludeMethods : list string;
  excludeStyleClasses : list string;
  componentOverrides : gmap string Overrides;
}.

(** ** The generator's state and its monad

    The field [basePropsCache] of the generator, and the messages passed to
    [console.warn] so far (the other console output is not modelled). The
    state survives an exception. *)
Record State := mkState {
  basePropsCache : option (list PropInfo);
  warnings : list string;
}.

Definition Gen (A : Type) : Type := State -> Res A * State.

Definition ret {A} (a : A) : Gen A := fun st => (Ok a, st).

Definition liftG {A} (r : Res A) : Gen A := fun st => (r, st).

(** [console.warn(message)] *)
Definition warn (message : string) : Gen unit := fun st =>
  (Ok tt, mkState (basePropsCache st) (warnings st ++ [message])).

Definition bindG {A B} (m : Gen A) (k : A -> Gen B) : Gen B := fun st =>
  match m st with
  | (Ok a, st') => k a st'
  | (Throw, st') => (Throw, st')
  | (Diverge, st') => (Diverge, st')
  end.

Notation "'do*' x ':=' m 'in' k" := (bindG m (fun x => k))
  (at level 10, x pattern, m at level 100, k at level 200).

Definition catchG {A} (m : Gen A) (handler : Gen A) : Gen A := fun st =>
  match m st with
  | (Throw, st') => handler st'
  | outcome => outcome
  end.

Fixpoint foldG {A S} (body : S -> A -> Gen S) (xs : list A) (s : S) : Gen S :=
  match xs with
  | [] => ret s
  | x :: rest => do* s' := body s x in foldG body rest s'
  end.

(** The first result that is not [None]. *)
Fixpoint first_some {A B} (f : A -> option B) (xs : list A) : option B :=
  match xs with
  | [] => None
  | x :: rest => match f x with Some b => Some b | None => first_some f rest end
  end.

(** ** [getBaseProps] *)

Section Generator.

Variable H : Host.
Variable componentsPath : string.
Variable config : GeneratorConfig.

(** The properties of [baseSource] when it declares [BaseProps]. *)
Definition basePropsOf (baseSource : string) : Res (option (list PropInfo)) :=
  let* propsInfo := extractProps H baseSource in
  match propsInfo with
  | Some info =>
      if pr_className info =? "BaseProps" then Ok (Some (pr_props info)) else Ok None
  | None => Ok None
  end.

Definition possiblePaths : list string :=
  [ path_join H [componentsPath; "core"; "base.ts"];
    path_join H [componentsPath; "core"; "base.tsx"];
    path_join H [componentsPath; "common"; "base.ts"];
    path_join H [componentsPath; "common"; "base.tsx"] ].

Fixpoint searchBasePaths (paths : list string) : Res (option (list PropInfo)) :=
  match paths with
  | [] => Ok None
  | basePath :: rest =>
      if existsSync H basePath then
        let* baseSource := lift (readFileSync H basePath) in
        let* found := basePropsOf baseSource in
        match found with
        | Some baseProps => Ok (Some baseProps)
        | None => searchBasePaths rest
        end
      else searchBasePaths rest
  end.

(** The [try] block of [getBaseProps]: [Ok (Some props)] when it assigns the
    cache and returns, [Ok None] when it falls through. *)
Definition locateBaseProps : Res (option (list PropInfo)) :=
  let baseComponentPath :=
    path_join H [componentsPath; "core"; "base.component.js.map"] in
  let* old :=
    if existsSync H baseComponentPath then
      match extractSourceContent H baseComponentPath 0 with
      | Some baseSource =>
          if truthy baseSource then basePropsOf baseSource else Ok None
      | None => Ok None
      end
    else Ok None in
  match old with
  | Some baseProps => Ok (Some baseProps)
  | None => searchBasePaths possiblePaths
  end.

Definition getBaseProps : Gen (list PropInfo) := fun st =>
  match basePropsCache st with
  | Some cached => (Ok cached, st)
  | None =>
      match locateBaseProps with
      | Ok (Some baseProps) => (Ok baseProps, mkState (Some baseProps) (warnings st))
      | _ => (Ok [], st)
      end
  end.

(** ** [findParentPropsFile] and [searchForFile] *)

(** [s.replace(/suffix$/, '')] *)
Fixpoint removeSuffix (suffix s : string) : string :=
  if s =? suffix then EmptyString
  else match s with
       | EmptyString => EmptyString
       | String c s' => String c (removeSuffix suffix s')
       end.

(** [str.replace(/([a-z0-9])([A-Z])/g, '$1-$2')] *)
Fixpoint hyphenate (s : string) : string :=
  match s with
  | String a (String b rest as tail) =>
      if (is_lower a || is_digit a) && is_upper b
      then String a (String "-" (String b (hyphenate rest)))
      else String a (hyphenate tail)
  | _ => s
  end.

Definition toKebab (str : string) : string := toLowerCase (hyphenate str).

(** The candidate file stems for an ancestor name, deduplicated. *)
Definition candidates (className : string) : list string :=
  let baseName := removeSuffix "Component" (removeSuffix "Props" className) in
  let wm :=
    if startsWith baseName "Wm" then
      let noPrefix := drop_chars 2 baseName in
      [toLowerCase noPrefix; toKebab noPrefix]
    else [] in
  unique [] ([toLowerCase baseName; toKebab baseName] ++ wm).

Definition searchPaths : list string :=
  [ path_join H [componentsPath; "components"];
    path_join H [componentsPath; "core"] ].

(** One iteration of the loop of [searchForFile] in directory [dir]: the value
    it returns, or [None] when the loop goes on. For a directory the iteration
    runs the search in it and returns what it found when that is truthy. *)
Fixpoint searchEntry (targetFileName dir : string) (entry : Dirent) : option string :=
  match entry with
  | DirEntry name entries =>
      found ← first_some (searchEntry targetFileName (path_join H [dir; name])) entries;
      nonEmpty found
  | FileEntry name =>
      if name =? targetFileName then Some (path_join H [dir; name]) else None
  | ClosedDirEntry _ => None
  | OtherEntry _ => None
  end.

Definition searchForFile (dir targetFileName : string) : option string :=
  match readdirSync_withFileTypes H dir with
  | Some entries => first_some (searchEntry targetFileName dir) entries
  | None => None
  end.

Definition findParentPropsFile (className : string) : option string :=
  first_some
    (fun fileName =>
       first_some
         (fun searchPath =>
            if existsSync H searchPath then
              found ← searchForFile searchPath (fileName ++ ".props.js.map");
              nonEmpty found
            else None)
         searchPaths)
    (candidates className).
(** ** [getInheritedProps] *)

Definition tagInherited (ancestor : string) (prop : PropInfo) : PropInfo :=
  {| prop_name := prop_name prop;
     prop_type := prop_type prop;
     defaultValue := defaultValue prop;
     optional := optional prop;
     inherited := true;
     inheritedFrom := Some ancestor |}.

(** [getInheritedProps] on a call stack without bound: [fuel] bounds the
    length of the ancestor chain that is followed, and a chain that is longer,
    or has no end, gives [Diverge]. (On the call stack of the program such a
    run ends in an overflow, which [getInheritedPropsWithin] models.) When
    [extractProps] throws nothing has been pushed yet, so the handler returns
    the empty list. *)
Fixpoint getInheritedProps (fuel : nat) (baseClassName : string) : Gen (list PropInfo) :=
  match fuel with
  | O => liftG Diverge
  | S fuel' =>
      if baseClassName =? "BaseProps" then
        do* baseProps := getBaseProps in
        ret (map (tagInherited "BaseProps") baseProps)
      else
        match findParentPropsFile baseClassName with
        | None =>
            do* _ := warn ("Could not find props file for parent class: "
                           ++ baseClassName) in
            ret []
        | Some parentPropsPath =>
            catchG
              (match whenTruthy (extractSourceContent H parentPropsPath 0) with
               | Some source =>
                   do* propsInfo := liftG (extractProps H source) in
                   match propsInfo with
                   | Some info =>
                       let own := map (tagInherited baseClassName) (pr_props info) in
                       match whenTruthy (pr_baseClass info) with
                       | Some grandparent =>
                           do* more := getInheritedProps fuel' grandparent in
                           ret (own ++ more)%list
                       | None => ret own
                       end
                   | None => ret []
                   end
               | None => ret []
               end)
              (ret [])
        end
  end.


(** ** [filterComponentDoc] *)

(** [overrides?.field?.includes(name)] *)
Definition overrideExcludes (field : Overrides -> option (list string))
    (overrides : option Overrides) (name : string) : bool :=
  match overrides with
  | Some o => match field o with Some names => mem name names | None => false end
  | None => false
  end.

Definition keepProp (doc : ComponentDoc) (prop : PropInfo) : bool :=
  if mem (prop_name prop) (excludeProps config) then false
  else if inherited prop && mem (prop_name prop) (excludeInheritedProps config) then false
  else if overrideExcludes o_excludeProps
            (componentOverrides config !! componentName doc) (prop_name prop) then false
  else true.

Definition keepMethod (doc : ComponentDoc) (method : MethodInfo) : bool :=
  if mem (method_name method) (excludeMethods config) then false
  else if overrideExcludes o_excludeMethods
            (componentOverrides config !! componentName doc) (method_name method) then false
  else true.

Definition keepStyle (doc : ComponentDoc) (style : StyleInfo) : bool :=
  if mem (className style) (excludeStyleClasses config) then false
  else if overrideExcludes o_excludeStyleClasses
            (componentOverrides config !! componentName doc) (className style) then false
  else true.

Definition filterComponentDoc (doc : ComponentDoc) : ComponentDoc :=
  {| componentName := componentName doc;
     componentPath := componentPath doc;
     category := category doc;
     props := List.filter (keepProp doc) (props doc);
     methods := List.filter (keepMethod doc) (methods doc);
     events := events doc;
     styles := List.filter (keepStyle doc) (styles doc);
     baseClass := baseClass doc;
     children := children doc |}.

(** ** [findReferencedComponents] *)

Definition spaces1 (s : string) : option string :=
  match s with
  | String c rest => if is_space c then Some (trimStart rest) else None
  | EmptyString => None
  end.

Definition internalRoot (s : string) : option (string * string) :=
  match strip_prefix "core/" s with
  | Some rest => Some ("core/", rest)
  | None =>
      match strip_prefix "components/" s with
      | Some rest => Some ("components/", rest)
      | None => None
      end
  end.

(** The import pattern: the word [from], white space, a quote, the runtime
    package prefix, then (captured) [core/] or [components/] followed by one
    or more characters other than a single or double quote, and a quote. *)
Definition importPattern : Matcher string := fun s =>
  s ← strip_prefix "from" s;
  s ← spaces1 s;
  '(_, s) ← quote s;
  s ← strip_prefix "@wavemaker/app-rn-runtime/" s;
  '(root, s) ← internalRoot s;
  let '(tail, s) :=
    span (fun c => negb (Ascii.eqb c "'" || Ascii.eqb c dquote)) s in
  tail ← nonEmpty tail;
  '(_, s) ← quote s;
  Some (root ++ tail, s).

Definition findReferencedComponents (jsContent : string) : list string :=
  map (fun relativePath => path_join H [componentsPath; relativePath ++ ".js"])
    (execAll importPattern jsContent).

(** ** [extractEventParameters] *)

(** A closing parenthesis, white space, and the arrow. *)
Definition closeArrow (s : string) : option string :=
  s ← strip_prefix ")" s; strip_prefix "=>" (trimStart s).

(** The lazy run of characters other than line terminators up to the first
    place where [closeArrow] matches. *)
Fixpoint lazyUntilArrow (s : string) : option (string * string) :=
  match closeArrow s with
  | Some rest => Some (EmptyString, rest)
  | None =>
      match s with
      | String c s' =>
          if is_line_terminator c then None
          else '(inner, rest) ← lazyUntilArrow s'; Some (String c inner, rest)
      | EmptyString => None
      end
  end.

Definition arrowPattern : Matcher string := fun s =>
  s ← strip_prefix "(" s; lazyUntilArrow s.

Definition extractEventParameters (eventType : string) : string :=
  if eventType =? "Function" then "()"
  else match matchFirst arrowPattern eventType with
       | Some inner => "(" ++ inner ++ ")"
       | None => eventType
       end.

(** ** [generateComponentDoc] *)

(** [Map<string, EventInfo>]: the entries in insertion order; [set] on a
    present key replaces the value in place. *)
Fixpoint Map_set (key : string) (value : EventInfo) (m : list (string * EventInfo))
  : list (string * EventInfo) :=
  match m with
  | [] => [(key, value)]
  | (k, v) :: rest =>
      if k =? key then (key, value) :: rest else (k, v) :: Map_set key value rest
  end.

Definition setEvent (m : list (string * EventInfo)) (e : EventInfo) :=
  Map_set (event_name e) e m.

Definition declaredEvent (e : string * string) : EventInfo :=
  mkEventInfo (fst e) (snd e) (Some (extractEventParameters (snd e))).

Definition emittedEvent (e : string * string) : EventInfo :=
  mkEventInfo (fst e) "Function" (Some (snd e)).

(** The events of the component's own behaviour file. *)
Definition ownCallbackEvents (jsContent : string) : list EventInfo :=
  map emittedEvent (extractEventCallbacks jsContent).

(** [refEvents.forEach]: an event is pushed only if no event of that name is
    present. *)
Definition addIfAbsent (callbackEvents : list EventInfo) (e : string * string)
  : list EventInfo :=
  if existsb (fun existing => event_name existing =? fst e) callbackEvents
  then callbackEvents
  else callbackEvents ++ [emittedEvent e].

Definition addReferenced (callbackEvents : list EventInfo) (refComponentPath : string)
  : Res (list EventInfo) :=
  if existsSync H refComponentPath then
    let* refContent := lift (readFileSync H refComponentPath) in
    Ok (fold_left addIfAbsent (extractEventCallbacks refContent) callbackEvents)
  else Ok callbackEvents.

Definition collectCallbackEvents (componentPath componentName : string)
  : Res (list EventInfo) :=
  let jsFile := path_join H [componentPath; componentName ++ ".component.js"] in
  if existsSync H jsFile then
    let* jsContent := lift (readFileSync H jsFile) in
    foldM addReferenced (findReferencedComponents jsContent) (ownCallbackEvents jsContent)
  else Ok [].

(** The merge: declared events first, then the callback events. *)
Definition mergeEvents (propsEvents callbackEvents : list EventInfo) : list EventInfo :=
  map snd (fold_left setEvent callbackEvents (fold_left setEvent propsEvents [])).

Definition styleList (styleInfo : StyleState) : list StyleInfo :=
  mkStyleInfo (defaultClass styleInfo) (Some "Default style class")
  :: map (fun cls => mkStyleInfo cls None)
       (List.filter (fun cls => negb (cls =? defaultClass styleInfo))
          (styleClasses styleInfo)).

Definition parseStyles (styles : option string) : list StyleInfo :=
  match whenTruthy styles with
  | Some source =>
      match extractStyleClasses H source with
      | Some styleInfo => styleList styleInfo
      | None => []
      end
  | None => []
  end.

Definition parseMethods (component : option string) : list MethodInfo :=
  match whenTruthy component with
  | Some source =>
      match extractMethods H source with
      | Some methodsInfo => mr_methods methodsInfo
      | None => []
      end
  | None => []
  end.

(** The properties of the component with those of its ancestors appended, and
    the declared ancestor. *)
Definition parseProps (fuel : nat) (propsSource : option string)
  : Gen (list PropInfo * option string) :=
  match whenTruthy propsSource with
  | Some source =>
      do* propsInfo := liftG (extractProps H source) in
      match propsInfo with
      | Some info =>
          match whenTruthy (pr_baseClass info) with
          | Some ancestor =>
              do* inheritedProps := getInheritedProps fuel ancestor in
              ret ((pr_props info ++ inheritedProps)%list, pr_baseClass info)
          | None => ret (pr_props info, pr_baseClass info)
          end
      | None => ret ([], None)
      end
  | None => ret ([], None)
  end.

(** One iteration of the loop over the configured children of a component;
    [generate] is the recursive call. *)
Definition addChild (generate : string -> string -> Gen (option ComponentDoc))
    (componentPath componentName category : string)
    (childData : list ComponentDoc) (entry : string * string)
  : Gen (list ComponentDoc) :=
  let '(childName, relativePath) := entry in
  let childPath := path_resolve H componentPath relativePath in
  if existsSync H childPath then
    do* childDoc := generate childPath category in
    match childDoc with
    | Some doc => ret (childData ++ [doc])%list
    | None => ret childData
    end
  else
    do* _ := warn ("Child component path not found: " ++ childPath ++ " (for "
                   ++ childName ++ " in " ++ componentName ++ ")") in
    ret childData.

(** [generateComponentDoc] on a call stack without bound: [fuel] bounds the
    nesting of child components and the length of ancestor chains, and a
    nesting that is deeper, or has no end, gives [Diverge] (on the call stack
    of the program such a run ends in an overflow, caught by the [try] of a
    caller). The whole body is inside [try]; the handler returns [null]. *)
Fixpoint generateComponentDoc (fuel : nat) (componentPath category : string)
  : Gen (option ComponentDoc) :=
  match fuel with
  | O => liftG Diverge
  | S fuel' =>
      catchG
        (do* sources := liftG (extractComponentSources H componentPath) in
         if negb (truthyOpt (src_props sources))
            && negb (truthyOpt (src_component sources))
         then
           do* _ := warn ("No source files found for " ++ componentPath) in
           ret None
         else
           let componentName := path_basename H componentPath in
           do* (allProps, baseClass) := parseProps fuel (src_props sources) in
           let methods := parseMethods (src_component sources) in
           let propsEvents := map declaredEvent (extractEvents allProps) in
           do* callbackEvents :=
             liftG (collectCallbackEvents componentPath componentName) in
           let events := mergeEvents propsEvents callbackEvents in
           let styles := parseStyles (src_styles sources) in
           do* childData :=
             foldG (addChild (generateComponentDoc fuel')
                      componentPath componentName category)
               (default [] (childComponents config !! componentName)) [] in
           ret (Some (filterComponentDoc
                        {| componentName := componentName;
                           componentPath := componentPath;
                           category := category;
                           props := allProps;
                           methods := methods;
                           events := events;
                           styles := styles;
                           baseClass := baseClass;
                           children := childData |})))
        (ret None)
  end.

End Generator.

(* ================================================================== *)
(** * 8. Facts about text *)
(* ================================================================== *)

Lemma append_cons c x y : String c x ++ y = String c (x ++ y).
Proof. reflexivity. Qed.

Lemma append_nil y : "" ++ y = y.
Proof. reflexivity. Qed.

Lemma length_append x y :
  String.length (x ++ y) = (String.length x + String.length y)%nat.
Proof.
  induction x as [|c x IH]; [reflexivity|].
  rewrite append_cons. cbn [String.length]. rewrite IH. reflexivity.
Qed.

Lemma append_inv_tail x y s : x ++ s = y ++ s -> x = y.
Proof.
  revert y. induction x as [|c x IH]; intros [|d y] E;
    rewrite ?append_cons, ?append_nil in E.
  - reflexivity.
  - apply (f_equal String.length) in E. cbn [String.length] in E.
    rewrite length_append in E. lia.
  - apply (f_equal String.length) in E. cbn [String.length] in E.
    rewrite length_append in E. lia.
  - injection E as -> E. f_equal. auto.
Qed.

Lemma endsWith_refl s : endsWith s s = true.
Proof. destruct s; cbn [endsWith]; rewrite String.eqb_refl; reflexivity. Qed.

Lemma endsWith_app x suf : endsWith (x ++ suf) suf = true.
Proof.
  induction x as [|c x IH].
  - apply endsWith_refl.
  - rewrite append_cons. cbn [endsWith]. rewrite IH. apply orb_true_r.
Qed.

Ltac split_char :=
  match goal with
  | |- context [Ascii.eqb ?a ?b] => destruct (Ascii.eqb_spec a b); [subst|]
  | H : context [Ascii.eqb ?a ?b] |- _ => destruct (Ascii.eqb_spec a b); [subst|]
  end.

Ltac unfold_text :=
  rewrite ?append_cons, ?append_nil in *; cbn -[Ascii.eqb] in *.

(** The cast suffix has no border: an occurrence of it in [y ++ " as any"]
    that starts inside a non-empty [y] lies inside [y]. *)
Lemma startsWith_cast_straddle y :
  y <> "" -> startsWith y " as any" = false ->
  startsWith (y ++ " as any") " as any" = false.
Proof.
  intros Hne Hp.
  destruct y as [|c0 y]; [congruence|]. clear Hne.
  do 6 (destruct y as [|? y];
    [ unfold_text;
      repeat (split_char; unfold_text; try reflexivity; try discriminate)
    | ]).
  unfold_text.
  repeat (split_char; unfold_text; try reflexivity; try discriminate).
Qed.

Lemma replace_unfold pat rep s :
  replace pat rep s =
  if startsWith s pat then rep ++ drop_chars (String.length pat) s
  else match s with
       | EmptyString => EmptyString
       | String c s' => String c (replace pat rep s')
       end.
Proof. destruct s; reflexivity. Qed.

Lemma replace_cast x :
  includes x " as any" = false -> replace " as any" "" (x ++ " as any") = x.
Proof.
  induction x as [|c x IH]; intros Hx.
  - reflexivity.
  - cbn [includes] in Hx. apply orb_false_elim in Hx as [Hp Hx].
    rewrite replace_unfold.
    rewrite startsWith_cast_straddle by (congruence || assumption).
    rewrite append_cons, IH by assumption. reflexivity.
Qed.

Lemma cleanInitializer_cast x :
  includes x " as any" = false -> cleanInitializer (x ++ " as any") = x.
Proof.
  intros Hx. unfold cleanInitializer.
  destruct (String.eqb_spec (x ++ " as any") "null as any") as [E|_].
  - symmetry. apply (append_inv_tail _ "null" " as any"). exact E.
  - rewrite endsWith_app. apply replace_cast, Hx.
Qed.

Lemma cleanInitializer_verbatim t :
  endsWith t " as any" = false -> cleanInitializer t = t.
Proof.
  intros Ht. unfold cleanInitializer.
  destruct (String.eqb_spec t "null as any") as [->|_].
  - discriminate Ht.
  - rewrite Ht. reflexivity.
Qed.

(* ================================================================== *)
(** * 9. Default values of declared properties *)
(* ================================================================== *)

(** The syntax tree of

    [class CounterProps { count: number = 0 as number; }] *)
Definition counterSource : Node :=
  mkNode OtherSyntax
    [ mkNode
        (ClassDeclaration (Some "CounterProps") []
           [PropertyDeclaration "count" false (Some "number") (Some "0 as number")])
        [ mkNode OtherSyntax [];
          mkNode OtherSyntax
            [mkNode OtherSyntax []; mkNode OtherSyntax []; mkNode OtherSyntax []] ] ].

(** C2, counterexample: a cast to a type other than [any] stays in the
    recorded default value. *)
Lemma typed_cast_is_kept :
  exists p,
    visitProps counterSource None = Ok (Some (mkPropsResult [p] "CounterProps" None))
    /\ prop_name p = "count"
    /\ defaultValue p = Some "0 as number"
    /\ defaultValue p <> Some "0".
Proof.
  eexists. split; [reflexivity|]. cbn. repeat split. discriminate.
Qed.

(** C2 (amended): for every property member of a Props class whose
    initializer is [x as any], where [x] itself contains no [ as any], the
    recorded default value is the bare [x]; an initializer that does not end
    in [ as any] is recorded verbatim. *)
Theorem any_cast_is_removed
    (className : string) (heritageClauses : list HeritageClause)
    (before after : list ClassElement)
    (propName : string) (questionToken : bool) (type : option string)
    (initText x : string) (ancestor : option string) :
  endsWith className "Props" = true ->
  getBaseClass heritageClauses = Ok ancestor ->
  (initText = x ++ " as any" /\ includes x " as any" = false)
  \/ (initText = x /\ endsWith x " as any" = false) ->
  exists r,
    declaredProps
      (ClassDeclaration (Some className) heritageClauses
         (before ++ PropertyDeclaration propName questionToken type (Some initText)
                 :: after)%list)
    = Ok (Some r)
    /\ {| prop_name := propName; prop_type := typeText type;
          defaultValue := Some x; optional := questionToken;
          inherited := false; inheritedFrom := None |} ∈ pr_props r.
Proof.
  intros Hname Hbase Hinit.
  eexists. split.
  - cbn [declaredProps]. rewrite Hname, Hbase. reflexivity.
  - cbn [pr_props]. apply list_elem_of_omap.
    eexists. split.
    + apply elem_of_app. right. apply elem_of_cons. left. reflexivity.
    + cbn [classMemberProp fmap option_fmap option_map]. do 2 f_equal.
      destruct Hinit as [[-> Hx]|[-> Hx]].
      * f_equal. apply cleanInitializer_cast, Hx.
      * f_equal. apply cleanInitializer_verbatim, Hx.
Qed.

Lemma any_cast_is_removed_witness :
  exists r,
    declaredProps
      (ClassDeclaration (Some "ButtonProps") [mkHeritage ExtendsKeyword ["BaseProps"]]
         ([] ++ PropertyDeclaration "caption" false (Some "string") (Some "null as any")
             :: [])%list)
    = Ok (Some r)
    /\ {| prop_name := "caption"; prop_type := "string";
          defaultValue := Some "null"; optional := false;
          inherited := false; inheritedFrom := None |} ∈ pr_props r.
Proof.
  apply (any_cast_is_removed "ButtonProps" [mkHeritage ExtendsKeyword ["BaseProps"]]
           [] [] "caption" false (Some "string") "null as any" "null" (Some "BaseProps")).
  - reflexivity.
  - reflexivity.
  - left. split; reflexivity.
Defined.

(* ================================================================== *)
(** * 10. Traversal order *)
(* ================================================================== *)

(** Induction on syntax trees. *)
Section NodeInduction.
Variable P : Node -> Prop.
Hypothesis node_case :
  forall syntax childNodes, Forall P childNodes -> P (mkNode syntax childNodes).

Fixpoint Node_forall_ind (node : Node) : P node :=
  match node with
  | mkNode syntax childNodes =>
      node_case syntax childNodes
        ((fix all (nodes : list Node) : Forall P nodes :=
            match nodes with
            | [] => List.Forall_nil P
            | child :: rest =>
                List.Forall_cons P child rest (Node_forall_ind child) (all rest)
            end) childNodes)
  end.
End NodeInduction.

(** The nodes of a tree in document order: a node, then its children's
    subtrees from first to last. *)
Fixpoint preorder (node : Node) : list Syntax :=
  match node with
  | mkNode syntax childNodes => syntax :: concat (map preorder childNodes)
  end.

Lemma foldM_app {A S} (body : S -> A -> Res S) xs ys s :
  foldM body (xs ++ ys) s = let* s' := foldM body xs s in foldM body ys s'.
Proof.
  revert s. induction xs as [|x xs IH]; intros s; cbn [foldM app].
  - reflexivity.
  - destruct (body s x); cbn [bind]; auto.
Qed.

(** One step of [visit] of [extractProps]. *)
Definition propsStep (result : option PropsResult) (syntax : Syntax)
  : Res (option PropsResult) :=
  let* found := declaredProps syntax in Ok (assign found result).

Lemma visitProps_preorder node :
  forall result, visitProps node result = foldM propsStep (preorder node) result.
Proof.
  induction node as [syntax childNodes IH] using Node_forall_ind; intros result.
  cbn [visitProps preorder foldM]. unfold propsStep at 1.
  destruct (declaredProps syntax) as [found| |]; cbn [bind]; try reflexivity.
  generalize (assign found result). clear result found.
  induction IH as [|child rest Hchild _ IHrest]; intros result.
  - reflexivity.
  - cbn [foldM map concat]. rewrite foldM_app, Hchild.
    destruct (foldM propsStep (preorder child) result); cbn [bind]; auto.
Qed.

(** Every [extends] clause of the declaration lists at least one type, as in
    any declaration the compiler accepts. *)
Definition typesListed (heritage : HeritageClause) : bool :=
  match token heritage, types heritage with
  | ExtendsKeyword, [] => false
  | _, _ => true
  end.

Definition extendsListed (syntax : Syntax) : bool :=
  match syntax with
  | ClassDeclaration _ heritageClauses _ => forallb typesListed heritageClauses
  | InterfaceDeclaration _ heritageClauses _ => forallb typesListed heritageClauses
  | _ => true
  end.

(** The nodes that one of the three blocks of [visit] takes for a Props
    declaration: a named class or an interface whose name ends in [Props], and
    a type alias of such a name for an object type. *)
Definition namesProps (syntax : Syntax) : bool :=
  match syntax with
  | ClassDeclaration (Some className) _ _ => endsWith className "Props"
  | InterfaceDeclaration interfaceName _ _ => endsWith interfaceName "Props"
  | TypeAliasDeclaration typeName (TypeLiteral _) => endsWith typeName "Props"
  | _ => false
  end.

Lemma assign_last {A} (x : option A) (rest : list A) (old : option A) :
  assign (last (option_list x ++ rest)) old = assign (last rest) (assign x old).
Proof.
  destruct x as [x|]; [|reflexivity].
  destruct rest as [|y rest]; [reflexivity|].
  change (option_list (Some x) ++ y :: rest)%list with (x :: y :: rest).
  rewrite last_cons_cons.
  destruct (last (y :: rest)) eqn:E; [reflexivity|].
  apply last_None in E. discriminate.
Qed.

(** The loop over the heritage clauses leaves the first type of the last
    [extends] clause. *)
Lemma heritageSteps_listed clauses :
  forallb typesListed clauses = true ->
  forall baseClass,
    foldM heritageStep clauses baseClass
    = Ok (assign
            (last (omap (fun heritage =>
                           match token heritage with
                           | ExtendsKeyword => head (types heritage)
                           | ImplementsKeyword => None
                           end) clauses))
            baseClass).
Proof.
  induction clauses as [|heritage clauses IH]; intros Hall baseClass; [reflexivity|].
  cbn [forallb] in Hall. apply andb_true_iff in Hall as [Hh Hall].
  cbn [foldM]. unfold typesListed in Hh. unfold heritageStep at 1.
  set (extended := fun heritage : HeritageClause =>
                     match token heritage with
                     | ExtendsKeyword => head (types heritage)
                     | ImplementsKeyword => None
                     end) in *.
  replace (omap extended (heritage :: clauses))
    with (option_list (extended heritage) ++ omap extended clauses)%list
    by (cbn [omap list_omap]; destruct (extended heritage); reflexivity).
  rewrite assign_last. subst extended. cbn beta.
  destruct (token heritage), (types heritage) as [|baseType others];
    try discriminate; cbn [bind head]; apply IH, Hall.
Qed.

Lemma declaredProps_other syntax :
  namesProps syntax = false -> declaredProps syntax = Ok None.
Proof.
  destruct syntax as [[className|] clauses members|interfaceName clauses members
                     |typeName [members|]|declarations|expression arguments|];
    cbn [namesProps declaredProps]; try reflexivity; intros ->; reflexivity.
Qed.

Lemma declaredProps_listed syntax :
  (namesProps syntax = true -> extendsListed syntax = true) ->
  exists found, declaredProps syntax = Ok found.
Proof.
  intros Hs. destruct (namesProps syntax) eqn:Hn.
  2:{ exists None. apply declaredProps_other, Hn. }
  specialize (Hs eq_refl).
  destruct syntax as [[className|] clauses members|interfaceName clauses members
                     |typeName [members|]|declarations|expression arguments|];
    cbn [namesProps declaredProps extendsListed] in *; try discriminate.
  - rewrite Hn. unfold getBaseClass. rewrite (heritageSteps_listed _ Hs).
    eexists. reflexivity.
  - rewrite Hn. unfold getBaseClass. rewrite (heritageSteps_listed _ Hs).
    eexists. reflexivity.
  - rewrite Hn. eexists. reflexivity.
Qed.

(** The visitor gets through nodes whose Props declarations are well formed. *)
Lemma propsSteps_listed nodes :
  Forall (fun syntax => namesProps syntax = true -> extendsListed syntax = true) nodes ->
  forall result, exists result', foldM propsStep nodes result = Ok result'.
Proof.
  induction 1 as [|syntax nodes Hs _ IH]; intros result; cbn [foldM].
  - eexists. reflexivity.
  - unfold propsStep at 1. destruct (declaredProps_listed _ Hs) as [found ->].
    cbn [bind]. apply IH.
Qed.

(** Nodes that are no Props declaration leave the result as it is. *)
Lemma propsSteps_other nodes :
  Forall (fun syntax => namesProps syntax = false) nodes ->
  forall result, foldM propsStep nodes result = Ok result.
Proof.
  induction 1 as [|syntax nodes Hs _ IH]; intros result; cbn [foldM]; [reflexivity|].
  unfold propsStep at 1. rewrite (declaredProps_other _ Hs). cbn [bind assign].
  apply IH.
Qed.

(** The result of [extractProps] is what the last Props declaration of the
    source assigns. *)
Lemma extractProps_last H sourceCode before declaration after found :
  preorder (createSourceFile H sourceCode) = (before ++ declaration :: after)%list ->
  Forall (fun syntax => namesProps syntax = true -> extendsListed syntax = true)
    before ->
  Forall (fun syntax => namesProps syntax = false) after ->
  declaredProps declaration = Ok (Some found) ->
  extractProps H sourceCode = Ok (Some found).
Proof.
  intros Hnodes Hbefore Hafter Hfound. unfold extractProps.
  rewrite visitProps_preorder, Hnodes, foldM_app.
  destruct (propsSteps_listed before Hbefore None) as [result ->]. cbn [bind foldM].
  unfold propsStep at 1. rewrite Hfound. cbn [bind assign].
  apply propsSteps_other, Hafter.
Qed.

(** C10 (amended): in a source whose Props declarations list a type in each
    of their [extends] clauses, properties extraction returns what the Props
    declaration that comes last in document order declares, whatever comes
    before it. For a class: its name, a descriptor for each property
    declaration among its members, in order (name, type text or [any], default
    value, optional mark, not inherited), and the first type of its last
    [extends] clause. For an interface: its name, a descriptor for each
    property signature, and the first type of its last [extends] clause. For a
    type alias of an object type: its name, a descriptor for each property
    signature, and no ancestor. *)
Theorem last_declaration_wins (H : Host) (sourceCode : string)
    (before after : list Syntax) (declaration : Syntax) :
  preorder (createSourceFile H sourceCode) = (before ++ declaration :: after)%list ->
  Forall (fun syntax => namesProps syntax = true -> extendsListed syntax = true)
    (before ++ [declaration])%list ->
  Forall (fun syntax => namesProps syntax = false) after ->
  (forall className heritageClauses members,
      declaration = ClassDeclaration (Some className) heritageClauses members ->
      endsWith className "Props" = true ->
      extractProps H sourceCode
      = Ok (Some
              {| pr_props :=
                   omap (fun member =>
                           match member with
                           | PropertyDeclaration propName questionToken type init =>
                               Some {| prop_name := propName;
                                       prop_type := default "any" type;
                                       defaultValue := cleanInitializer <$> init;
                                       optional := questionToken;
                                       inherited := false;
                                       inheritedFrom := None |}
                           | _ => None
                           end) members;
                 pr_className := className;
                 pr_baseClass :=
                   last (omap (fun heritage =>
                                 match token heritage with
                                 | ExtendsKeyword => head (types heritage)
                                 | ImplementsKeyword => None
                                 end) heritageClauses) |}))
  /\ (forall interfaceName heritageClauses members,
        declaration = InterfaceDeclaration interfaceName heritageClauses members ->
        endsWith interfaceName "Props" = true ->
        extractProps H sourceCode
        = Ok (Some
                {| pr_props :=
                     omap (fun member =>
                             match member with
                             | PropertySignature propName questionToken type =>
                                 Some {| prop_name := propName;
                                         prop_type := default "any" type;
                                         defaultValue := None;
                                         optional := questionToken;
                                         inherited := false;
                                         inheritedFrom := None |}
                             | OtherTypeElement => None
                             end) members;
                   pr_className := interfaceName;
                   pr_baseClass :=
                     last (omap (fun heritage =>
                                   match token heritage with
                                   | ExtendsKeyword => head (types heritage)
                                   | ImplementsKeyword => None
                                   end) heritageClauses) |}))
  /\ (forall typeName members,
        declaration = TypeAliasDeclaration typeName (TypeLiteral members) ->
        endsWith typeName "Props" = true ->
        extractProps H sourceCode
        = Ok (Some
                {| pr_props :=
                     omap (fun member =>
                             match member with
                             | PropertySignature propName questionToken type =>
                                 Some {| prop_name := propName;
                                         prop_type := default "any" type;
                                         defaultValue := None;
                                         optional := questionToken;
                                         inherited := false;
                                         inheritedFrom := None |}
                             | OtherTypeElement => None
                             end) members;
                   pr_className := typeName;
                   pr_baseClass := None |})).
Proof.
  intros Hnodes Hlisted Hafter.
  apply Forall_app in Hlisted as [Hbefore Hdeclaration].
  apply Forall_cons in Hdeclaration as [Hdeclaration _].
  assert (forall (A : Type) (x : option A), assign x None = x) as Hnone
    by (intros A [x|]; reflexivity).
  split; [|split].
  - intros className clauses members -> Hname.
    eapply extractProps_last; [exact Hnodes|exact Hbefore|exact Hafter|].
    cbn [declaredProps namesProps extendsListed] in *. rewrite Hname.
    unfold getBaseClass. rewrite (heritageSteps_listed _ (Hdeclaration Hname)).
    cbn [bind]. rewrite Hnone. reflexivity.
  - intros interfaceName clauses members -> Hname.
    eapply extractProps_last; [exact Hnodes|exact Hbefore|exact Hafter|].
    cbn [declaredProps namesProps extendsListed] in *. rewrite Hname.
    unfold getBaseClass. rewrite (heritageSteps_listed _ (Hdeclaration Hname)).
    cbn [bind]. rewrite Hnone. reflexivity.
  - intros typeName members -> Hname.
    eapply extractProps_last; [exact Hnodes|exact Hbefore|exact Hafter|].
    cbn [declaredProps]. rewrite Hname. reflexivity.
Qed.

(** A host that only parses: no file exists. *)
Definition parserHost (parse : string -> Node) : Host :=
  {| createSourceFile := parse;
     JSON_parse := fun _ => None;
     existsSync := fun _ => false;
     readFileSync := fun _ => None;
     readdirSync := fun _ => None;
     readdirSync_withFileTypes := fun _ => None;
     path_join := join "/";
     path_basename := fun p => p;
     path_resolve := fun from to => from ++ "/" ++ to |}.

(** The syntax tree of

    [class ButtonProps extends BaseProps { caption: string = null as any }]
    [type IconProps = { name?: string }]
    [interface LabelProps extends TextProps, Themed { text?: string; wrap }]
    [class WmLabel { render() { } }] *)
Definition threeDeclarations : Node :=
  mkNode OtherSyntax
    [ mkNode
        (ClassDeclaration (Some "ButtonProps") [mkHeritage ExtendsKeyword ["BaseProps"]]
           [PropertyDeclaration "caption" false (Some "string") (Some "null as any")])
        [mkNode OtherSyntax []; mkNode OtherSyntax []; mkNode OtherSyntax []];
      mkNode
        (TypeAliasDeclaration "IconProps"
           (TypeLiteral [PropertySignature "name" true (Some "string")]))
        [mkNode OtherSyntax []; mkNode OtherSyntax [mkNode OtherSyntax []]];
      mkNode
        (InterfaceDeclaration "LabelProps"
           [mkHeritage ExtendsKeyword ["TextProps"; "Themed"]]
           [PropertySignature "text" true (Some "string");
            PropertySignature "wrap" false None])
        [mkNode OtherSyntax []; mkNode OtherSyntax [];
         mkNode OtherSyntax [mkNode OtherSyntax []]; mkNode OtherSyntax []];
      mkNode
        (ClassDeclaration (Some "WmLabel") [] [MethodDeclaration "render" [] None []])
        [mkNode OtherSyntax []; mkNode OtherSyntax []] ].

Lemma last_declaration_wins_witness :
  extractProps (parserHost (fun _ => threeDeclarations)) "three declarations"
  = Ok (Some (mkPropsResult
                [ mkPropInfo "text" "string" None true false None;
                  mkPropInfo "wrap" "any" None false false None ]
                "LabelProps" (Some "TextProps"))).
Proof.
  refine (proj1 (proj2
            (last_declaration_wins (parserHost (fun _ => threeDeclarations))
               "three declarations"
               [ OtherSyntax;
                 ClassDeclaration (Some "ButtonProps")
                   [mkHeritage ExtendsKeyword ["BaseProps"]]
                   [PropertyDeclaration "caption" false (Some "string")
                      (Some "null as any")];
                 OtherSyntax; OtherSyntax; OtherSyntax;
                 TypeAliasDeclaration "IconProps"
                   (TypeLiteral [PropertySignature "name" true (Some "string")]);
                 OtherSyntax; OtherSyntax; OtherSyntax ]
               [ OtherSyntax; OtherSyntax; OtherSyntax; OtherSyntax; OtherSyntax;
                 ClassDeclaration (Some "WmLabel") []
                   [MethodDeclaration "render" [] None []];
                 OtherSyntax; OtherSyntax ]
               (InterfaceDeclaration "LabelProps"
                  [mkHeritage ExtendsKeyword ["TextProps"; "Themed"]]
                  [PropertySignature "text" true (Some "string");
                   PropertySignature "wrap" false None])
               eq_refl _ _))
            "LabelProps" _ _ eq_refl eq_refl).
  - repeat constructor.
  - repeat constructor.
Defined.

(** The syntax tree of

    [class ButtonProps extends { caption: string }]
    [type IconProps = { name?: string }]

    as the compiler recovers it: the [extends] clause of the class lists no
    type, and the braces are the body of the class. *)
Definition unfinishedExtends : Node :=
  mkNode OtherSyntax
    [ mkNode
        (ClassDeclaration (Some "ButtonProps") [mkHeritage ExtendsKeyword []]
           [PropertyDeclaration "caption" false (Some "string") None])
        [mkNode OtherSyntax []; mkNode OtherSyntax []; mkNode OtherSyntax []];
      mkNode
        (TypeAliasDeclaration "IconProps"
           (TypeLiteral [PropertySignature "name" true (Some "string")]))
        [mkNode OtherSyntax []; mkNode OtherSyntax [mkNode OtherSyntax []]] ].

(** C10, counterexample: the source holds two Props declarations, and the
    one that comes last is a well-formed type alias; extraction throws at the
    first, whose [extends] clause lists no type, and returns nothing. *)
Lemma unfinished_extends_throws :
  extractProps (parserHost (fun _ => unfinishedExtends)) "unfinished extends" = Throw
  /\ extractProps (parserHost (fun _ => unfinishedExtends)) "unfinished extends"
     <> Ok (Some (mkPropsResult
                    [mkPropInfo "name" "string" None true false None] "IconProps" None)).
Proof. split; [reflexivity|discriminate]. Qed.

(* ================================================================== *)
(** * 11. Filtering *)
(* ================================================================== *)

Lemma elem_of_filter_bool {A} (keep : A -> bool) (xs : list A) (x : A) :
  x ∈ List.filter keep xs <-> x ∈ xs /\ keep x = true.
Proof. rewrite !list_elem_of_In. apply filter_In. Qed.

Definition idOnlyInheritedExcluded : GeneratorConfig :=
  {| childComponents := ∅;
     excludeProps := [];
     excludeInheritedProps := ["id"];
     excludeMethods := [];
     excludeStyleClasses := [];
     componentOverrides := ∅ |}.

Definition docWithOwnId : ComponentDoc :=
  {| componentName := "button";
     componentPath := "components/basic/button";
     category := "basic";
     props := [mkPropInfo "id" "string" None false false None];
     methods := [];
     events := [];
     styles := [];
     baseClass := None;
     children := [] |}.

(** C3, counterexample: a name in the inherited-property exclude-list does
    not remove an own property of that name. *)
Lemma own_property_survives_inherited_exclusion :
  mem "id" (excludeInheritedProps idOnlyInheritedExcluded) = true
  /\ props (filterComponentDoc idOnlyInheritedExcluded docWithOwnId)
     = [mkPropInfo "id" "string" None false false None].
Proof. split; reflexivity. Qed.

(** C3 (amended): no property named in the global property exclude-list or in
    the component's override exclude-list is in the filtered doc, own or
    inherited; no inherited property named in the global inherited-property
    exclude-list is in it; and no method or style class named in its global or
    override exclude-list is in it. *)
Theorem exclusion_is_monotonic (config : GeneratorConfig) (doc : ComponentDoc)
    (name : string) :
  let filtered := filterComponentDoc config doc in
  let overrides := componentOverrides config !! componentName doc in
  (mem name (excludeProps config) = true
   \/ overrideExcludes o_excludeProps overrides name = true ->
   forall p, p ∈ props filtered -> prop_name p <> name)
  /\ (mem name (excludeInheritedProps config) = true ->
      forall p, p ∈ props filtered -> prop_name p = name -> inherited p = false)
  /\ (mem name (excludeMethods config) = true
      \/ overrideExcludes o_excludeMethods overrides name = true ->
      forall m, m ∈ methods filtered -> method_name m <> name)
  /\ (mem name (excludeStyleClasses config) = true
      \/ overrideExcludes o_excludeStyleClasses overrides name = true ->
      forall s, s ∈ styles filtered -> className s <> name).
Proof.
  cbn zeta. cbn [filterComponentDoc props methods styles].
  repeat split.
  - intros Hex p Hp Hn. rewrite <- Hn in Hex. apply elem_of_filter_bool in Hp as [_ Hkeep].
    unfold keepProp in Hkeep.
    destruct (mem (prop_name p) (excludeProps config)); [discriminate|].
    destruct Hex as [Hex|Hex]; [discriminate|]. rewrite Hex in Hkeep.
    destruct (inherited p && _); discriminate.
  - intros Hex p Hp Hn. rewrite <- Hn in Hex. apply elem_of_filter_bool in Hp as [_ Hkeep].
    unfold keepProp in Hkeep. rewrite Hex, andb_true_r in Hkeep.
    destruct (mem (prop_name p) (excludeProps config)); [discriminate|].
    destruct (inherited p); [discriminate|reflexivity].
  - intros Hex m Hm Hn. rewrite <- Hn in Hex. apply elem_of_filter_bool in Hm as [_ Hkeep].
    unfold keepMethod in Hkeep.
    destruct (mem (method_name m) (excludeMethods config)); [discriminate|].
    destruct Hex as [Hex|Hex]; [discriminate|]. rewrite Hex in Hkeep. discriminate.
  - intros Hex s Hs Hn. rewrite <- Hn in Hex. apply elem_of_filter_bool in Hs as [_ Hkeep].
    unfold keepStyle in Hkeep.
    destruct (mem (className s) (excludeStyleClasses config)); [discriminate|].
    destruct Hex as [Hex|Hex]; [discriminate|]. rewrite Hex in Hkeep. discriminate.
Qed.

Open Scope list_scope.

(* ================================================================== *)
(** * 12. The event map *)
(* ================================================================== *)

Lemma mem_In x xs : mem x xs = true <-> In x xs.
Proof.
  unfold mem. rewrite existsb_exists. split.
  - intros (y & Hy & E). apply String.eqb_eq in E. subst. exact Hy.
  - intros Hx. exists x. split; [exact Hx|apply String.eqb_refl].
Qed.

Lemma mem_false x xs : mem x xs = false <-> ~ In x xs.
Proof. rewrite <- mem_In. destruct (mem x xs); intuition congruence. Qed.

(** Every key of the map is the name of its event. *)
Definition keyed (m : list (string * EventInfo)) : Prop :=
  Forall (fun kv => fst kv = event_name (snd kv)) m.

Lemma Map_set_keys key value m :
  map fst (Map_set key value m)
  = if mem key (map fst m) then map fst m else map fst m ++ [key].
Proof.
  induction m as [|[k v] m IH]; [reflexivity|].
  unfold mem. cbn [Map_set map fst existsb]. rewrite (String.eqb_sym key k).
  destruct (String.eqb_spec k key) as [->|Hk]; cbn [orb map fst].
  - reflexivity.
  - rewrite IH. unfold mem.
    destruct (existsb (String.eqb key) (map fst m)); reflexivity.
Qed.

Lemma Map_set_NoDup key value m :
  NoDup (map fst m) -> NoDup (map fst (Map_set key value m)).
Proof.
  intros Hm. rewrite Map_set_keys.
  destruct (mem key (map fst m)) eqn:E; [exact Hm|].
  apply mem_false in E. apply NoDup_app. repeat split.
  - exact Hm.
  - intros x Hx Hk. apply list_elem_of_singleton in Hk as ->.
    apply E, list_elem_of_In, Hx.
  - apply NoDup_singleton.
Qed.

Lemma Map_set_In key value m :
  In (key, value) (Map_set key value m).
Proof.
  induction m as [|[k v] m IH]; cbn [Map_set]; [left; reflexivity|].
  destruct (k =? key); [left; reflexivity|right; exact IH].
Qed.

Lemma Map_set_other key value m k v :
  k <> key -> In (k, v) m -> In (k, v) (Map_set key value m).
Proof.
  intros Hk. induction m as [|[k' v'] m IH]; intros Hin; [destruct Hin|].
  cbn [Map_set]. destruct (String.eqb_spec k' key) as [->|Hne].
  - destruct Hin as [E|Hin]; [congruence|right; exact Hin].
  - destruct Hin as [E|Hin]; [left; exact E|right; auto].
Qed.

Lemma Map_set_inv key value m k v :
  In (k, v) (Map_set key value m) -> (k, v) = (key, value) \/ In (k, v) m.
Proof.
  induction m as [|[k' v'] m IH]; cbn [Map_set]; intros Hin.
  - destruct Hin as [E|[]]. left. congruence.
  - destruct (k' =? key).
    + destruct Hin as [E|Hin]; [left; congruence|right; right; exact Hin].
    + destruct Hin as [E|Hin]; [right; left; exact E|].
      destruct (IH Hin); [left|right; right]; assumption.
Qed.

Lemma setEvent_keyed m e : keyed m -> keyed (setEvent m e).
Proof.
  unfold keyed, setEvent. rewrite !Forall_forall. intros Hm [k v] Hin.
  apply list_elem_of_In, Map_set_inv in Hin as [E|Hin].
  - injection E as -> ->. reflexivity.
  - apply (Hm (k, v)), list_elem_of_In, Hin.
Qed.

Lemma setEvents_keyed es : forall m, keyed m -> keyed (fold_left setEvent es m).
Proof.
  induction es as [|e es IH]; intros m Hm; cbn [fold_left]; [exact Hm|].
  apply IH, setEvent_keyed, Hm.
Qed.

Lemma setEvents_NoDup es :
  forall m, NoDup (map fst m) -> NoDup (map fst (fold_left setEvent es m)).
Proof.
  induction es as [|e es IH]; intros m Hm; cbn [fold_left]; [exact Hm|].
  apply IH, Map_set_NoDup, Hm.
Qed.

Lemma setEvents_keeps es :
  forall m k v,
    ~ In k (map event_name es) -> In (k, v) m -> In (k, v) (fold_left setEvent es m).
Proof.
  induction es as [|e es IH]; intros m k v Hk Hin; cbn [fold_left]; [exact Hin|].
  cbn [map] in Hk. apply IH; [intros Hes; apply Hk; right; exact Hes|].
  apply Map_set_other; [|exact Hin]. intros ->. apply Hk. left. reflexivity.
Qed.

Lemma setEvents_In es :
  NoDup (map event_name es) ->
  forall m e, In e es -> In (event_name e, e) (fold_left setEvent es m).
Proof.
  induction es as [|x es IH]; intros Hnd m e Hin; [destruct Hin|].
  cbn [map] in Hnd. apply NoDup_cons in Hnd as [Hx Hnd].
  cbn [fold_left]. destruct Hin as [->|Hin].
  - apply setEvents_keeps; [rewrite <- list_elem_of_In; exact Hx|].
    apply Map_set_In.
  - apply IH; assumption.
Qed.

Lemma setEvents_inv es :
  forall m k v,
    In (k, v) (fold_left setEvent es m) -> In v es \/ In (k, v) m.
Proof.
  induction es as [|e es IH]; intros m k v Hin; cbn [fold_left] in Hin; [right; exact Hin|].
  apply IH in Hin as [Hin|Hin]; [left; right; exact Hin|].
  apply Map_set_inv in Hin as [E|Hin]; [left; left; congruence|right; exact Hin].
Qed.

Lemma keyed_names m : keyed m -> map event_name (map snd m) = map fst m.
Proof.
  induction 1 as [|[k v] m Hkv _ IH]; [reflexivity|].
  cbn [map fst snd] in *. congruence.
Qed.

Lemma merged_keyed pe ce :
  keyed (fold_left setEvent ce (fold_left setEvent pe [])).
Proof. apply setEvents_keyed, setEvents_keyed. constructor. Qed.

(** The merged list has one entry per name. *)
Lemma mergeEvents_NoDup pe ce : NoDup (map event_name (mergeEvents pe ce)).
Proof.
  unfold mergeEvents. rewrite keyed_names by apply merged_keyed.
  apply setEvents_NoDup, setEvents_NoDup. constructor.
Qed.

(** A callback event is in the merged list. *)
Lemma mergeEvents_callback pe ce e :
  NoDup (map event_name ce) -> In e ce -> In e (mergeEvents pe ce).
Proof.
  intros Hnd Hin. unfold mergeEvents.
  apply in_map_iff. exists (event_name e, e). split; [reflexivity|].
  apply setEvents_In; assumption.
Qed.

Lemma NoDup_map_eq {A B} (f : A -> B) (xs : list A) (x y : A) :
  NoDup (map f xs) -> In x xs -> In y xs -> f x = f y -> x = y.
Proof.
  induction xs as [|a xs IH]; intros Hnd Hx Hy E; [destruct Hx|].
  cbn [map] in Hnd. apply NoDup_cons in Hnd as [Ha Hnd].
  rewrite list_elem_of_In in Ha.
  destruct Hx as [->|Hx], Hy as [->|Hy].
  - reflexivity.
  - exfalso. apply Ha. rewrite E. apply in_map, Hy.
  - exfalso. apply Ha. rewrite <- E. apply in_map, Hx.
  - auto.
Qed.

(** Two entries of the merged list with the same name are the same entry. *)
Lemma mergeEvents_unique pe ce e e' :
  In e (mergeEvents pe ce) -> In e' (mergeEvents pe ce) ->
  event_name e = event_name e' -> e = e'.
Proof. apply NoDup_map_eq, mergeEvents_NoDup. Qed.

(** Every entry of the merged list is a declared or a callback event. *)
Lemma mergeEvents_inv pe ce e :
  In e (mergeEvents pe ce) -> In e pe \/ In e ce.
Proof.
  unfold mergeEvents. intros Hin.
  apply in_map_iff in Hin as ([k v] & <- & Hin). cbn [snd].
  apply setEvents_inv in Hin as [Hin|Hin]; [right; exact Hin|].
  apply setEvents_inv in Hin as [Hin|[]]. left. exact Hin.
Qed.

(** ** The callback events *)

Lemma callbackStep_names events m :
  NoDup (map fst events) -> NoDup (map fst (callbackStep events m)).
Proof.
  intros Hnd. destruct m as [eventName params]. unfold callbackStep.
  destruct (mem eventName (map fst events)) eqn:E; [exact Hnd|].
  apply mem_false in E. rewrite map_app. apply NoDup_app. repeat split.
  - exact Hnd.
  - intros x Hx Hk. apply list_elem_of_singleton in Hk as ->.
    apply E, list_elem_of_In, Hx.
  - apply NoDup_singleton.
Qed.

(** The scan keeps the first signature of each event name. *)
Lemma extractEventCallbacks_NoDup sourceCode :
  NoDup (map fst (extractEventCallbacks sourceCode)).
Proof.
  unfold extractEventCallbacks.
  generalize (execAll invokePattern sourceCode) as matches.
  assert (NoDup (map fst (@nil (string * string)))) as Hnil by constructor.
  revert Hnil. generalize (@nil (string * string)) as events.
  intros events Hnd matches. revert events Hnd.
  induction matches as [|m matches IH]; intros events Hnd; cbn [fold_left].
  - exact Hnd.
  - apply IH, callbackStep_names, Hnd.
Qed.

Lemma ownCallbackEvents_names jsContent :
  map event_name (ownCallbackEvents jsContent)
  = map fst (extractEventCallbacks jsContent).
Proof. unfold ownCallbackEvents. rewrite map_map. reflexivity. Qed.

(** What the merge of one referenced component does to the callback events:
    the present events stay, in place; the events added have new names. *)
Definition extends (before after : list EventInfo) : Prop :=
  exists added,
    after = before ++ added
    /\ (forall a, In a added -> ~ In (event_name a) (map event_name before))
    /\ (NoDup (map event_name before) -> NoDup (map event_name after)).

Lemma extends_refl events : extends events events.
Proof.
  exists []. rewrite app_nil_r. split; [reflexivity|]. split; [|auto].
  intros a [].
Qed.

Lemma extends_trans a b c : extends a b -> extends b c -> extends a c.
Proof.
  intros (ab & -> & Hab & Nab) (bc & -> & Hbc & Nbc).
  exists (ab ++ bc). rewrite app_assoc. split; [reflexivity|]. split; [|auto].
  intros x Hx Hin. apply in_app_or in Hx as [Hx|Hx].
  - exact (Hab x Hx Hin).
  - apply (Hbc x Hx). rewrite map_app. apply in_or_app. left. exact Hin.
Qed.

Lemma addIfAbsent_extends events e : extends events (addIfAbsent events e).
Proof.
  unfold addIfAbsent.
  destruct (existsb _ events) eqn:E; [apply extends_refl|].
  assert (~ In (fst e) (map event_name events)) as Hfresh.
  { intros Hin. apply in_map_iff in Hin as (x & Hx & Hin).
    assert (existsb (fun existing => event_name existing =? fst e) events = true) as Ht.
    { apply existsb_exists. exists x. split; [exact Hin|]. apply String.eqb_eq, Hx. }
    congruence. }
  exists [emittedEvent e]. split; [reflexivity|]. split.
  - intros a [<-|[]]. exact Hfresh.
  - intros Hnd. rewrite map_app. apply NoDup_app. repeat split.
    + exact Hnd.
    + intros x Hx Hk. apply list_elem_of_singleton in Hk as ->.
      apply Hfresh, list_elem_of_In, Hx.
    + apply NoDup_singleton.
Qed.

Lemma addAll_extends refEvents :
  forall events, extends events (fold_left addIfAbsent refEvents events).
Proof.
  induction refEvents as [|e refEvents IH]; intros events; cbn [fold_left].
  - apply extends_refl.
  - eapply extends_trans; [apply addIfAbsent_extends|apply IH].
Qed.

(* ================================================================== *)
(** * 13. Outcomes of the generator *)
(* ================================================================== *)

Lemma bindG_Ok {A B} (m : Gen A) (k : A -> Gen B) st b st' :
  bindG m k st = (Ok b, st') ->
  exists a st1, m st = (Ok a, st1) /\ k a st1 = (Ok b, st').
Proof.
  unfold bindG. destruct (m st) as [[a| |] st1]; intros E; try discriminate.
  exists a, st1. split; [reflexivity|exact E].
Qed.

Lemma catchG_Some {A} (m : Gen (option A)) st a st' :
  catchG m (ret None) st = (Ok (Some a), st') -> m st = (Ok (Some a), st').
Proof.
  unfold catchG, ret. destruct (m st) as [[r| |] st1]; intros E;
    try discriminate; exact E.
Qed.

Lemma generateComponentDoc_inv H componentsPath config fuel componentPath category
    st doc st' :
  generateComponentDoc H componentsPath config (S fuel) componentPath category st
  = (Ok (Some doc), st') ->
  exists sources allProps ancestor callbackEvents childData st1,
    extractComponentSources H componentPath = Ok sources
    /\ parseProps H componentsPath (S fuel) (src_props sources) st
       = (Ok (allProps, ancestor), st1)
    /\ collectCallbackEvents H componentsPath componentPath
         (path_basename H componentPath) = Ok callbackEvents
    /\ foldG (addChild H (generateComponentDoc H componentsPath config fuel)
                componentPath (path_basename H componentPath) category)
         (default [] (childComponents config !! path_basename H componentPath)) [] st1
       = (Ok childData, st')
    /\ doc = filterComponentDoc config
               {| componentName := path_basename H componentPath;
                  componentPath := componentPath;
                  category := category;
                  props := allProps;
                  methods := parseMethods H (src_component sources);
                  events := mergeEvents (map declaredEvent (extractEvents allProps))
                              callbackEvents;
                  styles := parseStyles H (src_styles sources);
                  baseClass := ancestor;
                  children := childData |}.
Proof.
  intros Hgen. cbn [generateComponentDoc] in Hgen.
  apply catchG_Some in Hgen.
  apply bindG_Ok in Hgen as (sources & st0 & Hsrc & Hgen).
  unfold liftG in Hsrc. injection Hsrc as Hsrc <-.
  destruct (negb (truthyOpt (src_props sources)) && negb (truthyOpt (src_component sources))).
  { apply bindG_Ok in Hgen as ([] & st1 & _ & Hgen). discriminate. }
  apply bindG_Ok in Hgen as ([allProps ancestor] & st1 & Hprops & Hgen).
  apply bindG_Ok in Hgen as (callbackEvents & st2 & Hcb & Hgen).
  unfold liftG in Hcb. injection Hcb as Hcb <-.
  apply bindG_Ok in Hgen as (childData & st3 & Hchildren & Hgen).
  unfold ret in Hgen. injection Hgen as <- <-.
  exists sources, allProps, ancestor, callbackEvents, childData, st1.
  repeat split; assumption.
Qed.

(* ================================================================== *)
(** * 14. Event reconciliation *)
(* ================================================================== *)

Lemma addReferenced_extends H events refComponentPath events' :
  addReferenced H events refComponentPath = Ok events' -> extends events events'.
Proof.
  unfold addReferenced. destruct (existsSync H refComponentPath).
  - destruct (readFileSync H refComponentPath) as [refContent|]; cbn [lift bind];
      intros E; [|discriminate].
    injection E as <-. apply addAll_extends.
  - intros E. injection E as <-. apply extends_refl.
Qed.

Lemma addAllReferenced_extends H paths :
  forall events events',
    foldM (addReferenced H) paths events = Ok events' -> extends events events'.
Proof.
  induction paths as [|p paths IH]; intros events events'; cbn [foldM].
  - intros E. injection E as <-. apply extends_refl.
  - destruct (addReferenced H events p) as [mid| |] eqn:Hp; cbn [bind];
      intros E; try discriminate.
    eapply extends_trans; [eapply addReferenced_extends, Hp|apply IH, E].
Qed.

Lemma collectCallbackEvents_extends H componentsPath componentPath componentName
    jsContent callbackEvents :
  existsSync H (path_join H [componentPath; (componentName ++ ".component.js")%string])
  = true ->
  readFileSync H (path_join H [componentPath; (componentName ++ ".component.js")%string])
  = Some jsContent ->
  collectCallbackEvents H componentsPath componentPath componentName = Ok callbackEvents ->
  extends (ownCallbackEvents jsContent) callbackEvents.
Proof.
  intros Hex Hread. unfold collectCallbackEvents. rewrite Hex, Hread. cbn [lift bind].
  apply addAllReferenced_extends.
Qed.

Lemma ownCallbackEvents_NoDup jsContent :
  NoDup (map event_name (ownCallbackEvents jsContent)).
Proof. rewrite ownCallbackEvents_names. apply extractEventCallbacks_NoDup. Qed.

(** An own emitted event is the entry of its name in the merged list. *)
Lemma own_emitted_in_merge H componentsPath componentPath componentName
    jsContent callbackEvents propsEvents e :
  existsSync H (path_join H [componentPath; (componentName ++ ".component.js")%string])
  = true ->
  readFileSync H (path_join H [componentPath; (componentName ++ ".component.js")%string])
  = Some jsContent ->
  collectCallbackEvents H componentsPath componentPath componentName = Ok callbackEvents ->
  In e (ownCallbackEvents jsContent) ->
  In e (mergeEvents propsEvents callbackEvents)
  /\ forall e', In e' (mergeEvents propsEvents callbackEvents) ->
                event_name e' = event_name e -> e' = e.
Proof.
  intros Hex Hread Hcollect He.
  destruct (collectCallbackEvents_extends _ _ _ _ _ _ Hex Hread Hcollect)
    as (added & -> & Hfresh & Hnd).
  specialize (Hnd (ownCallbackEvents_NoDup jsContent)).
  assert (In e (mergeEvents propsEvents (ownCallbackEvents jsContent ++ added))) as Hin.
  { apply mergeEvents_callback; [exact Hnd|]. apply in_or_app. left. exact He. }
  split; [exact Hin|].
  intros e' He' Hname. eapply mergeEvents_unique; eassumption.
Qed.

(** C1 (amended): the merge of the events of referenced components keeps the
    component's own emitted events in place and adds only events whose names
    are not among them; so, whatever the declared events are, the entry of the
    merged list for the name of an own emitted event is that event, with its
    call-site signature. *)
Theorem own_emitted_events_are_kept (H : Host)
    (componentsPath componentPath componentName jsContent : string)
    (callbackEvents : list EventInfo) :
  existsSync H (path_join H [componentPath; (componentName ++ ".component.js")%string])
  = true ->
  readFileSync H (path_join H [componentPath; (componentName ++ ".component.js")%string])
  = Some jsContent ->
  collectCallbackEvents H componentsPath componentPath componentName = Ok callbackEvents ->
  (exists added,
      callbackEvents = ownCallbackEvents jsContent ++ added
      /\ forall a, a ∈ added ->
                   event_name a ∉ map event_name (ownCallbackEvents jsContent))
  /\ forall propsEvents e,
       e ∈ ownCallbackEvents jsContent ->
       e ∈ mergeEvents propsEvents callbackEvents
       /\ forall e', e' ∈ mergeEvents propsEvents callbackEvents ->
                     event_name e' = event_name e -> e' = e.
Proof.
  intros Hex Hread Hcollect. split.
  - destruct (collectCallbackEvents_extends _ _ _ _ _ _ Hex Hread Hcollect)
      as (added & -> & Hfresh & _).
    exists added. split; [reflexivity|].
    intros a Ha Hin. apply (Hfresh a); apply list_elem_of_In; assumption.
  - intros propsEvents e He. rewrite list_elem_of_In in He.
    destruct (own_emitted_in_merge _ _ _ _ _ _ propsEvents e Hex Hread Hcollect He)
      as [Hin Huniq].
    split; [apply list_elem_of_In, Hin|].
    intros e' He' Hname. apply Huniq; [apply list_elem_of_In, He'|exact Hname].
Qed.

(** C5: the final event list of a generated doc has no two entries with the
    same name, and for every event the component's own behaviour file emits,
    the entry of that name is the emitted event, with type [Function] and the
    call-site signature -- also when a declared event has the same name. *)
Theorem merged_events_are_unique (H : Host) (componentsPath : string)
    (config : GeneratorConfig) (fuel : nat) (componentPath category : string)
    (st st' : State) (doc : ComponentDoc) :
  generateComponentDoc H componentsPath config (S fuel) componentPath category st
  = (Ok (Some doc), st') ->
  NoDup (map event_name (events doc))
  /\ forall jsContent eventName params,
       let jsFile :=
         path_join H [componentPath;
                      (path_basename H componentPath ++ ".component.js")%string] in
       existsSync H jsFile = true ->
       readFileSync H jsFile = Some jsContent ->
       (eventName, params) ∈ extractEventCallbacks jsContent ->
       mkEventInfo eventName "Function" (Some params) ∈ events doc
       /\ forall e, e ∈ events doc -> event_name e = eventName ->
                    e = mkEventInfo eventName "Function" (Some params).
Proof.
  intros Hgen.
  apply generateComponentDoc_inv in Hgen
    as (sources & allProps & ancestor & callbackEvents & childData & st1
        & _ & _ & Hcollect & _ & ->).
  cbn [filterComponentDoc events]. split; [apply mergeEvents_NoDup|].
  intros jsContent eventName params. cbn zeta. intros Hex Hread Hemit.
  destruct (own_emitted_in_merge H componentsPath componentPath
              (path_basename H componentPath) jsContent callbackEvents
              (map declaredEvent (extractEvents allProps))
              (emittedEvent (eventName, params)) Hex Hread Hcollect) as [Hin Huniq].
  { apply in_map, list_elem_of_In, Hemit. }
  split; [apply list_elem_of_In, Hin|].
  intros e He Hname. apply Huniq; [apply list_elem_of_In, He|exact Hname].
Qed.

(* ================================================================== *)
(** * 15. A host given by tables *)
(* ================================================================== *)

Fixpoint assoc {A} (key : string) (table : list (string * A)) : option A :=
  match table with
  | [] => None
  | (k, a) :: rest => if k =? key then Some a else assoc key rest
  end.

Definition present {A} (o : option A) : bool :=
  match o with Some _ => true | None => false end.

(** The files with their contents, the directories with the names they list
    and with their recursive listings, the source maps by payload, and the
    syntax trees by source text. *)
Record Disk := mkDisk {
  files : list (string * string);
  listings : list (string * list string);
  trees : list (string * list Dirent);
  sourceMaps : list (string * SourceMapContent);
  syntaxTrees : list (string * Node);
}.

Definition diskHost (d : Disk) : Host :=
  {| createSourceFile := fun sourceCode =>
       default (mkNode OtherSyntax []) (assoc sourceCode (syntaxTrees d));
     JSON_parse := fun content => assoc content (sourceMaps d);
     existsSync := fun p =>
       present (assoc p (files d)) || present (assoc p (listings d))
       || present (assoc p (trees d));
     readFileSync := fun p => assoc p (files d);
     readdirSync := fun p => assoc p (listings d);
     readdirSync_withFileTypes := fun p => assoc p (trees d);
     path_join := join "/";
     path_basename := fun p => default EmptyString (last (split "/" p));
     path_resolve := fun from to => (from ++ "/" ++ to)%string |}.

Definition noConfig : GeneratorConfig :=
  {| childComponents := ∅;
     excludeProps := [];
     excludeInheritedProps := [];
     excludeMethods := [];
     excludeStyleClasses := [];
     componentOverrides := ∅ |}.

Definition freshState : State := mkState None [].

Definition leaf : Node := mkNode OtherSyntax [].

(** ** A button that declares [onTap] and imports a component that emits it *)

Definition buttonPropsText : string :=
  "export default class WmButtonProps { onTap?: Function; }".

Definition buttonPropsTree : Node :=
  mkNode OtherSyntax
    [ mkNode
        (ClassDeclaration (Some "WmButtonProps") []
           [PropertyDeclaration "onTap" true (Some "Function") None])
        [leaf; leaf; leaf; mkNode OtherSyntax [leaf; leaf; leaf]] ].

Definition buttonBehaviourText : string :=
  "import { Tappable } from '@wavemaker/app-rn-runtime/core/tappable.component';".

Definition tappableBehaviourText : string :=
  "this.invokeEventCallback('onTap', [e, this]);".

Definition buttonDisk (behaviour : string) : Disk :=
  {| files :=
       [ ("lib/components/basic/button/button.props.js.map", "payload of button.props.js.map");
         ("lib/components/basic/button/button.component.js", behaviour);
         ("lib/core/tappable.component.js", tappableBehaviourText) ];
     listings :=
       [ ("lib/components/basic/button",
          ["button.component.js"; "button.props.js.map"]) ];
     trees := [];
     sourceMaps :=
       [ ("payload of button.props.js.map",
          mkSourceMap ["button.props.ts"] (Some [buttonPropsText])) ];
     syntaxTrees := [ (buttonPropsText, buttonPropsTree) ] |}.

(** C1, counterexample: the button declares [onTap] as a [Function] property
    (locally resolved signature [()]) and emits nothing itself; the imported
    component emits [onTap], and its entry replaces the declared one. *)
Lemma declared_event_is_replaced :
  exists doc st,
    generateComponentDoc (diskHost (buttonDisk buttonBehaviourText)) "lib" noConfig 1
      "lib/components/basic/button" "basic" freshState
    = (Ok (Some doc), st)
    /\ props doc = [mkPropInfo "onTap" "Function" None true false None]
    /\ map declaredEvent (extractEvents (props doc))
       = [mkEventInfo "onTap" "Function" (Some "()")]
    /\ extractEventCallbacks buttonBehaviourText = []
    /\ events doc = [mkEventInfo "onTap" "Function" (Some "(e, this)")].
Proof.
  eexists. eexists. split; [vm_compute; reflexivity|].
  repeat split; vm_compute; reflexivity.
Qed.

(** The same button when its own behaviour file also emits [onTap]. *)
Definition emittingButtonText : string :=
  "import { Tappable } from '@wavemaker/app-rn-runtime/core/tappable.component'; this.invokeEventCallback('onTap', [e]);".

Lemma own_emitted_events_are_kept_witness :
  (exists added,
      [mkEventInfo "onTap" "Function" (Some "(e)")]
      = ownCallbackEvents emittingButtonText ++ added
      /\ forall a, a ∈ added ->
                   event_name a ∉ map event_name (ownCallbackEvents emittingButtonText))
  /\ forall propsEvents e,
       e ∈ ownCallbackEvents emittingButtonText ->
       e ∈ mergeEvents propsEvents [mkEventInfo "onTap" "Function" (Some "(e)")]
       /\ forall e',
            e' ∈ mergeEvents propsEvents [mkEventInfo "onTap" "Function" (Some "(e)")] ->
            event_name e' = event_name e -> e' = e.
Proof.
  apply (own_emitted_events_are_kept (diskHost (buttonDisk emittingButtonText))
           "lib" "lib/components/basic/button" "button" emittingButtonText
           [mkEventInfo "onTap" "Function" (Some "(e)")]);
    vm_compute; reflexivity.
Defined.

Lemma merged_events_are_unique_witness :
  exists doc,
    NoDup (map event_name (events doc))
    /\ forall jsContent eventName params,
         let H := diskHost (buttonDisk emittingButtonText) in
         let jsFile :=
           path_join H ["lib/components/basic/button";
                        (path_basename H "lib/components/basic/button"
                         ++ ".component.js")%string] in
         existsSync H jsFile = true ->
         readFileSync H jsFile = Some jsContent ->
         (eventName, params) ∈ extractEventCallbacks jsContent ->
         mkEventInfo eventName "Function" (Some params) ∈ events doc
         /\ forall e, e ∈ events doc -> event_name e = eventName ->
                      e = mkEventInfo eventName "Function" (Some params).
Proof.
  eexists.
  eapply (merged_events_are_unique (diskHost (buttonDisk emittingButtonText))
            "lib" noConfig 0 "lib/components/basic/button" "basic" freshState).
  vm_compute. reflexivity.
Defined.

(* ================================================================== *)
(** * 16. Style classes *)
(* ================================================================== *)

Lemma visitStyles_preorder node :
  forall st, visitStyles node st = fold_left styleStep (preorder node) st.
Proof.
  induction node as [syntax childNodes IH] using Node_forall_ind; intros st.
  cbn [visitStyles preorder fold_left].
  generalize (styleStep st syntax). clear st.
  induction IH as [|child rest Hchild _ IHrest]; intros st.
  - reflexivity.
  - cbn [fold_left map concat]. rewrite fold_left_app, Hchild. apply IHrest.
Qed.

(** The nodes at which [visit] of [extractStyleClasses] can change its
    variables: a variable statement that initializes [DEFAULT_CLASS] with a
    string literal, and a call of [addStyle] whose first argument is a string
    literal or a binary expression. *)
Definition definesDefault (declaration : VariableDeclaration) : bool :=
  match var_name declaration, var_initializer declaration with
  | Some name, Some (StringLiteral _) => name =? "DEFAULT_CLASS"
  | _, _ => false
  end.

Definition altersStyles (syntax : Syntax) : bool :=
  match syntax with
  | VariableStatement declarations => existsb definesDefault declarations
  | CallExpression expression (StringLiteral _ :: _) => isAddStyleCall expression
  | CallExpression expression (BinaryExpression _ :: _) => isAddStyleCall expression
  | _ => false
  end.

Lemma declarations_inert declarations :
  existsb definesDefault declarations = false ->
  forall defaultClass, fold_left declarationStep declarations defaultClass = defaultClass.
Proof.
  induction declarations as [|d declarations IH]; intros Hd defaultClass.
  - reflexivity.
  - cbn [existsb] in Hd. apply orb_false_elim in Hd as [Hd Hrest].
    cbn [fold_left]. rewrite (IH Hrest).
    unfold declarationStep, definesDefault in *.
    destruct (var_name d) as [name|]; [|reflexivity].
    destruct (var_initializer d) as [[]|]; try reflexivity.
    rewrite Hd. reflexivity.
Qed.

Lemma styleStep_inert st syntax :
  altersStyles syntax = false -> styleStep st syntax = st.
Proof.
  destruct st as [d classes].
  destruct syntax as [| | |declarations|expression arguments|];
    cbn [altersStyles styleStep]; intros Hs; try reflexivity.
  - cbn [defaultClass styleClasses]. rewrite declarations_inert by exact Hs. reflexivity.
  - destruct arguments as [|[] rest]; try reflexivity;
      destruct (isAddStyleCall expression); try reflexivity; discriminate.
Qed.

Lemma styleSteps_filter nodes :
  forall st,
    fold_left styleStep nodes st
    = fold_left styleStep (List.filter altersStyles nodes) st.
Proof.
  induction nodes as [|syntax nodes IH]; intros st; cbn [fold_left List.filter].
  - reflexivity.
  - destruct (altersStyles syntax) eqn:E; cbn [fold_left].
    + apply IH.
    + rewrite (styleStep_inert _ _ E). apply IH.
Qed.

(** The syntax tree of

    [export const DEFAULT_CLASS = 'app-button';]
    [BASE_THEME.registerStyle((themeVariables, addStyle) => {]
    [  addStyle(DEFAULT_CLASS, '', defaultStyles);]
    [  addStyle(DEFAULT_CLASS + '-disabled', '', {});]
    [});] *)
Definition buttonStylesTree : Node :=
  mkNode OtherSyntax
    [ mkNode
        (VariableStatement
           [mkVariable (Some "DEFAULT_CLASS") (Some (StringLiteral "app-button"))])
        [leaf; mkNode OtherSyntax [mkNode OtherSyntax [leaf; leaf]]];
      mkNode OtherSyntax
        [ mkNode
            (CallExpression (PropertyAccessExpression "registerStyle") [OtherExpression])
            [ mkNode OtherSyntax [leaf; leaf];
              mkNode OtherSyntax
                [ mkNode OtherSyntax [leaf];
                  mkNode OtherSyntax [leaf];
                  leaf;
                  mkNode OtherSyntax
                    [ mkNode OtherSyntax
                        [ mkNode
                            (CallExpression (Identifier "addStyle")
                               [Identifier "DEFAULT_CLASS"; StringLiteral "";
                                Identifier "defaultStyles"])
                            [leaf; leaf; leaf; leaf] ];
                      mkNode OtherSyntax
                        [ mkNode
                            (CallExpression (Identifier "addStyle")
                               [BinaryExpression "DEFAULT_CLASS + '-disabled'";
                                StringLiteral ""; OtherExpression])
                            [leaf; mkNode OtherSyntax [leaf; leaf; leaf]; leaf; leaf] ] ] ] ] ] ].

(* ================================================================== *)
(** * 17. Ancestor resolution *)
(* ================================================================== *)

Section Resolution.

Variable H : Host.
Variable componentsPath : string.

(** [getInheritedProps] with the monad unfolded. *)
Lemma getInheritedProps_unfold fuel' baseClassName st :
  getInheritedProps H componentsPath (S fuel') baseClassName st =
  if baseClassName =? "BaseProps" then
    match getBaseProps H componentsPath st with
    | (Ok baseProps, st') => (Ok (map (tagInherited "BaseProps") baseProps), st')
    | (Throw, st') => (Throw, st')
    | (Diverge, st') => (Diverge, st')
    end
  else
    match findParentPropsFile H componentsPath baseClassName with
    | None =>
        (Ok [], mkState (basePropsCache st)
                  (warnings st ++ [("Could not find props file for parent class: "
                                    ++ baseClassName)%string]))
    | Some parentPropsPath =>
        match whenTruthy (extractSourceContent H parentPropsPath 0) with
        | Some source =>
            match extractProps H source with
            | Ok (Some info) =>
                let own := map (tagInherited baseClassName) (pr_props info) in
                match whenTruthy (pr_baseClass info) with
                | Some grandparent =>
                    match getInheritedProps H componentsPath fuel' grandparent st with
                    | (Ok more, st') => (Ok (own ++ more), st')
                    | (Throw, st') => (Ok [], st')
                    | (Diverge, st') => (Diverge, st')
                    end
                | None => (Ok own, st)
                end
            | Ok None => (Ok [], st)
            | Throw => (Ok [], st)
            | Diverge => (Diverge, st)
            end
        | None => (Ok [], st)
        end
    end.
Proof.
  cbn [getInheritedProps].
  destruct (baseClassName =? "BaseProps"); [reflexivity|].
  destruct (findParentPropsFile H componentsPath baseClassName) as [path|];
    [|reflexivity].
  unfold catchG, bindG, liftG, ret.
  destruct (whenTruthy (extractSourceContent H path 0)) as [source|]; [|reflexivity].
  destruct (extractProps H source) as [[info|]| |]; try reflexivity.
  destruct (whenTruthy (pr_baseClass info)) as [grandparent|]; [|reflexivity].
  destruct (getInheritedProps H componentsPath fuel' grandparent st) as [[more| |] st'];
    reflexivity.
Qed.

Lemma getBaseProps_Ok st : exists baseProps, fst (getBaseProps H componentsPath st) = Ok baseProps.
Proof.
  unfold getBaseProps. destruct (basePropsCache st); [eexists; reflexivity|].
  destruct (locateBaseProps H componentsPath) as [[bp|]| |]; eexists; reflexivity.
Qed.

(** Ancestor resolution does not throw. *)
Lemma getInheritedProps_no_throw fuel :
  forall baseClassName st,
    fst (getInheritedProps H componentsPath fuel baseClassName st) <> Throw.
Proof.
  induction fuel as [|fuel' IH]; intros baseClassName st; [discriminate|].
  rewrite getInheritedProps_unfold.
  destruct (baseClassName =? "BaseProps").
  { destruct (getBaseProps_Ok st) as [bp Hbp].
    destruct (getBaseProps H componentsPath st) as [[?| |] ?]; cbn in *; congruence. }
  destruct (findParentPropsFile H componentsPath baseClassName) as [path|];
    [|discriminate].
  destruct (whenTruthy (extractSourceContent H path 0)) as [source|]; [|discriminate].
  destruct (extractProps H source) as [[info|]| |]; try discriminate.
  cbn zeta.
  destruct (whenTruthy (pr_baseClass info)) as [grandparent|]; [|discriminate].
  specialize (IH grandparent st).
  destruct (getInheritedProps H componentsPath fuel' grandparent st) as [[more| |] st'];
    cbn in *; congruence.
Qed.

(** How a call may change the cache: not at all, or from empty to the located
    root properties. *)
Definition settles (st st' : State) : Prop :=
  basePropsCache st' = basePropsCache st
  \/ (basePropsCache st = None
      /\ exists baseProps,
           locateBaseProps H componentsPath = Ok (Some baseProps)
           /\ basePropsCache st' = Some baseProps).

Lemma getBaseProps_settles st :
  settles st (snd (getBaseProps H componentsPath st)).
Proof.
  unfold getBaseProps, settles. destruct (basePropsCache st) eqn:Hc.
  - left. cbn. exact Hc.
  - destruct (locateBaseProps H componentsPath) as [[bp|]| |]; cbn;
      [right; split; [reflexivity|]; exists bp; split; reflexivity| | |];
      left; exact Hc.
Qed.





End Resolution.

(** ** Resolution on a call stack with a bound *)

Section BoundedStack.

Variable H : Host.
Variable componentsPath : string.












End BoundedStack.

(** ** A chain that leads back to itself *)







Lemma tagInherited_tagged ancestor (props : list PropInfo) :
  Forall (fun p => inherited p = true /\ inheritedFrom p = Some ancestor)
    (map (tagInherited ancestor) props).
Proof. apply Forall_forall. intros p Hp. apply list_elem_of_In, in_map_iff in Hp as (q & <- & _). split; reflexivity. Qed.

Lemma getInheritedProps_tagged H componentsPath fuel :
  forall baseClassName st props st',
    getInheritedProps H componentsPath fuel baseClassName st = (Ok props, st') ->
    Forall (fun p => inherited p = true /\ is_Some (inheritedFrom p)) props.
Proof.
  assert (forall ancestor (props : list PropInfo),
             Forall (fun p => inherited p = true /\ is_Some (inheritedFrom p))
               (map (tagInherited ancestor) props)) as Htag.
  { intros ancestor props. eapply Forall_impl; [apply tagInherited_tagged|].
    intros p [Hi Hf]. split; [exact Hi|]. rewrite Hf. eexists. reflexivity. }
  induction fuel as [|fuel' IH]; intros baseClassName st props st'; [discriminate|].
  rewrite getInheritedProps_unfold.
  destruct (baseClassName =? "BaseProps").
  { destruct (getBaseProps H componentsPath st) as [[?| |] ?]; intros E;
      try discriminate. injection E as <- <-. apply Htag. }
  destruct (findParentPropsFile H componentsPath baseClassName) as [path|].
  2:{ intros E. injection E as <- <-. constructor. }
  destruct (whenTruthy (extractSourceContent H path 0)) as [source|].
  2:{ intros E. injection E as <- <-. constructor. }
  destruct (extractProps H source) as [[info|]| |]; try discriminate;
    try (intros E; injection E as <- <-; apply Forall_nil; exact I).
  cbn zeta.
  destruct (whenTruthy (pr_baseClass info)) as [grandparent|].
  2:{ intros E. injection E as <- <-. apply Htag. }
  specialize (IH grandparent st).
  destruct (getInheritedProps H componentsPath fuel' grandparent st) as [[more| |] st1];
    intros E; try discriminate; injection E as <- <-.
  - apply Forall_app. split; [apply Htag|]. eapply IH. reflexivity.
  - apply Forall_nil. exact I.
Qed.

(** ** A two-level chain: [BaseInputProps] extends [BaseProps] *)

Definition baseInputText : string :=
  "export class BaseInputProps extends BaseProps { value: any; }".

Definition baseInputTree : Node :=
  mkNode OtherSyntax
    [ mkNode
        (ClassDeclaration (Some "BaseInputProps")
           [mkHeritage ExtendsKeyword ["BaseProps"]]
           [PropertyDeclaration "value" false (Some "any") None])
        [leaf; leaf; mkNode OtherSyntax [mkNode OtherSyntax [leaf]];
         mkNode OtherSyntax [leaf; leaf]] ].

Definition basePropsText : string :=
  "export class BaseProps { id?: string = null as any; }".

Definition basePropsTree : Node :=
  mkNode OtherSyntax
    [ mkNode
        (ClassDeclaration (Some "BaseProps") []
           [PropertyDeclaration "id" true (Some "string") (Some "null as any")])
        [leaf; leaf; mkNode OtherSyntax [leaf; leaf; leaf; mkNode OtherSyntax [leaf; leaf]]] ].

Definition inputDisk : Disk :=
  {| files :=
       [ ("lib/components/input/baseinput/baseinput.props.js.map",
          "payload of baseinput.props.js.map");
         ("lib/core/base.component.js.map", "payload of base.component.js.map") ];
     listings := [];
     trees :=
       [ ("lib/components",
          [ DirEntry "basic" [DirEntry "button" [FileEntry "button.props.js.map"]];
            DirEntry "input"
              [ DirEntry "baseinput"
                  [ FileEntry "baseinput.component.js.map";
                    FileEntry "baseinput.props.js.map" ] ] ]) ];
     sourceMaps :=
       [ ("payload of baseinput.props.js.map",
          mkSourceMap ["baseinput.props.ts"] (Some [baseInputText]));
         ("payload of base.component.js.map",
          mkSourceMap ["base.component.ts"] (Some [basePropsText])) ];
     syntaxTrees :=
       [ (baseInputText, baseInputTree); (basePropsText, basePropsTree) ] |}.

(** C4, counterexample: resolving [BaseInputProps] returns its own
    property tagged with [BaseInputProps], followed by the root's property,
    which is tagged with [BaseProps] and not with the name that was asked. *)
Lemma grandparent_props_keep_their_ancestor :
  fst (getInheritedProps (diskHost inputDisk) "lib" 2 "BaseInputProps" freshState)
  = Ok [ mkPropInfo "value" "any" None false true (Some "BaseInputProps");
         mkPropInfo "id" "string" (Some "null") true true (Some "BaseProps") ]
  /\ Some "BaseProps" <> Some "BaseInputProps".
Proof. split; [vm_compute; reflexivity|discriminate]. Qed.

(** C4 (amended): every descriptor returned by ancestor resolution is tagged
    as inherited and carries the name of an ancestor; the descriptors of the
    root carry [BaseProps]; the descriptors extracted from the artifact found
    for the requested name carry that name and come first, and when that
    artifact declares a further ancestor the list resolved for that ancestor
    (tagged by its own resolution) is appended. *)
Theorem inherited_props_are_tagged (H : Host) (componentsPath : string)
    (fuel : nat) (ancestorName : string) (st st' : State) (props : list PropInfo) :
  getInheritedProps H componentsPath fuel ancestorName st = (Ok props, st') ->
  Forall (fun p => inherited p = true /\ is_Some (inheritedFrom p)) props
  /\ (ancestorName = "BaseProps" ->
      Forall (fun p => inheritedFrom p = Some "BaseProps") props)
  /\ forall parentPropsPath source info,
       ancestorName <> "BaseProps" ->
       findParentPropsFile H componentsPath ancestorName = Some parentPropsPath ->
       whenTruthy (extractSourceContent H parentPropsPath 0) = Some source ->
       extractProps H source = Ok (Some info) ->
       match whenTruthy (pr_baseClass info) with
       | Some grandparent =>
           exists fuel' more,
             fuel = S fuel'
             /\ getInheritedProps H componentsPath fuel' grandparent st = (Ok more, st')
             /\ props = map (tagInherited ancestorName) (pr_props info) ++ more
       | None => props = map (tagInherited ancestorName) (pr_props info)
       end.
Proof.
  intros Hres. split; [eapply getInheritedProps_tagged, Hres|]. split.
  - intros ->. destruct fuel as [|fuel']; [discriminate|].
    rewrite getInheritedProps_unfold in Hres. cbn [String.eqb Ascii.eqb Bool.eqb] in Hres.
    destruct (getBaseProps H componentsPath st) as [[?| |] ?]; try discriminate.
    injection Hres as <- <-.
    eapply Forall_impl; [apply tagInherited_tagged|]. intros p [_ Hf]. exact Hf.
  - intros path source info Hname Hfind Hsource Hextract.
    destruct fuel as [|fuel']; [discriminate|].
    rewrite getInheritedProps_unfold in Hres.
    destruct (String.eqb_spec ancestorName "BaseProps") as [|_]; [contradiction|].
    rewrite Hfind, Hsource, Hextract in Hres. cbn zeta in Hres.
    destruct (whenTruthy (pr_baseClass info)) as [grandparent|].
    + pose proof (getInheritedProps_no_throw H componentsPath fuel' grandparent st) as Hnt.
      destruct (getInheritedProps H componentsPath fuel' grandparent st)
        as [[more| |] st1] eqn:Hrec; try discriminate;
        [|contradiction Hnt; reflexivity].
      injection Hres as <- <-. exists fuel', more. repeat split. exact Hrec.
    + injection Hres as <- <-. reflexivity.
Qed.

Lemma inherited_props_are_tagged_witness :
  let H := diskHost inputDisk in
  let props := [ mkPropInfo "value" "any" None false true (Some "BaseInputProps");
                 mkPropInfo "id" "string" (Some "null") true true (Some "BaseProps") ] in
  let st' := mkState
               (Some [mkPropInfo "id" "string" (Some "null") true false None]) [] in
  Forall (fun p => inherited p = true /\ is_Some (inheritedFrom p)) props
  /\ ("BaseInputProps" = "BaseProps" ->
      Forall (fun p => inheritedFrom p = Some "BaseProps") props)
  /\ forall parentPropsPath source info,
       "BaseInputProps" <> "BaseProps" ->
       findParentPropsFile H "lib" "BaseInputProps" = Some parentPropsPath ->
       whenTruthy (extractSourceContent H parentPropsPath 0) = Some source ->
       extractProps H source = Ok (Some info) ->
       match whenTruthy (pr_baseClass info) with
       | Some grandparent =>
           exists fuel' more,
             2 = S fuel'
             /\ getInheritedProps H "lib" fuel' grandparent freshState = (Ok more, st')
             /\ props = map (tagInherited "BaseInputProps") (pr_props info) ++ more
       | None => props = map (tagInherited "BaseInputProps") (pr_props info)
       end.
Proof.
  cbn zeta.
  apply (inherited_props_are_tagged (diskHost inputDisk) "lib" 2 "BaseInputProps"
           freshState).
  vm_compute. reflexivity.
Defined.


(* ================================================================== *)
(** * 18. Unresolved ancestors and missing sources *)
(* ================================================================== *)

(** Induction on directory listings. *)
Section DirentInduction.
Variable P : Dirent -> Prop.
Hypothesis file_case : forall name, P (FileEntry name).
Hypothesis dir_case : forall name entries, Forall P entries -> P (DirEntry name entries).
Hypothesis closed_case : forall name, P (ClosedDirEntry name).
Hypothesis other_case : forall name, P (OtherEntry name).

Fixpoint Dirent_forall_ind (entry : Dirent) : P entry :=
  match entry with
  | FileEntry name => file_case name
  | DirEntry name entries =>
      dir_case name entries
        ((fix all (es : list Dirent) : Forall P es :=
            match es with
            | [] => List.Forall_nil P
            | e :: rest => List.Forall_cons P e rest (Dirent_forall_ind e) (all rest)
            end) entries)
  | ClosedDirEntry name => closed_case name
  | OtherEntry name => other_case name
  end.
End DirentInduction.

(** A file named [targetFileName] is the entry or lies below it. *)
Fixpoint fileBelow (targetFileName : string) (entry : Dirent) : bool :=
  match entry with
  | FileEntry name => name =? targetFileName
  | DirEntry _ entries => existsb (fileBelow targetFileName) entries
  | ClosedDirEntry _ => false
  | OtherEntry _ => false
  end.

(** No candidate stem of the ancestor names a properties artifact in the
    listing of any source root that exists and can be listed. *)
Definition noArtifact (H : Host) (componentsPath className : string) : bool :=
  forallb
    (fun stem =>
       forallb
         (fun root =>
            negb (existsSync H root)
            || match readdirSync_withFileTypes H root with
               | Some entries =>
                   negb (existsb (fileBelow (stem ++ ".props.js.map")%string) entries)
               | None => true
               end)
         (searchPaths H componentsPath))
    (candidates className).

Lemma first_some_none {A B} (f : A -> option B) (xs : list A) :
  Forall (fun x => f x = None) xs -> first_some f xs = None.
Proof.
  induction 1 as [|x xs Hx _ IH]; cbn [first_some]; [reflexivity|].
  rewrite Hx. exact IH.
Qed.

Lemma searchEntry_none H targetFileName entry :
  fileBelow targetFileName entry = false ->
  forall dir, searchEntry H targetFileName dir entry = None.
Proof.
  induction entry as [name|name entries IH|name|name] using Dirent_forall_ind;
    cbn [fileBelow searchEntry]; intros Hb dir; try reflexivity.
  - rewrite Hb. reflexivity.
  - rewrite first_some_none; [reflexivity|].
    apply Forall_forall. intros e He.
    rewrite Forall_forall in IH. apply IH; [exact He|].
    destruct (fileBelow targetFileName e) eqn:E; [|reflexivity].
    assert (existsb (fileBelow targetFileName) entries = true) as Ht; [|congruence].
    apply existsb_exists. exists e. split; [apply list_elem_of_In, He|exact E].
Qed.

Lemma searchForFile_none H dir targetFileName entries :
  readdirSync_withFileTypes H dir = Some entries ->
  existsb (fileBelow targetFileName) entries = false ->
  searchForFile H dir targetFileName = None.
Proof.
  intros Hdir Hb. unfold searchForFile. rewrite Hdir.
  apply first_some_none, Forall_forall. intros e He.
  apply searchEntry_none.
  destruct (fileBelow targetFileName e) eqn:E; [|reflexivity].
  assert (existsb (fileBelow targetFileName) entries = true) as Ht; [|congruence].
  apply existsb_exists. exists e. split; [apply list_elem_of_In, He|exact E].
Qed.

Lemma findParentPropsFile_none H componentsPath className :
  noArtifact H componentsPath className = true ->
  findParentPropsFile H componentsPath className = None.
Proof.
  unfold noArtifact, findParentPropsFile. intros Hno.
  rewrite forallb_forall in Hno.
  apply first_some_none, Forall_forall. intros stem Hstem.
  apply list_elem_of_In, Hno in Hstem. rewrite forallb_forall in Hstem.
  apply first_some_none, Forall_forall. intros root Hroot.
  apply list_elem_of_In, Hstem in Hroot.
  destruct (existsSync H root); [|reflexivity]. cbn [negb orb] in Hroot.
  destruct (readdirSync_withFileTypes H root) as [entries|] eqn:Hdir.
  - rewrite (searchForFile_none _ _ _ entries Hdir); [reflexivity|].
    apply negb_true_iff, Hroot.
  - unfold searchForFile. rewrite Hdir. reflexivity.
Qed.

Lemma whenTruthy_truthyOpt o s : whenTruthy o = Some s -> truthyOpt o = true.
Proof.
  destruct o as [x|]; cbn [whenTruthy truthyOpt]; [|discriminate].
  unfold nonEmpty. destruct (truthy x); [reflexivity|discriminate].
Qed.

(** C8: for an ancestor other than the root whose candidate stems name no
    properties artifact in any source root, resolution records the warning and
    returns the empty list; and the generation of a component that declares
    such an ancestor goes on to its events, styles and children and returns a
    doc with the component's own properties. *)
Theorem unresolved_ancestor_is_not_fatal (H : Host) (componentsPath : string)
    (config : GeneratorConfig) (fuel : nat) (ancestorName : string) (st : State) :
  ancestorName <> "BaseProps" ->
  noArtifact H componentsPath ancestorName = true ->
  let warned :=
    mkState (basePropsCache st)
      (warnings st ++ [("Could not find props file for parent class: "
                        ++ ancestorName)%string]) in
  getInheritedProps H componentsPath (S fuel) ancestorName st = (Ok [], warned)
  /\ forall componentPath category sources source info callbackEvents childData st',
       extractComponentSources H componentPath = Ok sources ->
       whenTruthy (src_props sources) = Some source ->
       extractProps H source = Ok (Some info) ->
       whenTruthy (pr_baseClass info) = Some ancestorName ->
       collectCallbackEvents H componentsPath componentPath
         (path_basename H componentPath) = Ok callbackEvents ->
       foldG (addChild H (generateComponentDoc H componentsPath config fuel)
                componentPath (path_basename H componentPath) category)
         (default [] (childComponents config !! path_basename H componentPath)) []
         warned
       = (Ok childData, st') ->
       generateComponentDoc H componentsPath config (S fuel) componentPath category st
       = (Ok (Some (filterComponentDoc config
                      {| componentName := path_basename H componentPath;
                         componentPath := componentPath;
                         category := category;
                         props := pr_props info;
                         methods := parseMethods H (src_component sources);
                         events := mergeEvents
                                     (map declaredEvent (extractEvents (pr_props info)))
                                     callbackEvents;
                         styles := parseStyles H (src_styles sources);
                         baseClass := pr_baseClass info;
                         children := childData |})), st').
Proof.
  intros Hname Hno warned.
  assert (getInheritedProps H componentsPath (S fuel) ancestorName st = (Ok [], warned))
    as Hres.
  { rewrite getInheritedProps_unfold.
    destruct (String.eqb_spec ancestorName "BaseProps") as [|_]; [contradiction|].
    rewrite (findParentPropsFile_none _ _ _ Hno). reflexivity. }
  split; [exact Hres|].
  intros componentPath category sources source info callbackEvents childData st'
    Hsources Hsource Hextract Hancestor Hcollect Hchildren.
  cbn [generateComponentDoc]. unfold catchG, bindG at 1, liftG at 1.
  rewrite Hsources, (whenTruthy_truthyOpt _ _ Hsource). cbn [negb andb].
  unfold bindG at 1, parseProps. rewrite Hsource.
  unfold bindG at 1, liftG at 1. rewrite Hextract, Hancestor.
  unfold bindG at 1. rewrite Hres. unfold ret at 1. rewrite app_nil_r.
  unfold bindG at 1, liftG at 1. rewrite Hcollect.
  unfold bindG at 1. rewrite Hchildren. reflexivity.
Qed.

(** A component whose properties class extends [WmMissingProps], for which the
    library holds no artifact. *)
Definition orphanPropsText : string :=
  "export default class WmOrphanProps extends WmMissingProps { caption: string; }".

Definition orphanPropsTree : Node :=
  mkNode OtherSyntax
    [ mkNode
        (ClassDeclaration (Some "WmOrphanProps")
           [mkHeritage ExtendsKeyword ["WmMissingProps"]]
           [PropertyDeclaration "caption" false (Some "string") None])
        [leaf; leaf; leaf; mkNode OtherSyntax [mkNode OtherSyntax [leaf]];
         mkNode OtherSyntax [leaf; leaf]] ].

Definition orphanDisk : Disk :=
  {| files :=
       [ ("lib/components/basic/orphan/orphan.props.js.map",
          "payload of orphan.props.js.map") ];
     listings :=
       [ ("lib/components/basic/orphan", ["orphan.props.js.map"]) ];
     trees :=
       [ ("lib/components",
          [ DirEntry "basic" [DirEntry "orphan" [FileEntry "orphan.props.js.map"]] ]);
         ("lib/core", [FileEntry "base.component.js.map"]) ];
     sourceMaps :=
       [ ("payload of orphan.props.js.map",
          mkSourceMap ["orphan.props.ts"] (Some [orphanPropsText])) ];
     syntaxTrees := [ (orphanPropsText, orphanPropsTree) ] |}.

Lemma unresolved_ancestor_is_not_fatal_witness :
  let H := diskHost orphanDisk in
  let warned :=
    mkState None ["Could not find props file for parent class: WmMissingProps"] in
  getInheritedProps H "lib" 1 "WmMissingProps" freshState = (Ok [], warned)
  /\ generateComponentDoc H "lib" noConfig 1 "lib/components/basic/orphan" "basic"
       freshState
     = (Ok (Some {| componentName := "orphan";
                    componentPath := "lib/components/basic/orphan";
                    category := "basic";
                    props := [mkPropInfo "caption" "string" None false false None];
                    methods := [];
                    events := [];
                    styles := [];
                    baseClass := Some "WmMissingProps";
                    children := [] |}), warned).
Proof.
  cbn zeta.
  destruct (unresolved_ancestor_is_not_fatal (diskHost orphanDisk) "lib" noConfig 0
              "WmMissingProps" freshState) as [Hres Hgen].
  - discriminate.
  - vm_compute. reflexivity.
  - split; [exact Hres|].
    apply (Hgen "lib/components/basic/orphan" "basic"
             (mkSources (Some orphanPropsText) None None) orphanPropsText
             (mkPropsResult [mkPropInfo "caption" "string" None false false None]
                "WmOrphanProps" (Some "WmMissingProps"))
             [] []);
      vm_compute; reflexivity.
Defined.

(** Neither representation of the component directory yields a truthy
    properties or behaviour source; this includes the directory that cannot be
    listed. *)
Definition noSources (outcome : Res ComponentSources) : bool :=
  match outcome with
  | Ok sources =>
      negb (truthyOpt (src_props sources)) && negb (truthyOpt (src_component sources))
  | Throw => true
  | Diverge => false
  end.

(** [generateComponentDoc] never throws: its body is inside [try]. *)
Lemma generateComponentDoc_no_throw H componentsPath config fuel componentPath
    category st :
  fst (generateComponentDoc H componentsPath config fuel componentPath category st)
  <> Throw.
Proof.
  destruct fuel as [|fuel']; [discriminate|].
  cbn [generateComponentDoc]. unfold catchG.
  match goal with |- context [match ?body st with _ => _ end] => destruct (body st) as [[?| |] ?] end;
    discriminate.
Qed.

Lemma find_none {A} (role : A -> bool) (xs : list A) :
  Forall (fun x => role x = false) xs -> List.find role xs = None.
Proof.
  induction 1 as [|x xs Hx _ IH]; cbn [List.find]; [reflexivity|].
  rewrite Hx. exact IH.
Qed.

(** A directory without an index file and without properties and behaviour
    source maps yields no source. *)
Lemma no_marker_files H componentDir fileNames :
  readdirSync H componentDir = Some fileNames ->
  Forall (fun f => isIndexFile f = false
                   /\ endsWith f ".props.js.map" = false
                   /\ endsWith f ".component.js.map" = false) fileNames ->
  noSources (extractComponentSources H componentDir) = true.
Proof.
  intros Hdir Hall. unfold extractComponentSources. rewrite Hdir. cbn [lift bind].
  rewrite find_none by (eapply Forall_impl; [exact Hall|]; intros f (Hf & _); exact Hf).
  unfold extractRole.
  rewrite (find_none (fun f => endsWith f ".props.js.map"))
    by (eapply Forall_impl; [exact Hall|]; intros f (_ & Hf & _); exact Hf).
  rewrite (find_none (fun f => endsWith f ".component.js.map"))
    by (eapply Forall_impl; [exact Hall|]; intros f (_ & _ & Hf); exact Hf).
  reflexivity.
Qed.

(** C7: when the component directory yields neither a properties source nor
    a behaviour source, generating its documentation returns [null]; when the
    directory could be listed the warning is recorded; the cache is untouched;
    and no call of [generateComponentDoc] throws. *)
Theorem missing_sources_yield_null (H : Host) (componentsPath : string)
    (config : GeneratorConfig) (fuel : nat) (componentPath category : string)
    (st : State) :
  noSources (extractComponentSources H componentPath) = true ->
  generateComponentDoc H componentsPath config (S fuel) componentPath category st
  = (Ok None,
     match extractComponentSources H componentPath with
     | Ok _ =>
         mkState (basePropsCache st)
           (warnings st ++ [("No source files found for " ++ componentPath)%string])
     | _ => st
     end)
  /\ forall fuel' otherPath otherCategory st',
       fst (generateComponentDoc H componentsPath config fuel' otherPath otherCategory st')
       <> Throw.
Proof.
  intros Hno. split; [|intros; apply generateComponentDoc_no_throw].
  cbn [generateComponentDoc]. unfold catchG, bindG at 1, liftG at 1.
  destruct (extractComponentSources H componentPath) as [sources| |];
    cbn [noSources] in Hno; [|reflexivity|discriminate].
  rewrite Hno. reflexivity.
Qed.

(** A component directory that holds only a style map. *)
Definition stylesOnlyDisk : Disk :=
  {| files := [ ("lib/components/basic/empty/empty.styles.js.map", "payload") ];
     listings := [ ("lib/components/basic/empty", ["empty.styles.js.map"]) ];
     trees := [];
     sourceMaps := [ ("payload", mkSourceMap ["empty.styles.ts"] (Some ["export {}"])) ];
     syntaxTrees := [] |}.

Lemma missing_sources_yield_null_witness :
  let H := diskHost stylesOnlyDisk in
  generateComponentDoc H "lib" noConfig 1 "lib/components/basic/empty" "basic" freshState
  = (Ok None,
     match extractComponentSources H "lib/components/basic/empty" with
     | Ok _ =>
         mkState None
           ([] ++ [("No source files found for " ++ "lib/components/basic/empty")%string])
     | _ => freshState
     end)
  /\ forall fuel' otherPath otherCategory st',
       fst (generateComponentDoc H "lib" noConfig fuel' otherPath otherCategory st')
       <> Throw.
Proof.
  cbn zeta.
  apply (missing_sources_yield_null (diskHost stylesOnlyDisk) "lib" noConfig 0
           "lib/components/basic/empty" "basic" freshState).
  vm_compute. reflexivity.
Defined.

(* ================================================================== *)
(** * 19. Own and inherited properties in a generated doc *)
(* ================================================================== *)

(** A descriptor as [extractProps] builds it. *)
Definition isOwn (p : PropInfo) : Prop :=
  inherited p = false /\ inheritedFrom p = None.

(** A descriptor as [getInheritedProps] tags it. *)
Definition isInherited (p : PropInfo) : Prop :=
  inherited p = true /\ is_Some (inheritedFrom p).

Lemma declaredProps_own syntax r :
  declaredProps syntax = Ok (Some r) ->
  endsWith (pr_className r) "Props" = true /\ Forall isOwn (pr_props r).
Proof.
  assert (forall members, Forall isOwn (omap classMemberProp members)) as Hclass.
  { intros members. apply Forall_forall. intros p Hp.
    apply list_elem_of_omap in Hp as (m & _ & Hm).
    destruct m; try discriminate. injection Hm as <-. split; reflexivity. }
  assert (forall members, Forall isOwn (omap typeMemberProp members)) as Htype.
  { intros members. apply Forall_forall. intros p Hp.
    apply list_elem_of_omap in Hp as (m & _ & Hm).
    destruct m; try discriminate. injection Hm as <-. split; reflexivity. }
  destruct syntax as [[className|] clauses members|interfaceName clauses members
                     |typeName [members|]|declarations|expression arguments|];
    cbn [declaredProps]; try discriminate.
  - destruct (endsWith className "Props") eqn:E; [|discriminate].
    destruct (getBaseClass clauses); cbn [bind]; try discriminate.
    intros Hr. injection Hr as <-. split; [exact E|apply Hclass].
  - destruct (endsWith interfaceName "Props") eqn:E; [|discriminate].
    destruct (getBaseClass clauses); cbn [bind]; try discriminate.
    intros Hr. injection Hr as <-. split; [exact E|apply Htype].
  - destruct (endsWith typeName "Props") eqn:E; [|discriminate].
    intros Hr. injection Hr as <-. split; [exact E|apply Htype].
Qed.

Lemma propsSteps_found nodes :
  forall result r,
    foldM propsStep nodes result = Ok (Some r) ->
    result = Some r \/ exists syntax, In syntax nodes /\ declaredProps syntax = Ok (Some r).
Proof.
  induction nodes as [|syntax nodes IH]; intros result r; cbn [foldM].
  - intros E. injection E as ->. left. reflexivity.
  - unfold propsStep at 1.
    destruct (declaredProps syntax) as [found| |] eqn:Hs; cbn [bind]; try discriminate.
    intros Hrest. apply IH in Hrest as [Hhere|(s & Hin & Hd)].
    + destruct found as [f|]; cbn [assign] in Hhere.
      * right. exists syntax. split; [left; reflexivity|]. congruence.
      * left. exact Hhere.
    + right. exists s. split; [right; exact Hin|exact Hd].
Qed.

Lemma extractProps_own H sourceCode r :
  extractProps H sourceCode = Ok (Some r) ->
  endsWith (pr_className r) "Props" = true /\ Forall isOwn (pr_props r).
Proof.
  unfold extractProps. rewrite visitProps_preorder. intros Hr.
  apply propsSteps_found in Hr as [Hr|(s & _ & Hs)]; [discriminate|].
  eapply declaredProps_own, Hs.
Qed.

Lemma parseProps_layout H componentsPath fuel propsSource st allProps ancestor st' :
  parseProps H componentsPath fuel propsSource st = (Ok (allProps, ancestor), st') ->
  exists own more,
    allProps = own ++ more /\ Forall isOwn own /\ Forall isInherited more.
Proof.
  unfold parseProps.
  destruct (whenTruthy propsSource) as [source|].
  2:{ intros E. injection E as <- <- <-. exists [], []. repeat split; constructor. }
  intros Hp. apply bindG_Ok in Hp as (propsInfo & st0 & Hextract & Hp).
  unfold liftG in Hextract. injection Hextract as Hextract <-.
  destruct propsInfo as [info|].
  2:{ injection Hp as <- <- <-. exists [], []. repeat split; constructor. }
  destruct (extractProps_own _ _ _ Hextract) as [_ Hown].
  destruct (whenTruthy (pr_baseClass info)) as [name|].
  - apply bindG_Ok in Hp as (more & st1 & Hres & Hp).
    injection Hp as <- <- <-. exists (pr_props info), more.
    repeat split; [exact Hown|]. eapply getInheritedProps_tagged, Hres.
  - injection Hp as <- <- <-. exists (pr_props info), [].
    rewrite app_nil_r. repeat split; [exact Hown|constructor].
Qed.

Lemma Forall_filter_bool {A} (P : A -> Prop) (keep : A -> bool) (xs : list A) :
  Forall P xs -> Forall P (List.filter keep xs).
Proof.
  induction 1 as [|x xs Hx _ IH]; cbn [List.filter]; [constructor|].
  destruct (keep x); [constructor; assumption|exact IH].
Qed.

(** X1: In a generated doc the component's own properties come first and the
    inherited ones after them; an own property is not marked inherited and
    names no ancestor, an inherited one is marked and names its ancestor. *)
Theorem own_props_precede_inherited (H : Host) (componentsPath : string)
    (config : GeneratorConfig) (fuel : nat) (componentPath category : string)
    (st st' : State) (doc : ComponentDoc) :
  generateComponentDoc H componentsPath config (S fuel) componentPath category st
  = (Ok (Some doc), st') ->
  exists own more,
    props doc = own ++ more /\ Forall isOwn own /\ Forall isInherited more.
Proof.
  intros Hgen.
  apply generateComponentDoc_inv in Hgen
    as (sources & allProps & ancestor & callbackEvents & childData & st1
        & _ & Hprops & _ & _ & ->).
  apply parseProps_layout in Hprops as (own & more & -> & Hown & Hmore).
  cbn [filterComponentDoc props]. rewrite List.filter_app.
  eexists. eexists. split; [reflexivity|].
  split; apply Forall_filter_bool; assumption.
Qed.

(* ================================================================== *)
(** * 20. The style list *)
(* ================================================================== *)

Lemma pushNew_NoDup cls classes : NoDup classes -> NoDup (pushNew cls classes).
Proof.
  intros Hnd. unfold pushNew. destruct (mem cls classes) eqn:E; [exact Hnd|].
  apply mem_false in E. apply NoDup_app. repeat split.
  - exact Hnd.
  - intros x Hx Hc. apply list_elem_of_singleton in Hc as ->.
    apply E, list_elem_of_In, Hx.
  - apply NoDup_singleton.
Qed.

Lemma styleStep_NoDup st syntax :
  NoDup (styleClasses st) -> NoDup (styleClasses (styleStep st syntax)).
Proof.
  intros Hnd.
  destruct syntax as [| | |declarations|expression [|firstArg rest]|];
    cbn [styleStep styleClasses]; try exact Hnd.
  destruct (isAddStyleCall expression); [|exact Hnd].
  destruct firstArg; cbn [styleClasses]; try exact Hnd; apply pushNew_NoDup, Hnd.
Qed.

Lemma styleSteps_NoDup nodes :
  forall st, NoDup (styleClasses st) -> NoDup (styleClasses (fold_left styleStep nodes st)).
Proof.
  induction nodes as [|syntax nodes IH]; intros st Hnd; cbn [fold_left]; [exact Hnd|].
  apply IH, styleStep_NoDup, Hnd.
Qed.

Lemma extractStyleClasses_NoDup H sourceCode styleInfo :
  extractStyleClasses H sourceCode = Some styleInfo -> NoDup (styleClasses styleInfo).
Proof.
  unfold extractStyleClasses, stylesOfTree. rewrite visitStyles_preorder.
  destruct (_ || _); [|discriminate]. intros E. injection E as <-.
  apply styleSteps_NoDup. constructor.
Qed.

Lemma NoDup_filter_bool {A} (keep : A -> bool) (xs : list A) :
  NoDup xs -> NoDup (List.filter keep xs).
Proof.
  induction 1 as [|x xs Hx _ IH]; cbn [List.filter]; [constructor|].
  destruct (keep x); [|exact IH].
  constructor; [|exact IH]. intros Hin. apply Hx.
  apply elem_of_filter_bool in Hin as [Hin _]. exact Hin.
Qed.

Lemma NoDup_map_filter {A B} (f : A -> B) (keep : A -> bool) (xs : list A) :
  NoDup (map f xs) -> NoDup (map f (List.filter keep xs)).
Proof.
  induction xs as [|x xs IH]; cbn [map List.filter]; [constructor|].
  intros Hnd. apply NoDup_cons in Hnd as [Hx Hnd].
  destruct (keep x); [|apply IH, Hnd].
  cbn [map]. constructor; [|apply IH, Hnd].
  intros Hin. apply Hx. apply list_elem_of_In in Hin. apply list_elem_of_In.
  apply in_map_iff in Hin as (y & <- & Hy). apply in_map.
  apply filter_In in Hy as [Hy _]. exact Hy.
Qed.

(** The style list built from a style source, before filtering: empty, or the
    default class, described, followed by the other classes, undescribed;
    no class name occurs twice. *)
Lemma parseStyles_shape H styles :
  NoDup (map className (parseStyles H styles))
  /\ Forall (fun s => style_description s = None) (tail (parseStyles H styles)).
Proof.
  unfold parseStyles.
  destruct (whenTruthy styles) as [source|]; [|split; constructor].
  destruct (extractStyleClasses H source) as [styleInfo|] eqn:E; [|split; constructor].
  apply extractStyleClasses_NoDup in E.
  unfold styleList. cbn [map tail className]. split.
  - rewrite map_map. cbn [className]. rewrite map_id. constructor.
    + intros Hin. apply elem_of_filter_bool in Hin as [_ Hne].
      rewrite String.eqb_refl in Hne. discriminate.
    + apply NoDup_filter_bool, E.
  - apply Forall_forall. intros s Hs.
    apply list_elem_of_In, in_map_iff in Hs as (cls & <- & _). reflexivity.
Qed.

(** X2: In a generated doc no style class is listed twice, and only the first
    entry of the list can carry a description (the default class, when the
    configuration keeps it). *)
Theorem style_classes_are_distinct (H : Host) (componentsPath : string)
    (config : GeneratorConfig) (fuel : nat) (componentPath category : string)
    (st st' : State) (doc : ComponentDoc) :
  generateComponentDoc H componentsPath config (S fuel) componentPath category st
  = (Ok (Some doc), st') ->
  NoDup (map className (styles doc))
  /\ Forall (fun s => style_description s = None) (tail (styles doc)).
Proof.
  intros Hgen.
  apply generateComponentDoc_inv in Hgen
    as (sources & allProps & ancestor & callbackEvents & childData & st1
        & _ & _ & _ & _ & ->).
  cbn [filterComponentDoc styles].
  destruct (parseStyles_shape H (src_styles sources)) as [Hnd Htail].
  split; [apply NoDup_map_filter, Hnd|].
  destruct (parseStyles H (src_styles sources)) as [|first rest];
    cbn [List.filter tail] in *; [constructor|].
  destruct (keepStyle _ _ first); cbn [tail].
  - apply Forall_filter_bool, Htail.
  - remember (List.filter _ rest) as kept eqn:Hkept.
    assert (Forall (fun s => style_description s = None) kept) as Hall.
    { subst kept. apply Forall_filter_bool, Htail. }
    destruct Hall as [|x xs _ Hxs]; [constructor|exact Hxs].
Qed.

(* ================================================================== *)
(** * 21. Resolution of a concatenation with the default class *)
(* ================================================================== *)

(** Every character of the text satisfies [f]. *)
Fixpoint all_chars (f : ascii -> bool) (s : string) : bool :=
  match s with
  | EmptyString => true
  | String c s' => f c && all_chars f s'
  end.

(** The characters of the text that satisfy [f]. *)
Fixpoint keep_chars (f : ascii -> bool) (s : string) : string :=
  match s with
  | EmptyString => EmptyString
  | String c s' => if f c then String c (keep_chars f s') else keep_chars f s'
  end.

Lemma all_chars_app f x y :
  all_chars f (x ++ y)%string = all_chars f x && all_chars f y.
Proof.
  induction x as [|c x IH]; [reflexivity|].
  rewrite append_cons. cbn [all_chars]. rewrite IH, andb_assoc. reflexivity.
Qed.

Lemma all_chars_impl (f g : ascii -> bool) s :
  (forall c, f c = true -> g c = true) -> all_chars f s = true -> all_chars g s = true.
Proof.
  intros Hfg. induction s as [|c s IH]; cbn [all_chars]; [reflexivity|].
  intros Hs. apply andb_true_iff in Hs as [Hc Hs]. rewrite (Hfg _ Hc), (IH Hs). reflexivity.
Qed.

Lemma all_chars_and (f g : ascii -> bool) s :
  all_chars (fun c => f c && g c) s = true ->
  all_chars f s = true /\ all_chars g s = true.
Proof.
  induction s as [|c s IH]; cbn [all_chars]; [split; reflexivity|].
  intros Hs. apply andb_true_iff in Hs as [Hc Hs]. apply andb_true_iff in Hc as [-> ->].
  destruct (IH Hs) as [-> ->]. split; reflexivity.
Qed.

Lemma keep_chars_app f x y :
  keep_chars f (x ++ y)%string = (keep_chars f x ++ keep_chars f y)%string.
Proof.
  induction x as [|c x IH]; [reflexivity|].
  rewrite append_cons. cbn [keep_chars]. rewrite IH. destruct (f c); reflexivity.
Qed.

Lemma keep_chars_all f s : all_chars f s = true -> keep_chars f s = s.
Proof.
  induction s as [|c s IH]; cbn [all_chars keep_chars]; [reflexivity|].
  intros Hs. apply andb_true_iff in Hs as [-> Hs]. rewrite (IH Hs). reflexivity.
Qed.

Lemma keep_chars_none f s :
  all_chars (fun c => negb (f c)) s = true -> keep_chars f s = EmptyString.
Proof.
  induction s as [|c s IH]; cbn [all_chars keep_chars]; [reflexivity|].
  intros Hs. apply andb_true_iff in Hs as [Hc Hs]. apply negb_true_iff in Hc.
  rewrite Hc. exact (IH Hs).
Qed.

(** A character of a class name: no white space, no quote, no plus sign. *)
Definition solid (c : ascii) : bool :=
  negb (is_space c) && negb (is_quote c) && negb (Ascii.eqb c "+").

Lemma solid_facts c :
  solid c = true -> is_space c = false /\ is_quote c = false /\ Ascii.eqb c "+" = false.
Proof.
  unfold solid. intros Hc.
  apply andb_true_iff in Hc as [Hc Hp]. apply andb_true_iff in Hc as [Hs Hq].
  repeat split; apply negb_true_iff; assumption.
Qed.

Lemma space_facts c :
  is_space c = true ->
  is_quote c = false /\ Ascii.eqb "D" c = false.
Proof.
  unfold is_space, in_range, code. intros Hc. split.
  - unfold is_quote, dquote.
    destruct (Ascii.eqb_spec c "'") as [->|_]; [discriminate Hc|].
    destruct (Ascii.eqb_spec c (ascii_of_nat 34)) as [->|_]; [discriminate Hc|].
    destruct (Ascii.eqb_spec c "`") as [->|_]; [discriminate Hc|]. reflexivity.
  - destruct (Ascii.eqb_spec "D" c) as [<-|_]; [discriminate Hc|]. reflexivity.
Qed.

Lemma quote_facts c : is_quote c = true -> Ascii.eqb "D" c = false.
Proof.
  unfold is_quote, dquote. intros Hc.
  destruct (Ascii.eqb_spec "D" c) as [<-|_]; [discriminate Hc|]. reflexivity.
Qed.

(** A replacement without a dollar sign is inserted as it is. *)
Lemma substitute_plain matched before after replacement :
  all_chars (fun c => negb (Ascii.eqb c "$")) replacement = true ->
  substitute matched before after replacement = replacement.
Proof.
  induction replacement as [|c r IH]; [reflexivity|].
  cbn [all_chars]. intros Hr. apply andb_true_iff in Hr as [Hc Hr].
  apply negb_true_iff in Hc.
  destruct (Ascii.eqb_spec c "$") as [->|Hne]; [discriminate Hc|].
  assert (substitute matched before after (String c r)
          = String c (substitute matched before after r)) as ->.
  { destruct c as [[] [] [] [] [] [] [] []]; try reflexivity. contradiction Hne. reflexivity. }
  rewrite (IH Hr). reflexivity.
Qed.

(** Where the first letter of the constant's name does not occur, nothing is
    replaced. *)
Lemma replaceLiteral_absent replacement s :
  all_chars (fun c => negb (Ascii.eqb "D" c)) s = true ->
  forall fuel before,
    replaceLiteral_from "DEFAULT_CLASS" replacement fuel before s = s.
Proof.
  induction s as [|c s IH]; intros Hs fuel before.
  - destruct fuel; reflexivity.
  - cbn [all_chars] in Hs. apply andb_true_iff in Hs as [Hc Hs].
    apply negb_true_iff in Hc.
    destruct fuel as [|fuel']; [reflexivity|].
    cbn [replaceLiteral_from strip_prefix]. rewrite Hc. rewrite (IH Hs). reflexivity.
Qed.

Lemma remove_quotes s :
  forall fuel, (String.length s <= fuel)%nat ->
    replaceAll_from quotePattern fuel s = keep_chars (fun c => negb (is_quote c)) s.
Proof.
  induction s as [|c s IH]; intros fuel Hfuel.
  - destruct fuel; reflexivity.
  - cbn [String.length] in Hfuel. destruct fuel as [|fuel']; [lia|].
    cbn [replaceAll_from quotePattern keep_chars].
    destruct (is_quote c); cbn [negb].
    + rewrite append_nil. apply IH. lia.
    + rewrite IH by lia. reflexivity.
Qed.

Lemma trimStart_spaces ws rest :
  all_chars is_space ws = true -> trimStart (ws ++ rest)%string = trimStart rest.
Proof.
  induction ws as [|c ws IH]; [reflexivity|].
  cbn [all_chars]. intros Hs. apply andb_true_iff in Hs as [Hc Hs].
  rewrite append_cons. cbn [trimStart]. rewrite Hc. apply IH, Hs.
Qed.

Lemma trimStart_solid s : all_chars solid s = true -> trimStart s = s.
Proof.
  destruct s as [|c s]; [reflexivity|]. cbn [all_chars trimStart]. intros Hs.
  apply andb_true_iff in Hs as [Hc _]. apply solid_facts in Hc as (-> & _). reflexivity.
Qed.

(** Solid text is copied by the removal of plus signs. *)
Lemma remove_plus_solid x rest :
  all_chars solid x = true ->
  forall fuel,
    replaceAll_from plusPattern (String.length x + fuel) (x ++ rest)%string
    = (x ++ replaceAll_from plusPattern fuel rest)%string.
Proof.
  induction x as [|c x IH]; intros Hx fuel; [reflexivity|].
  cbn [all_chars] in Hx. apply andb_true_iff in Hx as [Hc Hx].
  apply solid_facts in Hc as (Hs & _ & Hp).
  rewrite !append_cons. cbn [String.length Nat.add replaceAll_from].
  assert (plusPattern (String c (x ++ rest)%string) = None) as ->.
  { unfold plusPattern. cbn [trimStart]. rewrite Hs.
    destruct (Ascii.eqb_spec c "+") as [->|Hne]; [discriminate Hp|].
    destruct c as [[] [] [] [] [] [] [] []]; try reflexivity. contradiction Hne. reflexivity. }
  rewrite (IH Hx). reflexivity.
Qed.

Lemma append_empty x : (x ++ "")%string = x.
Proof. induction x as [|c x IH]; [reflexivity|]. rewrite append_cons, IH. reflexivity. Qed.

Lemma remove_plus_end x :
  all_chars solid x = true ->
  forall fuel, (String.length x <= fuel)%nat -> replaceAll_from plusPattern fuel x = x.
Proof.
  intros Hx fuel Hfuel.
  pose proof (remove_plus_solid x "" Hx (fuel - String.length x)) as E.
  rewrite append_empty in E.
  replace (String.length x + (fuel - String.length x))%nat with fuel in E by lia.
  rewrite E. destruct (fuel - String.length x)%nat; cbn [replaceAll_from plusPattern trimStart];
    apply append_empty.
Qed.

Lemma append_assoc x y z : ((x ++ y) ++ z)%string = (x ++ (y ++ z))%string.
Proof.
  induction x as [|c x IH]; [reflexivity|]. rewrite !append_cons, IH. reflexivity.
Qed.

Lemma strip_prefix_app p s : strip_prefix p (p ++ s)%string = Some s.
Proof.
  induction p as [|c p IH]; [reflexivity|].
  rewrite append_cons. cbn [strip_prefix]. rewrite Ascii.eqb_refl. exact IH.
Qed.

(** The three replacements on a concatenation of the constant with a quoted
    suffix. *)
Lemma resolveClassName_concatenation (defaultClass ws1 ws2 suffix : string) (q : ascii) :
  truthy defaultClass = true ->
  all_chars (fun c => solid c && negb (Ascii.eqb c "$")) defaultClass = true ->
  all_chars (fun c => solid c && negb (Ascii.eqb "D" c)) suffix = true ->
  all_chars is_space ws1 = true ->
  all_chars is_space ws2 = true ->
  is_quote q = true ->
  resolveClassName defaultClass
    ("DEFAULT_CLASS" ++ ws1 ++ "+" ++ ws2 ++ String q (suffix ++ String q ""))%string
  = (defaultClass ++ suffix)%string.
Proof.
  intros Hd Hdc Hsc H1 H2 Hq.
  apply all_chars_and in Hdc as [Hdsolid Hdollar].
  apply all_chars_and in Hsc as [Hssolid HnoD].
  assert (forall s, all_chars solid s = true ->
                    keep_chars (fun c => negb (is_quote c)) s = s) as Hkeep.
  { intros s Hs. apply keep_chars_all. eapply all_chars_impl; [|exact Hs].
    intros c Hc. apply solid_facts in Hc as (_ & -> & _). reflexivity. }
  assert (forall ws, all_chars is_space ws = true ->
                     keep_chars (fun c => negb (is_quote c)) ws = ws) as Hkeepws.
  { intros ws Hws. apply keep_chars_all. eapply all_chars_impl; [|exact Hws].
    intros c Hc. apply space_facts in Hc as (-> & _). reflexivity. }
  assert (all_chars (fun c => negb (Ascii.eqb "D" c))
            (ws1 ++ "+" ++ ws2 ++ String q (suffix ++ String q ""))%string = true) as HD.
  { set (noD := fun c => negb (Ascii.eqb "D" c)) in *.
    assert (forall ws, all_chars is_space ws = true -> all_chars noD ws = true) as Hws.
    { intros ws Hws. eapply all_chars_impl; [|exact Hws].
      intros c Hc. apply space_facts in Hc as (_ & Hc). unfold noD. rewrite Hc. reflexivity. }
    rewrite all_chars_app, (Hws _ H1). rewrite append_cons, append_nil.
    cbn [all_chars andb]. change (noD "+"%char) with true. cbn [andb].
    rewrite all_chars_app, (Hws _ H2). cbn [all_chars andb].
    rewrite all_chars_app, HnoD. cbn [all_chars andb].
    unfold noD. rewrite (quote_facts q Hq). reflexivity. }
  unfold resolveClassName.
  assert (includes ("DEFAULT_CLASS" ++ ws1 ++ "+" ++ ws2
                    ++ String q (suffix ++ String q ""))%string "DEFAULT_CLASS" = true)
    as ->.
  { reflexivity. }
  rewrite Hd. cbn [andb].
  (* the substitution of the constant *)
  assert (replaceLiteral "DEFAULT_CLASS" ("'" ++ defaultClass ++ "'")%string
            ("DEFAULT_CLASS" ++ ws1 ++ "+" ++ ws2 ++ String q (suffix ++ String q ""))%string
          = ("'" ++ defaultClass ++ "'" ++ ws1 ++ "+" ++ ws2
             ++ String q (suffix ++ String q ""))%string) as ->.
  { unfold replaceLiteral. cbn [replaceLiteral_from].
    rewrite strip_prefix_app.
    rewrite substitute_plain.
    2:{ rewrite !append_cons, append_nil. cbn [all_chars]. rewrite all_chars_app.
        cbn [all_chars]. rewrite andb_true_r. cbn [andb Ascii.eqb Bool.eqb negb].
        exact Hdollar. }
    rewrite replaceLiteral_absent; [|exact HD].
    rewrite !append_assoc. reflexivity. }
  (* the removal of the quotes *)
  unfold replaceAll at 2. rewrite remove_quotes by lia.
  assert (keep_chars (fun c => negb (is_quote c))
            ("'" ++ defaultClass ++ "'" ++ ws1 ++ "+" ++ ws2
             ++ String q (suffix ++ String q ""))%string
          = (defaultClass ++ ws1 ++ "+" ++ ws2 ++ suffix)%string) as ->.
  { rewrite append_cons, append_nil. cbn [keep_chars]. 
    change (negb (is_quote "'")) with false. cbv iota.
    rewrite keep_chars_app, (Hkeep _ Hdsolid). f_equal.
    rewrite append_cons, append_nil. cbn [keep_chars].
    change (negb (is_quote "'")) with false. cbv iota.
    rewrite keep_chars_app, (Hkeepws _ H1). f_equal.
    rewrite append_cons, append_nil. cbn [keep_chars].
    change (negb (is_quote "+")) with true. cbv iota. f_equal.
    rewrite keep_chars_app, (Hkeepws _ H2). f_equal.
    cbn [keep_chars]. rewrite Hq. cbn [negb].
    rewrite keep_chars_app, (Hkeep _ Hssolid). cbn [keep_chars]. rewrite Hq.
    apply append_empty. }
  (* the removal of the plus sign *)
  unfold replaceAll. rewrite !length_append. cbn [String.length].
  match goal with
  | |- replaceAll_from _ ?fuel _ = _ =>
      replace fuel
        with (String.length defaultClass
              + S (String.length ws1 + S (String.length ws2 + String.length suffix)))%nat
        by lia
  end.
  rewrite (remove_plus_solid _ _ Hdsolid). f_equal.
  cbn [replaceAll_from]. unfold plusPattern at 1.
  rewrite (trimStart_spaces ws1) by exact H1.
  rewrite append_cons, append_nil. cbn [trimStart].
  change (is_space "+") with false. cbv iota.
  rewrite (trimStart_spaces ws2) by exact H2.
  rewrite (trimStart_solid _ Hssolid), append_nil.
  apply remove_plus_end; [exact Hssolid|lia].
Qed.

(** X3: For text in the 7-bit range, a concatenation of the default-class
    constant with a quoted suffix is resolved to the default class followed by
    the suffix, whatever the spacing around the plus sign and whichever quote
    is used, when the default class is not empty, has no dollar sign, and both
    are solid text (the suffix without the letter D). *)
Theorem concatenation_is_resolved (defaultClass ws1 ws2 suffix : string) (q : ascii) :
  all_chars seven_bit defaultClass = true ->
  all_chars seven_bit suffix = true ->
  truthy defaultClass = true ->
  all_chars (fun c => solid c && negb (Ascii.eqb c "$")) defaultClass = true ->
  all_chars (fun c => solid c && negb (Ascii.eqb "D" c)) suffix = true ->
  all_chars is_space ws1 = true ->
  all_chars is_space ws2 = true ->
  is_quote q = true ->
  resolveClassName defaultClass
    ("DEFAULT_CLASS" ++ ws1 ++ "+" ++ ws2 ++ String q (suffix ++ String q ""))%string
  = (defaultClass ++ suffix)%string.
Proof. intros _ _. apply resolveClassName_concatenation. Qed.

Lemma concatenation_is_resolved_witness :
  resolveClassName "app-anchor"
    ("DEFAULT_CLASS" ++ "" ++ "+" ++ "  " ++ String dquote ("-rtl" ++ String dquote ""))%string
  = "app-anchor-rtl".
Proof.
  apply (concatenation_is_resolved "app-anchor" "" "  " "-rtl" dquote); reflexivity.
Defined.

(** ** The default class and the registration call, in either order *)

Lemma styleSteps_inert nodes :
  Forall (fun syntax => altersStyles syntax = false) nodes ->
  forall st, fold_left styleStep nodes st = st.
Proof.
  induction 1 as [|syntax nodes Hs _ IH]; intros st; cbn [fold_left]; [reflexivity|].
  rewrite (styleStep_inert _ _ Hs). apply IH.
Qed.

(** The syntax tree of

    [export const registerStyles = (addStyle) => {]
    [  addStyle(DEFAULT_CLASS + '-disabled', '', {});]
    [};]
    [export const DEFAULT_CLASS = 'app-button';] *)
Definition callFirstTree : Node :=
  mkNode OtherSyntax
    [ mkNode OtherSyntax
        [ mkNode OtherSyntax
            [ mkNode OtherSyntax [leaf; leaf];
              mkNode OtherSyntax
                [ mkNode
                    (CallExpression (Identifier "addStyle")
                       [BinaryExpression "DEFAULT_CLASS + '-disabled'";
                        StringLiteral ""; OtherExpression])
                    [leaf; mkNode OtherSyntax [leaf; leaf; leaf]; leaf; leaf] ] ] ];
      mkNode
        (VariableStatement
           [mkVariable (Some "DEFAULT_CLASS") (Some (StringLiteral "app-button"))])
        [leaf; mkNode OtherSyntax [mkNode OtherSyntax [leaf; leaf]]] ].

(** C6, counterexample: the style source defines the default-class constant
    with value [app-button] and holds one registration call on the
    concatenation of the constant with ['-disabled'], but the call comes
    before the definition in document order: the visitor reaches the call
    with an empty default class and records the text of the argument as it
    is, so the style list is not [app-button], [app-button-disabled]. *)
Lemma call_before_definition_is_not_resolved :
  extractStyleClasses (parserHost (fun _ => callFirstTree)) "button.styles.ts"
  = Some (mkStyleState "app-button" ["DEFAULT_CLASS + '-disabled'"])
  /\ parseStyles (parserHost (fun _ => callFirstTree)) (Some "button.styles.ts")
     = [ mkStyleInfo "app-button" (Some "Default style class");
         mkStyleInfo "DEFAULT_CLASS + '-disabled'" None ]
  /\ parseStyles (parserHost (fun _ => callFirstTree)) (Some "button.styles.ts")
     <> [ mkStyleInfo "app-button" (Some "Default style class");
          mkStyleInfo "app-button-disabled" None ].
Proof. split; [reflexivity|split; [reflexivity|discriminate]]. Qed.

(** C6 (amended): in a style source where the definition of the
    default-class constant with value [app-button] comes, in document order,
    before the one registration call, whose first argument is the
    concatenation of the constant with the literal [-disabled] (whatever the
    spacing around the plus sign and the quotes of the literal), and where no
    other node defines the constant or registers a class, style extraction
    yields the default class [app-button] and the class [app-button-disabled],
    and the style list of the doc is [app-button], marked as the default style
    class, followed by [app-button-disabled]. The statement that defines the
    constant may declare other variables, and the call may be one of
    [addStyle] or of a member of that name, with any further arguments. *)
Theorem default_class_is_resolved (H : Host) (styleSource : string)
    (before between after : list Syntax) (earlier later : list VariableDeclaration)
    (expression : Expression) (otherArguments : list Expression)
    (ws1 ws2 : string) (q : ascii) :
  truthy styleSource = true ->
  isAddStyleCall expression = true ->
  all_chars is_space ws1 = true ->
  all_chars is_space ws2 = true ->
  is_quote q = true ->
  existsb definesDefault later = false ->
  Forall (fun syntax => altersStyles syntax = false) (before ++ between ++ after) ->
  preorder (createSourceFile H styleSource)
  = before
    ++ VariableStatement
         (earlier
          ++ mkVariable (Some "DEFAULT_CLASS") (Some (StringLiteral "app-button"))
          :: later)
    :: between
    ++ CallExpression expression
         (BinaryExpression
            ("DEFAULT_CLASS" ++ ws1 ++ "+" ++ ws2
             ++ String q ("-disabled" ++ String q ""))%string
          :: otherArguments)
    :: after ->
  extractStyleClasses H styleSource
  = Some (mkStyleState "app-button" ["app-button-disabled"])
  /\ parseStyles H (Some styleSource)
     = [ mkStyleInfo "app-button" (Some "Default style class");
         mkStyleInfo "app-button-disabled" None ].
Proof.
  intros Htruthy Hcall Hws1 Hws2 Hq Hlater Hinert Hnodes.
  apply Forall_app in Hinert as [Hbefore Hinert].
  apply Forall_app in Hinert as [Hbetween Hafter].
  assert (extractStyleClasses H styleSource
          = Some (mkStyleState "app-button" ["app-button-disabled"])) as Hextract.
  { unfold extractStyleClasses, stylesOfTree.
    rewrite visitStyles_preorder, Hnodes.
    rewrite fold_left_app, (styleSteps_inert _ Hbefore). cbn [fold_left].
    rewrite fold_left_app, (styleSteps_inert _ Hbetween). cbn [fold_left].
    rewrite (styleSteps_inert _ Hafter).
    cbn [styleStep defaultClass styleClasses]. rewrite Hcall.
    rewrite fold_left_app. cbn [fold_left].
    rewrite (declarations_inert _ Hlater).
    cbn [declarationStep var_name var_initializer String.eqb Ascii.eqb Bool.eqb].
    rewrite (resolveClassName_concatenation "app-button" ws1 ws2 "-disabled" q)
      by (reflexivity || assumption).
    reflexivity. }
  split; [exact Hextract|].
  unfold parseStyles, whenTruthy, nonEmpty. rewrite Htruthy, Hextract. reflexivity.
Qed.

Lemma default_class_is_resolved_witness :
  extractStyleClasses (parserHost (fun _ => buttonStylesTree)) "button.styles.ts"
  = Some (mkStyleState "app-button" ["app-button-disabled"])
  /\ parseStyles (parserHost (fun _ => buttonStylesTree)) (Some "button.styles.ts")
     = [ mkStyleInfo "app-button" (Some "Default style class");
         mkStyleInfo "app-button-disabled" None ].
Proof.
  apply (default_class_is_resolved (parserHost (fun _ => buttonStylesTree))
           "button.styles.ts"
           [OtherSyntax]
           [ OtherSyntax; OtherSyntax; OtherSyntax; OtherSyntax; OtherSyntax; OtherSyntax;
             CallExpression (PropertyAccessExpression "registerStyle") [OtherExpression];
             OtherSyntax; OtherSyntax; OtherSyntax; OtherSyntax; OtherSyntax; OtherSyntax;
             OtherSyntax; OtherSyntax; OtherSyntax; OtherSyntax; OtherSyntax;
             CallExpression (Identifier "addStyle")
               [Identifier "DEFAULT_CLASS"; StringLiteral ""; Identifier "defaultStyles"];
             OtherSyntax; OtherSyntax; OtherSyntax; OtherSyntax; OtherSyntax ]
           [ OtherSyntax; OtherSyntax; OtherSyntax; OtherSyntax; OtherSyntax; OtherSyntax;
             OtherSyntax ]
           [] [] (Identifier "addStyle") [StringLiteral ""; OtherExpression]
           " " " " "'"%char);
    try reflexivity.
  repeat constructor.
Defined.

(* ================================================================== *)
(** * 22. Patterns: signatures, emitted events, imports *)
(* ================================================================== *)

Lemma lazyUntilArrow_params p ws r :
  all_chars (fun c => negb (Ascii.eqb ")" c) && negb (is_line_terminator c)) p = true ->
  all_chars is_space ws = true ->
  lazyUntilArrow (p ++ ")" ++ ws ++ "=>" ++ r)%string = Some (p, r).
Proof.
  intros Hp Hws. induction p as [|c p IH].
  - rewrite append_nil, append_cons, append_nil.
    unfold lazyUntilArrow, closeArrow. cbn [strip_prefix Ascii.eqb Bool.eqb mbind option_bind].
    rewrite (trimStart_spaces ws) by exact Hws. reflexivity.
  - cbn [all_chars] in Hp. apply andb_true_iff in Hp as [Hc Hp].
    apply andb_true_iff in Hc as [Hclose Hline].
    apply negb_true_iff in Hclose, Hline.
    rewrite append_cons. cbn [lazyUntilArrow].
    unfold closeArrow at 1. cbn [strip_prefix mbind option_bind]. rewrite Hclose, Hline.
    rewrite (IH Hp). reflexivity.
Qed.

Lemma strip_prefix_startsWith p s rest :
  strip_prefix p s = Some rest -> startsWith s p = true.
Proof.
  revert s. induction p as [|a p IH]; intros [|b s]; cbn [strip_prefix startsWith];
    try reflexivity; try discriminate.
  destruct (Ascii.eqb a b); [cbn [andb]; apply IH|discriminate].
Qed.

Lemma includes_inv s sub :
  includes s sub = false ->
  startsWith s sub = false
  /\ match s with EmptyString => True | String _ s' => includes s' sub = false end.
Proof.
  destruct s as [|c s]; cbn [includes]; intros Hs.
  - rewrite orb_false_r in Hs. split; [exact Hs|exact I].
  - apply orb_false_elim in Hs. exact Hs.
Qed.

(** A matcher that needs a word which the text does not contain matches
    nowhere. *)
Lemma execAll_absent {A} (re : Matcher A) (word : string) :
  (forall s a rest, re s = Some (a, rest) -> startsWith s word = true) ->
  forall s, includes s word = false -> forall fuel, execAll_from re fuel s = [].
Proof.
  intros Hre. induction s as [|c s IH]; intros Hs fuel;
    destruct fuel as [|fuel']; try reflexivity; cbn [execAll_from];
    apply includes_inv in Hs as [Hstart Hrest].
  - destruct (re "") as [[a rest]|] eqn:E; [|reflexivity].
    apply Hre in E. congruence.
  - destruct (re (String c s)) as [[a rest]|] eqn:E.
    + apply Hre in E. congruence.
    + apply IH, Hrest.
Qed.

Lemma matchFirst_absent {A} (re : Matcher A) (word : string) :
  (forall s a rest, re s = Some (a, rest) -> startsWith s word = true) ->
  forall s, includes s word = false -> matchFirst re s = None.
Proof.
  intros Hre. induction s as [|c s IH]; intros Hs; cbn [matchFirst];
    apply includes_inv in Hs as [Hstart Hrest].
  - destruct (re "") as [[a rest]|] eqn:E; [|reflexivity].
    apply Hre in E. congruence.
  - destruct (re (String c s)) as [[a rest]|] eqn:E.
    + apply Hre in E. congruence.
    + apply IH, Hrest.
Qed.

Lemma execAll_Forall {A} (re : Matcher A) (P : A -> Prop) :
  (forall s a rest, re s = Some (a, rest) -> P a) ->
  forall fuel s, Forall P (execAll_from re fuel s).
Proof.
  intros Hre. induction fuel as [|fuel' IH]; intros s; cbn [execAll_from]; [constructor|].
  destruct (re s) as [[a rest]|] eqn:E.
  - constructor; [eapply Hre, E|apply IH].
  - destruct s; [constructor|apply IH].
Qed.

(** X4: The signature recorded for a declared event: for an arrow type whose
    parameters are text in the 7-bit range without a closing parenthesis or a
    line terminator, it is the parenthesised parameter list; a type without an
    opening parenthesis, other than [Function], is recorded unchanged. *)
Theorem signature_of_declared_type (params ws result eventType : string) :
  (all_chars seven_bit params = true ->
   all_chars (fun c => negb (Ascii.eqb ")" c) && negb (is_line_terminator c)) params
   = true ->
   all_chars is_space ws = true ->
   extractEventParameters ("(" ++ params ++ ")" ++ ws ++ "=>" ++ result)%string
   = ("(" ++ params ++ ")")%string)
  /\ (includes eventType "(" = false ->
      eventType <> "Function" ->
      extractEventParameters eventType = eventType).
Proof.
  split.
  - intros _ Hp Hws. unfold extractEventParameters.
    rewrite append_cons, append_nil.
    cbn [String.eqb Ascii.eqb Bool.eqb matchFirst].
    unfold arrowPattern at 1. cbn [strip_prefix Ascii.eqb Bool.eqb mbind option_bind].
    rewrite (lazyUntilArrow_params _ _ _ Hp Hws). reflexivity.
  - intros Hno Hne. unfold extractEventParameters.
    destruct (String.eqb_spec eventType "Function") as [|_]; [contradiction|].
    rewrite (matchFirst_absent arrowPattern "("); [reflexivity| |exact Hno].
    intros s a rest Hm. unfold arrowPattern in Hm.
    destruct (strip_prefix "(" s) as [s'|] eqn:E; [|discriminate].
    eapply strip_prefix_startsWith, E.
Qed.

Lemma signature_of_declared_type_witness :
  extractEventParameters "(e: Event, widget: any) => void" = "(e: Event, widget: any)"
  /\ extractEventParameters "EventHandler" = "EventHandler".
Proof.
  split.
  - apply (proj1 (signature_of_declared_type "e: Event, widget: any" " " " void"
                    "EventHandler")); reflexivity.
  - apply (proj2 (signature_of_declared_type "e: Event, widget: any" " " " void"
                    "EventHandler")); [reflexivity|discriminate].
Defined.

Lemma span_all f s a b : span f s = (a, b) -> all_chars f a = true.
Proof.
  revert a b. induction s as [|c s IH]; intros a b; cbn [span].
  - intros E. injection E as <- <-. reflexivity.
  - destruct (f c) eqn:Hc.
    + destruct (span f s) as [a' b'] eqn:Hs. intros E. injection E as <- <-.
      cbn [all_chars]. rewrite Hc. exact (IH _ _ eq_refl).
    + intros E. injection E as <- <-. reflexivity.
Qed.

Lemma nonEmpty_Some s t : nonEmpty s = Some t -> t = s /\ truthy s = true.
Proof.
  unfold nonEmpty. destruct (truthy s); [|discriminate].
  intros E. injection E as <-. split; reflexivity.
Qed.

Lemma invokePattern_inv s eventName params rest :
  invokePattern s = Some ((eventName, params), rest) ->
  startsWith s "invokeEventCallback" = true
  /\ truthy eventName = true
  /\ all_chars is_word eventName = true.
Proof.
  unfold invokePattern. intros Hm.
  destruct (strip_prefix "invokeEventCallback" s) as [s1|] eqn:E1; [|discriminate].
  split; [eapply strip_prefix_startsWith, E1|].
  cbn [mbind option_bind] in Hm.
  destruct (strip_prefix "(" (trimStart s1)) as [s2|]; [|discriminate].
  cbn [mbind option_bind] in Hm.
  destruct (quote (trimStart s2)) as [[[] s3]|]; [|discriminate].
  cbn [mbind option_bind] in Hm.
  destruct (span is_word s3) as [name s4] eqn:Hspan.
  destruct (nonEmpty name) as [name'|] eqn:Hname; [|discriminate].
  apply nonEmpty_Some in Hname as [-> Htruthy].
  cbn [mbind option_bind] in Hm.
  destruct (quote s4) as [[[] s5]|]; [|discriminate].
  cbn [mbind option_bind] in Hm.
  destruct (strip_prefix "," (trimStart s5)) as [s6|]; [|discriminate].
  cbn [mbind option_bind] in Hm.
  destruct (strip_prefix "[" (trimStart s6)) as [s7|]; [|discriminate].
  cbn [mbind option_bind] in Hm.
  destruct (span _ s7) as [ps s8].
  destruct (strip_prefix "]" s8) as [s9|]; [|discriminate].
  cbn [mbind option_bind] in Hm.
  destruct (strip_prefix ")" (trimStart s9)) as [s10|]; [|discriminate].
  cbn [mbind option_bind] in Hm. injection Hm as <- _ _.
  split; [exact Htruthy|eapply span_all, Hspan].
Qed.

Lemma signature_parenthesised params :
  startsWith (signature params) "(" = true /\ endsWith (signature params) ")" = true.
Proof.
  unfold signature. destruct (List.filter isParam _) as [|p ps].
  - split; reflexivity.
  - split; [reflexivity|].
    rewrite <- append_assoc. apply endsWith_app.
Qed.

(** What an emitted event looks like: a name that is a non-empty run of word
    characters, and a signature in parentheses. *)
Definition wellFormedEmission (e : string * string) : Prop :=
  truthy (fst e) = true
  /\ all_chars is_word (fst e) = true
  /\ startsWith (snd e) "(" = true
  /\ endsWith (snd e) ")" = true.

Lemma callbackSteps_wellFormed matches :
  Forall (fun m : string * string =>
            truthy (fst m) = true /\ all_chars is_word (fst m) = true) matches ->
  forall events,
    Forall wellFormedEmission events ->
    Forall wellFormedEmission (fold_left callbackStep matches events).
Proof.
  induction 1 as [|[name params] matches [Ht Hw] _ IH]; intros events Hev;
    cbn [fold_left]; [exact Hev|].
  apply IH. unfold callbackStep.
  destruct (mem name (map fst events)); [exact Hev|].
  apply Forall_app. split; [exact Hev|]. constructor; [|constructor].
  destruct (signature_parenthesised (trim params)) as [Hs He].
  repeat split; assumption.
Qed.

(** X5: The emitted events of a text: their names are distinct, each is a
    non-empty run of word characters with a parenthesised signature; and a
    text that does not contain the word [invokeEventCallback] emits none. *)
Theorem emitted_events_are_well_formed (sourceCode : string) :
  NoDup (map fst (extractEventCallbacks sourceCode))
  /\ Forall wellFormedEmission (extractEventCallbacks sourceCode)
  /\ (includes sourceCode "invokeEventCallback" = false ->
      extractEventCallbacks sourceCode = []).
Proof.
  split; [apply extractEventCallbacks_NoDup|]. split.
  - unfold extractEventCallbacks. apply callbackSteps_wellFormed; [|constructor].
    unfold execAll. apply execAll_Forall.
    intros s [name params] rest Hm. apply invokePattern_inv in Hm as (_ & Ht & Hw).
    split; assumption.
  - intros Hno. unfold extractEventCallbacks, execAll.
    rewrite (execAll_absent invokePattern "invokeEventCallback"); [reflexivity| |exact Hno].
    intros s [name params] rest Hm. apply invokePattern_inv in Hm as (Hs & _). exact Hs.
Qed.

Lemma importPattern_inv s relativePath rest :
  importPattern s = Some (relativePath, rest) ->
  startsWith s "from" = true
  /\ (startsWith relativePath "core/" = true
      \/ startsWith relativePath "components/" = true).
Proof.
  unfold importPattern. intros Hm.
  destruct (strip_prefix "from" s) as [s1|] eqn:E1; [|discriminate].
  split; [eapply strip_prefix_startsWith, E1|].
  cbn [mbind option_bind] in Hm.
  destruct (spaces1 s1) as [s2|]; [|discriminate].
  cbn [mbind option_bind] in Hm.
  destruct (quote s2) as [[[] s3]|]; [|discriminate].
  cbn [mbind option_bind] in Hm.
  destruct (strip_prefix "@wavemaker/app-rn-runtime/" s3) as [s4|]; [|discriminate].
  cbn [mbind option_bind] in Hm.
  destruct (internalRoot s4) as [[root s5]|] eqn:Hroot; [|discriminate].
  cbn [mbind option_bind] in Hm.
  destruct (span _ s5) as [tail s6].
  destruct (nonEmpty tail) as [tail'|]; [|discriminate].
  cbn [mbind option_bind] in Hm.
  destruct (quote s6) as [[[] s7]|]; [|discriminate].
  cbn [mbind option_bind] in Hm. injection Hm as <- _.
  unfold internalRoot in Hroot.
  destruct (strip_prefix "core/" s4); [injection Hroot as <- _; left; reflexivity|].
  destruct (strip_prefix "components/" s4); [|discriminate].
  injection Hroot as <- _. right. reflexivity.
Qed.

(** X6: Only imports from the [core] and [components] folders of the runtime
    package are followed: every referenced file is the components path joined
    with such a module path and the extension [.js]; a text without the word
    [from] references nothing. *)
Theorem referenced_components_are_internal (H : Host)
    (componentsPath jsContent : string) :
  Forall (fun fullPath =>
            exists relativePath,
              fullPath = path_join H [componentsPath; (relativePath ++ ".js")%string]
              /\ (startsWith relativePath "core/" = true
                  \/ startsWith relativePath "components/" = true))
    (findReferencedComponents H componentsPath jsContent)
  /\ (includes jsContent "from" = false ->
      findReferencedComponents H componentsPath jsContent = []).
Proof.
  unfold findReferencedComponents, execAll. split.
  - apply Forall_forall. intros p Hp.
    apply list_elem_of_In, in_map_iff in Hp as (rel & <- & Hrel).
    exists rel. split; [reflexivity|].
    pose proof (execAll_Forall importPattern
                  (fun rel => startsWith rel "core/" = true
                              \/ startsWith rel "components/" = true)) as Hall.
    eapply Forall_forall in Hall; [exact Hall| |apply list_elem_of_In, Hrel].
    intros s a rest Hm. apply importPattern_inv in Hm as (_ & Hm). exact Hm.
  - intros Hno.
    rewrite (execAll_absent importPattern "from"); [reflexivity| |exact Hno].
    intros s a rest Hm. apply importPattern_inv in Hm as (Hs & _). exact Hs.
Qed.

(* ================================================================== *)
(** * 23. Candidate stems and the search for an ancestor's artifact *)
(* ================================================================== *)

Lemma unique_spec seen xs :
  NoDup (unique seen xs)
  /\ (forall x, In x (unique seen xs) <-> In x xs /\ ~ In x seen)
  /\ (length (unique seen xs) <= length xs)%nat.
Proof.
  revert seen. induction xs as [|x xs IH]; intros seen; cbn [unique].
  - split; [constructor|]. split; [|reflexivity]. intros y. cbn [In]. tauto.
  - destruct (mem x seen) eqn:E.
    + destruct (IH seen) as (Hnd & Hin & Hlen). split; [exact Hnd|]. split.
      * intros y. rewrite Hin. cbn [In]. apply mem_In in E.
        split; [tauto|]. intros [[<-|Hy] Hs]; [contradiction|tauto].
      * cbn [length]. lia.
    + destruct (IH (x :: seen)) as (Hnd & Hin & Hlen). apply mem_false in E.
      split.
      * constructor; [|exact Hnd]. rewrite list_elem_of_In, Hin. cbn [In]. tauto.
      * split; [|cbn [length]; lia].
        intros y. cbn [In]. rewrite Hin. cbn [In].
        destruct (String.eqb_spec x y) as [<-|Hne]; [tauto|]. tauto.
Qed.

Lemma lower_char_not_upper c : is_upper (lower_char c) = false.
Proof.
  unfold lower_char. destruct (is_upper c) eqn:E; [|exact E].
  unfold is_upper, in_range, code in *.
  apply andb_true_iff in E as [Hlo Hhi].
  apply Nat.leb_le in Hlo, Hhi.
  rewrite nat_ascii_embedding by lia.
  apply andb_false_iff. right. apply Nat.leb_gt. lia.
Qed.

Lemma toLowerCase_no_upper s :
  all_chars (fun c => negb (is_upper c)) (toLowerCase s) = true.
Proof.
  induction s as [|c s IH]; [reflexivity|].
  cbn [toLowerCase all_chars]. rewrite lower_char_not_upper, IH. reflexivity.
Qed.

(** X7: The candidate file stems of an ancestor name: at least one and at most
    four, pairwise distinct, and free of upper-case letters. *)
Theorem candidates_are_lower_case (className : string) :
  NoDup (candidates className)
  /\ (1 <= length (candidates className) <= 4)%nat
  /\ Forall (fun stem => all_chars (fun c => negb (is_upper c)) stem = true)
       (candidates className).
Proof.
  unfold candidates.
  set (baseName := removeSuffix "Component" (removeSuffix "Props" className)).
  set (all := [toLowerCase baseName; toKebab baseName] ++ _).
  destruct (unique_spec [] all) as (Hnd & Hin & Hlen).
  split; [exact Hnd|]. split; [split|].
  - assert (In (toLowerCase baseName) (unique [] all)) as Hfirst.
    { apply Hin. split; [left; reflexivity|intros []]. }
    destruct (unique [] all); [destruct Hfirst|cbn [length]; lia].
  - etransitivity; [exact Hlen|]. subst all.
    destruct (startsWith baseName "Wm"); cbn [app length]; lia.
  - apply Forall_forall. intros stem Hstem.
    apply list_elem_of_In, Hin in Hstem as [Hstem _]. subst all.
    assert (forall s, In stem [toLowerCase s; toKebab s] ->
                      all_chars (fun c => negb (is_upper c)) stem = true) as Hlow.
    { intros s [<-|[<-|[]]]; apply toLowerCase_no_upper. }
    apply in_app_or in Hstem as [Hstem|Hstem]; [eapply Hlow, Hstem|].
    destruct (startsWith baseName "Wm"); [eapply Hlow, Hstem|destruct Hstem].
Qed.

Lemma first_some_Some {A B} (f : A -> option B) (xs : list A) b :
  first_some f xs = Some b -> exists x, In x xs /\ f x = Some b.
Proof.
  induction xs as [|x xs IH]; cbn [first_some]; [discriminate|].
  destruct (f x) as [b'|] eqn:E.
  - intros Hb. injection Hb as <-. exists x. split; [left; reflexivity|exact E].
  - intros Hb. destruct (IH Hb) as (y & Hy & Hfy). exists y. split; [right; exact Hy|exact Hfy].
Qed.

Lemma first_some_is_Some {A B} (f : A -> option B) (xs : list A) x :
  In x xs -> is_Some (f x) -> is_Some (first_some f xs).
Proof.
  induction xs as [|y xs IH]; intros Hin Hx; [destruct Hin|].
  cbn [first_some]. destruct (f y) as [b|] eqn:E; [eexists; reflexivity|].
  destruct Hin as [->|Hin]; [rewrite E in Hx; destruct Hx; discriminate|].
  apply IH; assumption.
Qed.

Lemma searchEntry_truthy H targetFileName entry :
  (forall dir name, truthy (path_join H [dir; name]) = true) ->
  forall dir found,
    searchEntry H targetFileName dir entry = Some found -> truthy found = true.
Proof.
  intros Hjoin. destruct entry as [name|name entries|name|name];
    intros dir found; cbn [searchEntry]; try discriminate.
  - destruct (name =? targetFileName); [|discriminate].
    intros E. injection E as <-. apply Hjoin.
  - destruct (first_some _ entries) as [f|]; [|discriminate].
    cbn [mbind option_bind]. intros E. apply nonEmpty_Some in E as [-> Ht]. exact Ht.
Qed.

Lemma searchEntry_complete H targetFileName entry :
  (forall dir name, truthy (path_join H [dir; name]) = true) ->
  fileBelow targetFileName entry = true ->
  forall dir, is_Some (searchEntry H targetFileName dir entry).
Proof.
  intros Hjoin.
  induction entry as [name|name entries IH|name|name] using Dirent_forall_ind;
    cbn [fileBelow searchEntry]; intros Hb dir; try discriminate.
  - rewrite Hb. eexists. reflexivity.
  - apply existsb_exists in Hb as (e & He & Hbe).
    rewrite Forall_forall in IH.
    assert (is_Some (first_some (searchEntry H targetFileName (path_join H [dir; name]))
                       entries)) as [found Hfound].
    { eapply first_some_is_Some; [exact He|].
      apply IH; [apply list_elem_of_In, He|exact Hbe]. }
    rewrite Hfound. cbn [mbind option_bind].
    apply first_some_Some in Hfound as (x & _ & Hx).
    apply (searchEntry_truthy _ _ _ Hjoin) in Hx.
    unfold nonEmpty. rewrite Hx. eexists. reflexivity.
Qed.

(** X8: The search below a source root finds a file exactly when a file of that
    name lies below the root (directories that cannot be listed are passed
    over), given that joined paths are never empty. *)
Theorem search_finds_what_is_there (H : Host) (dir targetFileName : string)
    (entries : list Dirent) :
  (forall dir name, truthy (path_join H [dir; name]) = true) ->
  readdirSync_withFileTypes H dir = Some entries ->
  (searchForFile H dir targetFileName = None
   <-> existsb (fileBelow targetFileName) entries = false).
Proof.
  intros Hjoin Hdir. split.
  - intros Hnone. destruct (existsb _ entries) eqn:E; [|reflexivity].
    apply existsb_exists in E as (e & He & Hbe).
    unfold searchForFile in Hnone. rewrite Hdir in Hnone.
    destruct (first_some_is_Some (searchEntry H targetFileName dir) entries e He
                (searchEntry_complete H targetFileName e Hjoin Hbe dir)) as [p Hp].
    congruence.
  - intros Hno. eapply searchForFile_none; eassumption.
Qed.

(** ** A text input: own, inherited and styled *)

Definition textPropsText : string :=
  "export default class WmTextProps extends BaseInputProps { placeholder: string = 'Enter'; }".

Definition textPropsTree : Node :=
  mkNode OtherSyntax
    [ mkNode
        (ClassDeclaration (Some "WmTextProps")
           [mkHeritage ExtendsKeyword ["BaseInputProps"]]
           [PropertyDeclaration "placeholder" false (Some "string") (Some "'Enter'")])
        [leaf; leaf; leaf; mkNode OtherSyntax [mkNode OtherSyntax [leaf]];
         mkNode OtherSyntax [leaf; leaf; leaf]] ].

Definition textStylesText : string :=
  "export const DEFAULT_CLASS = 'app-text'; addStyle(DEFAULT_CLASS + '-invalid', '', {});".

Definition textStylesTree : Node :=
  mkNode OtherSyntax
    [ mkNode
        (VariableStatement
           [mkVariable (Some "DEFAULT_CLASS") (Some (StringLiteral "app-text"))])
        [leaf; mkNode OtherSyntax [mkNode OtherSyntax [leaf; leaf]]];
      mkNode OtherSyntax
        [ mkNode
            (CallExpression (Identifier "addStyle")
               [BinaryExpression "DEFAULT_CLASS + '-invalid'"; StringLiteral "";
                OtherExpression])
            [leaf; mkNode OtherSyntax [leaf; leaf]; leaf; leaf] ] ].

Definition textDisk : Disk :=
  {| files :=
       [ ("lib/components/input/text/text.props.js.map", "payload of text.props.js.map");
         ("lib/components/input/text/text.styles.js.map", "payload of text.styles.js.map");
         ("lib/components/input/baseinput/baseinput.props.js.map",
          "payload of baseinput.props.js.map");
         ("lib/core/base.component.js.map", "payload of base.component.js.map") ];
     listings :=
       [ ("lib/components/input/text", ["text.props.js.map"; "text.styles.js.map"]) ];
     trees :=
       [ ("lib/components",
          [ DirEntry "input"
              [ DirEntry "baseinput" [FileEntry "baseinput.props.js.map"];
                DirEntry "text"
                  [FileEntry "text.props.js.map"; FileEntry "text.styles.js.map"] ] ]) ];
     sourceMaps :=
       [ ("payload of text.props.js.map",
          mkSourceMap ["text.props.ts"] (Some [textPropsText]));
         ("payload of text.styles.js.map",
          mkSourceMap ["text.styles.ts"] (Some [textStylesText]));
         ("payload of baseinput.props.js.map",
          mkSourceMap ["baseinput.props.ts"] (Some [baseInputText]));
         ("payload of base.component.js.map",
          mkSourceMap ["base.component.ts"] (Some [basePropsText])) ];
     syntaxTrees :=
       [ (textPropsText, textPropsTree); (textStylesText, textStylesTree);
         (baseInputText, baseInputTree); (basePropsText, basePropsTree) ] |}.

Definition textDoc : ComponentDoc :=
  {| componentName := "text";
     componentPath := "lib/components/input/text";
     category := "input";
     props :=
       [ mkPropInfo "placeholder" "string" (Some "'Enter'") false false None;
         mkPropInfo "value" "any" None false true (Some "BaseInputProps");
         mkPropInfo "id" "string" (Some "null") true true (Some "BaseProps") ];
     methods := [];
     events := [];
     styles :=
       [ mkStyleInfo "app-text" (Some "Default style class");
         mkStyleInfo "app-text-invalid" None ];
     baseClass := Some "BaseInputProps";
     children := [] |}.

Definition textRun : Res (option ComponentDoc) * State :=
  generateComponentDoc (diskHost textDisk) "lib" noConfig 3 "lib/components/input/text"
    "input" freshState.

Lemma own_props_precede_inherited_witness :
  exists own more,
    props textDoc = own ++ more /\ Forall isOwn own /\ Forall isInherited more.
Proof.
  apply (own_props_precede_inherited (diskHost textDisk) "lib" noConfig 2
           "lib/components/input/text" "input" freshState (snd textRun) textDoc).
  vm_compute. reflexivity.
Defined.

Lemma style_classes_are_distinct_witness :
  NoDup (map className (styles textDoc))
  /\ Forall (fun s => style_description s = None) (tail (styles textDoc)).
Proof.
  apply (style_classes_are_distinct (diskHost textDisk) "lib" noConfig 2
           "lib/components/input/text" "input" freshState (snd textRun) textDoc).
  vm_compute. reflexivity.
Defined.

Lemma search_finds_what_is_there_witness :
  searchForFile (diskHost textDisk) "lib/components" "button.props.js.map" = None
  <-> existsb (fileBelow "button.props.js.map")
        [ DirEntry "input"
            [ DirEntry "baseinput" [FileEntry "baseinput.props.js.map"];
              DirEntry "text"
                [FileEntry "text.props.js.map"; FileEntry "text.styles.js.map"] ] ]
      = false.
Proof.
  apply (search_finds_what_is_there (diskHost textDisk) "lib/components"
           "button.props.js.map").
  - intros dir name. destruct dir; reflexivity.
  - reflexivity.
Defined.

(* ================================================================== *)
(** * 24. What filtering keeps *)
(* ================================================================== *)

Lemma filter_filter_same {A} (keep : A -> bool) (xs : list A) :
  List.filter keep (List.filter keep xs) = List.filter keep xs.
Proof.
  induction xs as [|x xs IH]; [reflexivity|].
  cbn [List.filter]. destruct (keep x) eqn:E; [|exact IH].
  cbn [List.filter]. rewrite E, IH. reflexivity.
Qed.

Lemma filter_sublist {A} (keep : A -> bool) (xs : list A) :
  sublist (List.filter keep xs) xs.
Proof.
  induction xs as [|x xs IH]; [constructor|].
  cbn [List.filter]. destruct (keep x); [apply sublist_skip|apply sublist_cons]; exact IH.
Qed.

(** X9: Filtering a doc a second time changes nothing; it keeps the order of what
    it keeps; and it leaves the name, the path, the category, the events, the
    ancestor and the children of the doc as they are. *)
Theorem filtering_is_idempotent (config : GeneratorConfig) (doc : ComponentDoc) :
  let filtered := filterComponentDoc config doc in
  filterComponentDoc config filtered = filtered
  /\ sublist (props filtered) (props doc)
  /\ sublist (methods filtered) (methods doc)
  /\ sublist (styles filtered) (styles doc)
  /\ componentName filtered = componentName doc
  /\ componentPath filtered = componentPath doc
  /\ category filtered = category doc
  /\ events filtered = events doc
  /\ baseClass filtered = baseClass doc
  /\ children filtered = children doc.
Proof.
  cbn zeta. split; [|repeat split; apply filter_sublist].
  unfold filterComponentDoc.
  cbn [componentName componentPath category props methods events styles baseClass children].
  f_equal; apply filter_filter_same.
Qed.

(** X10: Filtering removes nothing else: an own property survives unless the
    global or the component's exclude-list names it, an inherited one unless
    one of those or the inherited exclude-list names it, a method or a style
    class unless its global or override exclude-list names it. *)
Theorem unlisted_entries_survive (config : GeneratorConfig) (doc : ComponentDoc) :
  let filtered := filterComponentDoc config doc in
  let overrides := componentOverrides config !! componentName doc in
  (forall p, p ∈ props doc ->
     mem (prop_name p) (excludeProps config) = false ->
     overrideExcludes o_excludeProps overrides (prop_name p) = false ->
     inherited p = false \/ mem (prop_name p) (excludeInheritedProps config) = false ->
     p ∈ props filtered)
  /\ (forall m, m ∈ methods doc ->
        mem (method_name m) (excludeMethods config) = false ->
        overrideExcludes o_excludeMethods overrides (method_name m) = false ->
        m ∈ methods filtered)
  /\ (forall s, s ∈ styles doc ->
        mem (className s) (excludeStyleClasses config) = false ->
        overrideExcludes o_excludeStyleClasses overrides (className s) = false ->
        s ∈ styles filtered).
Proof.
  cbn zeta. unfold filterComponentDoc. cbn [props methods styles].
  split; [|split].
  - intros p Hp Hglobal Hover Hinh. apply elem_of_filter_bool. split; [exact Hp|].
    unfold keepProp. rewrite Hglobal, Hover.
    destruct Hinh as [-> | ->]; [reflexivity|].
    rewrite andb_false_r. reflexivity.
  - intros m Hm Hglobal Hover. apply elem_of_filter_bool. split; [exact Hm|].
    unfold keepMethod. rewrite Hglobal, Hover. reflexivity.
  - intros s Hs Hglobal Hover. apply elem_of_filter_bool. split; [exact Hs|].
    unfold keepStyle. rewrite Hglobal, Hover. reflexivity.
Qed.

(* ================================================================== *)
(** * 25. The identity of a doc and of its children *)
(* ================================================================== *)

Lemma generateComponentDoc_identity H componentsPath config fuel componentPath' category'
    st doc st' :
  generateComponentDoc H componentsPath config fuel componentPath' category' st
  = (Ok (Some doc), st') ->
  componentName doc = path_basename H componentPath'
  /\ componentPath doc = componentPath' /\ category doc = category'.
Proof.
  destruct fuel as [|fuel]; [discriminate|]. intros Hgen.
  apply generateComponentDoc_inv in Hgen
    as (sources & allProps & ancestor & callbackEvents & childData & st1
        & _ & _ & _ & _ & ->).
  repeat split.
Qed.

Lemma addChildren_configured H componentsPath config fuel parentPath parentName category'
    entries :
  forall childData st childData' st',
    foldG (addChild H (generateComponentDoc H componentsPath config fuel)
             parentPath parentName category') entries childData st
    = (Ok childData', st') ->
    exists added,
      childData' = childData ++ added
      /\ sublist (map componentPath added)
           (map (fun entry => path_resolve H parentPath (snd entry)) entries)
      /\ Forall (fun child => category child = category'
                              /\ existsSync H (componentPath child) = true) added.
Proof.
  induction entries as [|[childName relativePath] entries IH];
    intros childData st childData' st'; cbn [foldG].
  - intros E. injection E as <- <-. exists []. rewrite app_nil_r.
    split; [reflexivity|]. split; [constructor|constructor].
  - intros E. apply bindG_Ok in E as (mid & st1 & Hchild & Hrest).
    apply IH in Hrest as (added & -> & Hsub & Hall).
    unfold addChild in Hchild. cbn [map snd].
    destruct (existsSync H (path_resolve H parentPath relativePath)) eqn:Hex.
    + apply bindG_Ok in Hchild as ([child|] & st2 & Hgen & Hret);
        unfold ret in Hret; injection Hret as <- <-.
      * apply generateComponentDoc_identity in Hgen as (_ & Hpath & Hcat).
        exists (child :: added). rewrite <- app_assoc. split; [reflexivity|].
        split.
        -- cbn [map]. rewrite Hpath. apply sublist_skip, Hsub.
        -- constructor; [|exact Hall]. rewrite Hpath. split; [exact Hcat|exact Hex].
      * exists added. split; [reflexivity|]. split; [apply sublist_cons, Hsub|exact Hall].
    + apply bindG_Ok in Hchild as (u & st2 & _ & Hret).
      unfold ret in Hret. injection Hret as <- <-.
      exists added. split; [reflexivity|]. split; [apply sublist_cons, Hsub|exact Hall].
Qed.

(** X11: A generated doc is named after its directory and carries the path and
    the category it was asked for; its children are docs of configured child
    paths that exist, in the order of the configuration, and they carry the
    category of their parent. *)
Theorem children_follow_configuration (H : Host) (componentsPath : string)
    (config : GeneratorConfig) (fuel : nat) (componentPath' category' : string)
    (st st' : State) (doc : ComponentDoc) :
  generateComponentDoc H componentsPath config (S fuel) componentPath' category' st
  = (Ok (Some doc), st') ->
  componentName doc = path_basename H componentPath'
  /\ componentPath doc = componentPath'
  /\ category doc = category'
  /\ sublist (map componentPath (children doc))
       (map (fun entry => path_resolve H componentPath' (snd entry))
          (default [] (childComponents config !! path_basename H componentPath')))
  /\ Forall (fun child => category child = category'
                          /\ existsSync H (componentPath child) = true) (children doc).
Proof.
  intros Hgen.
  apply generateComponentDoc_inv in Hgen
    as (sources & allProps & ancestor & callbackEvents & childData & st1
        & _ & _ & _ & Hchildren & ->).
  cbn [filterComponentDoc componentName componentPath category children].
  repeat (split; [reflexivity|]).
  apply addChildren_configured in Hchildren as (added & -> & Hsub & Hall).
  split; [exact Hsub|exact Hall].
Qed.

(** ** An accordion with a configured pane *)

Definition accordionDisk : Disk :=
  {| files :=
       [ ("lib/components/container/accordion/accordion.props.js.map",
          "payload of button.props.js.map");
         ("lib/components/container/accordion/./accordionpane/accordionpane.props.js.map",
          "payload of button.props.js.map") ];
     listings :=
       [ ("lib/components/container/accordion", ["accordion.props.js.map"; "accordionpane"]);
         ("lib/components/container/accordion/./accordionpane",
          ["accordionpane.props.js.map"]) ];
     trees := [];
     sourceMaps :=
       [ ("payload of button.props.js.map",
          mkSourceMap ["button.props.ts"] (Some [buttonPropsText])) ];
     syntaxTrees := [ (buttonPropsText, buttonPropsTree) ] |}.

Definition accordionConfig : GeneratorConfig :=
  {| childComponents :=
       {[ "accordion" := [ ("accordion-pane", "./accordionpane");
                           ("accordion-header", "./accordionheader") ] ]};
     excludeProps := [];
     excludeInheritedProps := [];
     excludeMethods := [];
     excludeStyleClasses := [];
     componentOverrides := ∅ |}.

Definition accordionRun : Res (option ComponentDoc) * State :=
  generateComponentDoc (diskHost accordionDisk) "lib" accordionConfig 3
    "lib/components/container/accordion" "container" freshState.

Definition paneDoc (name path : string) (panes : list ComponentDoc) : ComponentDoc :=
  {| componentName := name;
     componentPath := path;
     category := "container";
     props := [mkPropInfo "onTap" "Function" None true false None];
     methods := [];
     events := [mkEventInfo "onTap" "Function" (Some "()")];
     styles := [];
     baseClass := None;
     children := panes |}.

Definition accordionDoc : ComponentDoc :=
  paneDoc "accordion" "lib/components/container/accordion"
    [paneDoc "accordionpane" "lib/components/container/accordion/./accordionpane" []].

Lemma children_follow_configuration_witness :
  let H := diskHost accordionDisk in
  componentName accordionDoc = path_basename H "lib/components/container/accordion"
  /\ componentPath accordionDoc = "lib/components/container/accordion"
  /\ category accordionDoc = "container"
  /\ sublist (map componentPath (children accordionDoc))
       (map (fun entry => path_resolve H "lib/components/container/accordion" (snd entry))
          (default []
             (childComponents accordionConfig
                !! path_basename H "lib/components/container/accordion")))
  /\ Forall (fun child => category child = "container"
                          /\ existsSync H (componentPath child) = true)
       (children accordionDoc).
Proof.
  apply (children_follow_configuration (diskHost accordionDisk) "lib" accordionConfig 2
           "lib/components/container/accordion" "container" freshState
           (snd accordionRun) accordionDoc).
  vm_compute. reflexivity.
Defined.

(* ================================================================== *)
(** * 26. The methods of a component class *)
(* ================================================================== *)

Lemma visitMethods_preorder node :
  forall result,
    visitMethods node result
    = fold_left (fun result syntax => assign (declaredMethods syntax) result)
        (preorder node) result.
Proof.
  induction node as [syntax childNodes IH] using Node_forall_ind; intros result.
  cbn [visitMethods preorder fold_left].
  generalize (assign (declaredMethods syntax) result). clear result.
  induction IH as [|child rest Hchild _ IHrest]; intros result.
  - reflexivity.
  - cbn [fold_left map concat]. rewrite fold_left_app, Hchild. apply IHrest.
Qed.

(** What [extractMethods] may return: a class that is no properties, styles
    or state class, with public methods outside the lifecycle. *)
Definition publicApi (r : MethodsResult) : Prop :=
  endsWith (mr_className r) "Props" = false
  /\ endsWith (mr_className r) "Styles" = false
  /\ endsWith (mr_className r) "State" = false
  /\ Forall (fun m => visibility m = Public
                      /\ mem (method_name m) lifecycleMethods = false) (mr_methods r).

Lemma classMemberMethod_public member m :
  classMemberMethod member = Some m ->
  visibility m = Public /\ mem (method_name m) lifecycleMethods = false.
Proof.
  destruct member as [| methodName modifiers type params |]; cbn [classMemberMethod];
    try discriminate.
  destruct (mem methodName lifecycleMethods) eqn:Hlife; [discriminate|].
  destruct (visibilityOf modifiers); try discriminate.
  intros E. injection E as <-. split; [reflexivity|exact Hlife].
Qed.

Lemma declaredMethods_public syntax r : declaredMethods syntax = Some r -> publicApi r.
Proof.
  destruct syntax as [[className|] heritage members| | | | |]; cbn [declaredMethods];
    try discriminate.
  destruct (endsWith className "Props") eqn:HP; [discriminate|].
  destruct (endsWith className "Styles") eqn:HS; [discriminate|].
  destruct (endsWith className "State") eqn:HT; [discriminate|].
  cbn [negb andb]. intros E. injection E as <-.
  unfold publicApi. cbn [mr_className mr_methods].
  repeat (split; [assumption|]).
  apply Forall_forall. intros m Hm.
  apply list_elem_of_omap in Hm as (member & _ & Hm).
  eapply classMemberMethod_public, Hm.
Qed.

Lemma methodSteps_public nodes :
  forall result,
    (forall r, result = Some r -> publicApi r) ->
    forall r,
      fold_left (fun result syntax => assign (declaredMethods syntax) result) nodes result
      = Some r ->
      publicApi r.
Proof.
  induction nodes as [|syntax nodes IH]; intros result Hres r; cbn [fold_left].
  - apply Hres.
  - apply IH. intros r'. unfold assign.
    destruct (declaredMethods syntax) as [found|] eqn:Hd.
    + intros E. injection E as <-. eapply declaredMethods_public, Hd.
    + apply Hres.
Qed.

(** X12: The methods extracted from a behaviour source are public methods outside
    the lifecycle list, and their class is not a properties, styles or state
    class. *)
Theorem extracted_methods_are_public (H : Host) (sourceCode : string)
    (r : MethodsResult) :
  extractMethods H sourceCode = Some r -> publicApi r.
Proof.
  unfold extractMethods. rewrite visitMethods_preorder.
  apply methodSteps_public. discriminate.
Qed.

(** The syntax tree of a class with a public, a private and a lifecycle
    method, next to its state class. *)
Definition switchBehaviourTree : Node :=
  mkNode OtherSyntax
    [ mkNode
        (ClassDeclaration (Some "WmSwitchState") []
           [MethodDeclaration "reset" [] None []])
        [leaf; leaf; mkNode OtherSyntax [leaf; leaf]];
      mkNode
        (ClassDeclaration (Some "WmSwitch") [mkHeritage ExtendsKeyword ["BaseComponent"]]
           [ MethodDeclaration "render" [] None [];
             MethodDeclaration "toggle" [OtherModifier] (Some "boolean")
               [mkParameter (Some "value") true (Some "boolean")];
             MethodDeclaration "notify" [PrivateKeyword] None [];
             PropertyDeclaration "ready" false None (Some "false") ])
        [leaf; leaf; leaf; mkNode OtherSyntax [leaf; leaf; leaf; leaf]] ].

Lemma extracted_methods_are_public_witness :
  publicApi
    (mkMethodsResult
       [mkMethodInfo "toggle" Public "boolean" [mkParameterInfo "value" "boolean" true]]
       "WmSwitch").
Proof.
  apply (extracted_methods_are_public (parserHost (fun _ => switchBehaviourTree))
           "switch.component.ts").
  reflexivity.
Defined.

(* ================================================================== *)
(** * 27. The order of the merged events *)
(* ================================================================== *)

Lemma unique_ext xs :
  forall seen seen',
    (forall x, mem x seen = mem x seen') -> unique seen xs = unique seen' xs.
Proof.
  induction xs as [|x xs IH]; intros seen seen' Hsame; cbn [unique]; [reflexivity|].
  rewrite <- Hsame. destruct (mem x seen); [apply IH, Hsame|].
  f_equal. apply IH. intros y. unfold mem. cbn [existsb]. f_equal. apply Hsame.
Qed.

Lemma mem_app x xs ys : mem x (xs ++ ys) = mem x xs || mem x ys.
Proof. unfold mem. apply existsb_app. Qed.

Lemma setEvents_keys es :
  forall m,
    map fst (fold_left setEvent es m)
    = map fst m ++ unique (map fst m) (map event_name es).
Proof.
  induction es as [|e es IH]; intros m; cbn [fold_left map unique].
  - rewrite app_nil_r. reflexivity.
  - rewrite IH. unfold setEvent. rewrite Map_set_keys.
    destruct (mem (event_name e) (map fst m)); [reflexivity|].
    rewrite <- app_assoc. cbn [app]. do 2 f_equal.
    apply unique_ext. intros x. rewrite mem_app. unfold mem. cbn [existsb].
    rewrite orb_false_r. apply orb_comm.
Qed.

Lemma setEvents_last es :
  forall m,
    NoDup (map fst m) ->
    forall k v,
      In (k, v) (fold_left setEvent es m) ->
      (exists before after,
          es = before ++ v :: after /\ ~ In (event_name v) (map event_name after))
      \/ (In (k, v) m /\ ~ In k (map event_name es)).
Proof.
  induction es as [|e es IH]; intros m Hnd k v Hin; cbn [fold_left] in Hin.
  - right. split; [exact Hin|intros []].
  - apply IH in Hin as [(before & after & -> & Hlast)|[Hin Hk]];
      [| |apply Map_set_NoDup, Hnd].
    + left. exists (e :: before), after. split; [reflexivity|exact Hlast].
    + destruct (String.eqb_spec k (event_name e)) as [->|Hne].
      * assert ((event_name e, v) = (event_name e, e)) as E.
        { eapply (NoDup_map_eq fst); [apply Map_set_NoDup, Hnd|exact Hin| |reflexivity].
          apply Map_set_In. }
        injection E as ->. left. exists [], es. split; [reflexivity|exact Hk].
      * apply Map_set_inv in Hin as [E|Hin]; [congruence|].
        right. split; [exact Hin|]. cbn [map]. intros [E|Hes]; [congruence|tauto].
Qed.

Lemma mergeEvents_names propsEvents callbackEvents :
  map event_name (mergeEvents propsEvents callbackEvents)
  = unique [] (map event_name (propsEvents ++ callbackEvents)).
Proof.
  unfold mergeEvents. rewrite <- fold_left_app.
  rewrite keyed_names by (apply setEvents_keyed; constructor).
  rewrite setEvents_keys. reflexivity.
Qed.

(** X13: The merged event list has one entry per name, at the place where the
    name first occurs among the declared events followed by the callback
    events, and the entry is the last event of that name. *)
Theorem merged_events_keep_first_place (propsEvents callbackEvents : list EventInfo) :
  map event_name (mergeEvents propsEvents callbackEvents)
  = unique [] (map event_name (propsEvents ++ callbackEvents))
  /\ forall e,
       e ∈ mergeEvents propsEvents callbackEvents ->
       exists before after,
         propsEvents ++ callbackEvents = before ++ e :: after
         /\ event_name e ∉ map event_name after.
Proof.
  split; [apply mergeEvents_names|].
  unfold mergeEvents. rewrite <- fold_left_app.
  intros e He. apply list_elem_of_In, in_map_iff in He as ([k v] & <- & Hin).
  cbn [snd]. apply setEvents_last in Hin as [(before & after & Hes & Hlast)|[[] _]];
    [|constructor].
  exists before, after. split; [exact Hes|]. rewrite list_elem_of_In. exact Hlast.
Qed.

(** X14: Every property of a generated doc that is an event property (its name
    starts with [on] and its type is [Function] or an arrow type) has an entry
    of its name in the events of the doc. *)
Theorem event_props_have_events (H : Host) (componentsPath : string)
    (config : GeneratorConfig) (fuel : nat) (componentPath' category' : string)
    (st st' : State) (doc : ComponentDoc) :
  generateComponentDoc H componentsPath config (S fuel) componentPath' category' st
  = (Ok (Some doc), st') ->
  forall p,
    p ∈ props doc -> isEventProp p = true ->
    exists e, e ∈ events doc /\ event_name e = prop_name p.
Proof.
  intros Hgen.
  apply generateComponentDoc_inv in Hgen
    as (sources & allProps & ancestor & callbackEvents & childData & st1
        & _ & _ & _ & _ & ->).
  cbn [filterComponentDoc props events]. intros p Hp Hevent.
  apply elem_of_filter_bool in Hp as [Hp _].
  assert (In (prop_name p)
            (map event_name
               (mergeEvents (map declaredEvent (extractEvents allProps)) callbackEvents)))
    as Hin.
  { rewrite mergeEvents_names. apply (unique_spec []). split; [|intros []].
    rewrite map_app. apply in_or_app. left.
    apply in_map_iff. exists (declaredEvent (prop_name p, prop_type p)).
    split; [reflexivity|]. apply in_map. unfold extractEvents.
    apply (in_map (fun prop => (prop_name prop, prop_type prop))).
    apply filter_In. split; [apply list_elem_of_In, Hp|exact Hevent]. }
  apply in_map_iff in Hin as (e & He & Hin).
  exists e. split; [apply list_elem_of_In, Hin|exact He].
Qed.

Lemma event_props_have_events_witness :
  exists e, e ∈ events accordionDoc /\ event_name e = "onTap".
Proof.
  apply (event_props_have_events (diskHost accordionDisk) "lib" accordionConfig 2
           "lib/components/container/accordion" "container" freshState
           (snd accordionRun) accordionDoc eq_refl
           (mkPropInfo "onTap" "Function" None true false None)).
  - apply list_elem_of_In. left. reflexivity.
  - reflexivity.
Defined.

(* ================================================================== *)
(** * 28. Component discovery *)
(* ================================================================== *)

(** The fields of [GeneratorConfig] that discovery reads. *)
Record DiscoveryConfig := mkDiscovery {
  includeComponents : list string;
  excludeCategories : list string;
}.

(** An element of the array filled by [findComponentsInDir]. *)
Record Component := mkComponent {
  found_path : string;
  found_category : string;
}.

(** [dirent.name] *)
Definition dirent_name (item : Dirent) : string :=
  match item with
  | FileEntry name => name
  | DirEntry name _ => name
  | ClosedDirEntry name => name
  | OtherEntry name => name
  end.

(** [dirent.isDirectory()] *)
Definition isDirectory (item : Dirent) : bool :=
  match item with
  | DirEntry _ _ => true
  | ClosedDirEntry _ => true
  | _ => false
  end.

(** The test of [items.some] in [findComponentsInDir]. *)
Definition isComponentFile (item : Dirent) : bool :=
  match item with
  | FileEntry name =>
      endsWith name ".component.js.map" || endsWith name ".props.js.map"
      || (name =? "index.tsx") || (name =? "index.ts")
  | _ => false
  end.

(** The directories the recursion does not enter. *)
Definition skipped (name : string) : bool :=
  startsWith name "." || (name =? "node_modules").

Definition lineFeed : string := String (ascii_of_nat 10) EmptyString.

Section Discovery.

Variable H : Host.
Variable componentsPath : string.
Variable config : GeneratorConfig.
Variable discovery : DiscoveryConfig.

(** The whitelist test on a folder name. *)
Definition whitelisted (componentName : string) : bool :=
  (List.length (includeComponents discovery) =? 0)%nat
  || mem componentName (includeComponents discovery).

(** What [findComponentsInDir] pushes for the directory itself, given its
    listing. *)
Definition ownComponent (dirPath category : string) (items : list Dirent)
  : list Component :=
  if existsb isComponentFile items then
    if whitelisted (path_basename H dirPath) then [mkComponent dirPath category] else []
  else [].

(** One iteration of the loop over [items] in [findComponentsInDir], with the
    recursive call for a directory written out: its listing is read (which
    throws for a directory that cannot be listed), the directory itself is
    pushed when it is a component, and the loop runs over its listing. *)
Fixpoint findComponentsInItem (dirPath category : string) (components : list Component)
    (item : Dirent) : Res (list Component) :=
  match item with
  | DirEntry name items =>
      if skipped name then Ok components
      else
        let subPath := path_join H [dirPath; name] in
        foldM (findComponentsInItem subPath category) items
          (components ++ ownComponent subPath category items)
  | ClosedDirEntry name => if skipped name then Ok components else Throw
  | FileEntry _ => Ok components
  | OtherEntry _ => Ok components
  end.

(** [findComponentsInDir] on a directory whose listing is [items]. *)
Definition findComponentsInDir (dirPath category : string) (items : list Dirent)
    (components : list Component) : Res (list Component) :=
  foldM (findComponentsInItem dirPath category) items
    (components ++ ownComponent dirPath category items).

Definition categoriesPath : string :=
  if existsSync H (path_join H [componentsPath; "components"])
  then path_join H [componentsPath; "components"]
  else componentsPath.

(** The entries of the categories directory that name a category: the
    directories whose name is not excluded. *)
Definition isCategory (item : Dirent) : bool :=
  isDirectory item && negb (mem (dirent_name item) (excludeCategories discovery)).

(** One iteration of the loop over the categories. *)
Definition findCategory (components : list Component) (item : Dirent)
  : Res (list Component) :=
  match item with
  | DirEntry category items =>
      findComponentsInDir (path_join H [categoriesPath; category]) category items
        components
  | ClosedDirEntry _ => Throw
  | FileEntry _ => Ok components
  | OtherEntry _ => Ok components
  end.

Definition nothingFound : list string :=
  [ (lineFeed ++ "Warning: No components found. This might be because:")%string;
    "1. The includeComponents whitelist is filtering out all components";
    "2. The component directory structure is different than expected";
    "3. Components don't have index.tsx/index.ts files";
    (lineFeed ++ "Tip: Set includeComponents to an empty array [] to include all components")%string ].

Definition findAllComponents : Gen (list Component) :=
  if negb (existsSync H componentsPath) then ret []
  else
    do* entries := liftG (lift (readdirSync_withFileTypes H categoriesPath)) in
    do* components := liftG (foldM findCategory (List.filter isCategory entries) []) in
    do* _ :=
      if (List.length components =? 0)%nat
         && (0 <? List.length (includeComponents discovery))%nat
      then foldG (fun _ message => warn message) nothingFound tt
      else ret tt in
    ret components.

(** One iteration of the loop of [generateAllDocs]. *)
Definition addDoc (fuel : nat) (docs : list ComponentDoc) (component : Component)
  : Gen (list ComponentDoc) :=
  do* doc := generateComponentDoc H componentsPath config fuel
               (found_path component) (found_category component) in
  match doc with
  | Some d => ret (docs ++ [d])
  | None => ret docs
  end.

Definition generateAllDocs (fuel : nat) : Gen (list ComponentDoc) :=
  do* components := findAllComponents in
  foldG (addDoc fuel) components [].

End Discovery.

(** ** What discovery finds *)

(** [path] is reached from [root] through folders the recursion enters. *)
Definition descends (H : Host) (root path : string) : Prop :=
  exists names,
    path = fold_left (fun p name => path_join H [p; name]) names root
    /\ Forall (fun name => skipped name = false) names.

(** A component found in [category] from the directory [root]. *)
Definition foundIn (H : Host) (discovery : DiscoveryConfig) (root category : string)
    (c : Component) : Prop :=
  found_category c = category
  /\ whitelisted discovery (path_basename H (found_path c)) = true
  /\ descends H root (found_path c).

Lemma descends_refl H root : descends H root root.
Proof. exists []. split; [reflexivity|constructor]. Qed.

Lemma descends_step H root name path :
  skipped name = false ->
  descends H (path_join H [root; name]) path -> descends H root path.
Proof.
  intros Hname (names & -> & Hall). exists (name :: names).
  split; [reflexivity|constructor; assumption].
Qed.

Lemma ownComponent_foundIn H discovery dirPath category items :
  Forall (foundIn H discovery dirPath category)
    (ownComponent H discovery dirPath category items).
Proof.
  unfold ownComponent. destruct (existsb isComponentFile items); [|constructor].
  destruct (whitelisted discovery (path_basename H dirPath)) eqn:E; [|constructor].
  constructor; [|constructor]. split; [reflexivity|]. split; [exact E|].
  apply descends_refl.
Qed.

Lemma findComponentsInItems_adds H discovery category items :
  Forall (fun item =>
            forall dirPath components r,
              findComponentsInItem H discovery dirPath category components item = Ok r ->
              exists added,
                r = components ++ added
                /\ Forall (foundIn H discovery dirPath category) added) items ->
  forall dirPath components r,
    foldM (findComponentsInItem H discovery dirPath category) items components = Ok r ->
    exists added,
      r = components ++ added /\ Forall (foundIn H discovery dirPath category) added.
Proof.
  induction 1 as [|item items Hitem _ IH]; intros dirPath components r; cbn [foldM].
  - intros E. injection E as <-. exists []. rewrite app_nil_r. split; [reflexivity|constructor].
  - destruct (findComponentsInItem H discovery dirPath category components item)
      as [mid| |] eqn:Hmid; cbn [bind]; try discriminate.
    intros Hrest. apply Hitem in Hmid as (added1 & -> & Hall1).
    apply IH in Hrest as (added2 & -> & Hall2).
    exists (added1 ++ added2). rewrite app_assoc. split; [reflexivity|].
    apply Forall_app. split; assumption.
Qed.

Lemma findComponentsInItem_adds H discovery category item :
  forall dirPath components r,
    findComponentsInItem H discovery dirPath category components item = Ok r ->
    exists added,
      r = components ++ added /\ Forall (foundIn H discovery dirPath category) added.
Proof.
  induction item as [name|name items IH|name|name] using Dirent_forall_ind;
    intros dirPath components r; cbn [findComponentsInItem].
  - intros E. injection E as <-. exists []. rewrite app_nil_r. split; [reflexivity|constructor].
  - destruct (skipped name) eqn:Hskip.
    + intros E. injection E as <-. exists []. rewrite app_nil_r.
      split; [reflexivity|constructor].
    + intros Hfold.
      apply (findComponentsInItems_adds H discovery category items IH) in Hfold
        as (added & -> & Hall).
      exists (ownComponent H discovery (path_join H [dirPath; name]) category items
              ++ added).
      rewrite app_assoc. split; [reflexivity|].
      eapply Forall_impl;
        [apply Forall_app; split; [apply ownComponent_foundIn|exact Hall]|].
      intros c (Hcat & Hadm & Hdesc). split; [exact Hcat|]. split; [exact Hadm|].
      eapply descends_step; eassumption.
  - destruct (skipped name); [|discriminate].
    intros E. injection E as <-. exists []. rewrite app_nil_r. split; [reflexivity|constructor].
  - intros E. injection E as <-. exists []. rewrite app_nil_r. split; [reflexivity|constructor].
Qed.

Lemma findComponentsInDir_adds H discovery dirPath category items components r :
  findComponentsInDir H discovery dirPath category items components = Ok r ->
  exists added,
    r = components ++ added /\ Forall (foundIn H discovery dirPath category) added.
Proof.
  unfold findComponentsInDir. intros Hfold.
  apply findComponentsInItems_adds in Hfold as (added & -> & Hall).
  - exists (ownComponent H discovery dirPath category items ++ added).
    rewrite app_assoc. split; [reflexivity|].
    apply Forall_app. split; [apply ownComponent_foundIn|exact Hall].
  - apply Forall_forall. intros item _. apply findComponentsInItem_adds.
Qed.

(** A component found from the categories directory: its category is a
    category that is not excluded. *)
Definition discovered (H : Host) (componentsPath : string) (discovery : DiscoveryConfig)
    (c : Component) : Prop :=
  mem (found_category c) (excludeCategories discovery) = false
  /\ foundIn H discovery
       (path_join H [categoriesPath H componentsPath; found_category c])
       (found_category c) c.

Lemma findCategories_discovered H componentsPath discovery items :
  Forall (fun item => isCategory discovery item = true) items ->
  forall components r,
    Forall (discovered H componentsPath discovery) components ->
    foldM (findCategory H componentsPath discovery) items components = Ok r ->
    Forall (discovered H componentsPath discovery) r.
Proof.
  induction 1 as [|item items Hitem _ IH]; intros components r Hall; cbn [foldM].
  - intros E. injection E as <-. exact Hall.
  - destruct (findCategory H componentsPath discovery components item) as [mid| |] eqn:Hmid;
      cbn [bind]; try discriminate.
    apply IH. clear IH.
    destruct item as [name|category items'|name|name]; cbn [findCategory] in Hmid;
      try discriminate; try (injection Hmid as <-; exact Hall).
    apply findComponentsInDir_adds in Hmid as (added & -> & Hadded).
    apply Forall_app. split; [exact Hall|].
    eapply Forall_impl; [exact Hadded|].
    intros c (Hcat & Hrest). unfold discovered. rewrite Hcat.
    split; [|split; [exact Hcat|exact Hrest]].
    unfold isCategory in Hitem. cbn [isDirectory dirent_name andb] in Hitem.
    destruct (mem category (excludeCategories discovery)); [discriminate|reflexivity].
Qed.

Lemma Forall_filter_true {A} (keep : A -> bool) (xs : list A) :
  Forall (fun x => keep x = true) (List.filter keep xs).
Proof.
  apply Forall_forall. intros x Hx. apply elem_of_filter_bool in Hx as [_ Hx]. exact Hx.
Qed.

Lemma warnings_Ok messages :
  forall st, exists st', foldG (fun _ message => warn message) messages tt st = (Ok tt, st').
Proof.
  induction messages as [|m messages IH]; intros st; cbn [foldG].
  - eexists. reflexivity.
  - unfold bindG, warn at 1. apply IH.
Qed.

Lemma findAllComponents_inv H componentsPath discovery st components st' :
  findAllComponents H componentsPath discovery st = (Ok components, st') ->
  (existsSync H componentsPath = false /\ components = [])
  \/ exists entries,
       readdirSync_withFileTypes H (categoriesPath H componentsPath) = Some entries
       /\ foldM (findCategory H componentsPath discovery)
            (List.filter (isCategory discovery) entries) [] = Ok components.
Proof.
  unfold findAllComponents. destruct (existsSync H componentsPath); cbn [negb].
  - intros E. right.
    apply bindG_Ok in E as (entries & st1 & Hread & E).
    apply bindG_Ok in E as (found & st2 & Hfound & E).
    apply bindG_Ok in E as (u & st3 & _ & E).
    unfold ret in E. injection E as <- <-.
    unfold liftG in Hread, Hfound. injection Hfound as Hfound <-.
    injection Hread as Hread <-.
    destruct (readdirSync_withFileTypes H (categoriesPath H componentsPath)) as [es|];
      [|discriminate].
    injection Hread as <-. exists es. split; [reflexivity|exact Hfound].
  - intros E. unfold ret in E. injection E as <- <-. left. split; reflexivity.
Qed.

(** X15: Every component that discovery returns lies in a category that is not
    excluded, is reached from its category folder through folders that are
    neither hidden nor [node_modules], and has a folder name the whitelist
    lets through. *)
Theorem found_components_are_whitelisted (H : Host) (componentsPath : string)
    (discovery : DiscoveryConfig) (st st' : State) (components : list Component) :
  findAllComponents H componentsPath discovery st = (Ok components, st') ->
  Forall (discovered H componentsPath discovery) components.
Proof.
  intros Hfind.
  apply findAllComponents_inv in Hfind as [[_ ->]|(entries & _ & Hfold)]; [constructor|].
  eapply findCategories_discovered; [apply Forall_filter_true|constructor|exact Hfold].
Qed.

(** ** Directories that cannot be listed *)

(** A directory that cannot be listed is the entry or lies below it, on a
    way the recursion takes. *)
Fixpoint closedBelow (item : Dirent) : bool :=
  match item with
  | DirEntry name items => negb (skipped name) && existsb closedBelow items
  | ClosedDirEntry name => negb (skipped name)
  | FileEntry _ => false
  | OtherEntry _ => false
  end.

(** The same for a category folder, which is entered whatever its name. *)
Definition closedCategory (item : Dirent) : bool :=
  match item with
  | DirEntry _ items => existsb closedBelow items
  | ClosedDirEntry _ => true
  | FileEntry _ => false
  | OtherEntry _ => false
  end.

Lemma foldM_outcome {A S} (body : S -> A -> Res S) (closed : A -> bool) (xs : list A) :
  Forall (fun x => forall s,
            if closed x then body s x = Throw else exists s', body s x = Ok s') xs ->
  forall s,
    if existsb closed xs then foldM body xs s = Throw
    else exists s', foldM body xs s = Ok s'.
Proof.
  induction 1 as [|x xs Hx _ IH]; intros s; cbn [existsb foldM].
  - eexists. reflexivity.
  - specialize (Hx s). destruct (closed x); cbn [orb].
    + rewrite Hx. reflexivity.
    + destruct Hx as (s' & ->). cbn [bind]. apply IH.
Qed.

Lemma findComponentsInItem_outcome H discovery category item :
  forall dirPath components,
    if closedBelow item
    then findComponentsInItem H discovery dirPath category components item = Throw
    else exists r,
        findComponentsInItem H discovery dirPath category components item = Ok r.
Proof.
  induction item as [name|name items IH|name|name] using Dirent_forall_ind;
    intros dirPath components; cbn [closedBelow findComponentsInItem];
    try (eexists; reflexivity).
  - destruct (skipped name); cbn [negb andb]; [eexists; reflexivity|].
    apply (foldM_outcome _ closedBelow).
    eapply Forall_impl; [exact IH|]. intros item Hitem s. apply Hitem.
  - destruct (skipped name); cbn [negb]; [eexists|]; reflexivity.
Qed.

Lemma findCategory_outcome H componentsPath discovery item components :
  if closedCategory item
  then findCategory H componentsPath discovery components item = Throw
  else exists r, findCategory H componentsPath discovery components item = Ok r.
Proof.
  destruct item as [name|category items|name|name]; cbn [closedCategory findCategory];
    try reflexivity; try (eexists; reflexivity).
  unfold findComponentsInDir. apply (foldM_outcome _ closedBelow).
  apply Forall_forall. intros item _ s. apply findComponentsInItem_outcome.
Qed.

Lemma addDocs_no_throw H componentsPath config fuel components :
  forall docs st,
    fst (foldG (addDoc H componentsPath config fuel) components docs st) <> Throw.
Proof.
  induction components as [|c components IH]; intros docs st; cbn [foldG];
    [discriminate|].
  unfold bindG at 1, addDoc at 1, bindG at 1.
  pose proof (generateComponentDoc_no_throw H componentsPath config fuel
                (found_path c) (found_category c) st) as Hgen.
  destruct (generateComponentDoc H componentsPath config fuel (found_path c)
              (found_category c) st) as [[[d|]| |] st1]; cbn [fst] in *;
    try discriminate; try congruence; unfold ret; apply IH.
Qed.

Lemma findAllComponents_outcome H componentsPath discovery st :
  existsSync H componentsPath = true ->
  match readdirSync_withFileTypes H (categoriesPath H componentsPath) with
  | Some entries =>
      if existsb closedCategory (List.filter (isCategory discovery) entries)
      then findAllComponents H componentsPath discovery st = (Throw, st)
      else exists components st',
          findAllComponents H componentsPath discovery st = (Ok components, st')
  | None => findAllComponents H componentsPath discovery st = (Throw, st)
  end.
Proof.
  intros Hex. unfold findAllComponents. rewrite Hex. cbn [negb].
  destruct (readdirSync_withFileTypes H (categoriesPath H componentsPath)) as [entries|];
    [|reflexivity].
  unfold bindG at 1, liftG at 1, lift.
  pose proof (foldM_outcome (findCategory H componentsPath discovery) closedCategory
                (List.filter (isCategory discovery) entries)
                (proj2 (Forall_forall _ _)
                   (fun item _ s => findCategory_outcome H componentsPath discovery item s))
                []) as Hout.
  destruct (existsb closedCategory (List.filter (isCategory discovery) entries)).
  - unfold bindG, liftG. rewrite Hout. reflexivity.
  - destruct Hout as (components & Hout).
    unfold bindG at 1, liftG. rewrite Hout.
    exists components.
    unfold bindG, ret.
    destruct ((List.length components =? 0)%nat
              && (0 <? List.length (includeComponents discovery))%nat).
    + destruct (warnings_Ok nothingFound st) as (st1 & ->). eexists. reflexivity.
    + eexists. reflexivity.
Qed.

(** X16: Discovery, and with it the generation of all docs, throws exactly when
    the categories directory cannot be listed or a category folder, or a
    folder below one that is neither hidden nor [node_modules], cannot be
    listed; discovery never runs on for ever. *)
Theorem unreadable_folder_stops_discovery (H : Host) (componentsPath : string)
    (config : GeneratorConfig) (discovery : DiscoveryConfig) (fuel : nat) (st : State) :
  existsSync H componentsPath = true ->
  let blocked :=
    match readdirSync_withFileTypes H (categoriesPath H componentsPath) with
    | Some entries => existsb closedCategory (List.filter (isCategory discovery) entries)
    | None => true
    end in
  (fst (findAllComponents H componentsPath discovery st) = Throw <-> blocked = true)
  /\ (fst (generateAllDocs H componentsPath config discovery fuel st) = Throw
      <-> blocked = true)
  /\ fst (findAllComponents H componentsPath discovery st) <> Diverge.
Proof.
  intros Hex. cbn zeta.
  pose proof (findAllComponents_outcome H componentsPath discovery st Hex) as Hout.
  unfold generateAllDocs, bindG.
  destruct (readdirSync_withFileTypes H (categoriesPath H componentsPath)) as [entries|].
  - destruct (existsb closedCategory (List.filter (isCategory discovery) entries)).
    + rewrite Hout. cbn [fst]. repeat split; congruence.
    + destruct Hout as (components & st1 & ->). cbn [fst].
      repeat split; try congruence.
      intros Hthrow. exfalso.
      eapply (addDocs_no_throw H componentsPath config fuel components [] st1), Hthrow.
  - rewrite Hout. cbn [fst]. repeat split; congruence.
Qed.

(** ** The docs of all components *)

Lemma addDocs_sublist H componentsPath config fuel components :
  forall docs st docs' st',
    foldG (addDoc H componentsPath config fuel) components docs st = (Ok docs', st') ->
    exists added,
      docs' = docs ++ added
      /\ sublist (map (fun d => (componentPath d, category d)) added)
           (map (fun c => (found_path c, found_category c)) components)
      /\ Forall (fun d => componentName d = path_basename H (componentPath d)) added.
Proof.
  induction components as [|c components IH]; intros docs st docs' st'; cbn [foldG].
  - intros E. injection E as <- <-. exists []. rewrite app_nil_r.
    split; [reflexivity|]. split; constructor.
  - intros E. apply bindG_Ok in E as (mid & st1 & Hdoc & Hrest).
    apply IH in Hrest as (added & -> & Hsub & Hall).
    unfold addDoc in Hdoc.
    apply bindG_Ok in Hdoc as ([d|] & st2 & Hgen & Hret);
      unfold ret in Hret; injection Hret as <- <-.
    + apply generateComponentDoc_identity in Hgen as (Hname & Hpath & Hcat).
      exists (d :: added). rewrite <- app_assoc. split; [reflexivity|]. split.
      * cbn [map]. rewrite Hpath, Hcat. apply sublist_skip, Hsub.
      * constructor; [rewrite Hpath; exact Hname|exact Hall].
    + exists added. split; [reflexivity|]. split; [apply sublist_cons, Hsub|exact Hall].
Qed.

(** X17: The docs of a full run are docs of discovered components, in the order
    of discovery and at most one per component, each named after its folder
    and in the category in which the component was found. *)
Theorem docs_follow_discovery (H : Host) (componentsPath : string)
    (config : GeneratorConfig) (discovery : DiscoveryConfig) (fuel : nat)
    (st st' : State) (docs : list ComponentDoc) :
  generateAllDocs H componentsPath config discovery fuel st = (Ok docs, st') ->
  exists components st1,
    findAllComponents H componentsPath discovery st = (Ok components, st1)
    /\ sublist (map (fun d => (componentPath d, category d)) docs)
         (map (fun c => (found_path c, found_category c)) components)
    /\ Forall (fun d => componentName d = path_basename H (componentPath d)) docs.
Proof.
  unfold generateAllDocs. intros Hall.
  apply bindG_Ok in Hall as (components & st1 & Hfind & Hdocs).
  exists components, st1. split; [exact Hfind|].
  apply addDocs_sublist in Hdocs as (added & -> & Hsub & Hnames).
  split; assumption.
Qed.

(** ** A library with two categories *)

Definition libraryDisk : Disk :=
  {| files :=
       [ ("lib/components/basic/button/button.props.js.map", "payload of button.props.js.map");
         ("lib/components/basic/button/button.component.js", emittingButtonText) ];
     listings :=
       [ ("lib", ["components"]);
         ("lib/components/basic/button",
          ["button.component.js"; "button.props.js.map"]) ];
     trees :=
       [ ("lib/components",
          [ FileEntry "index.js";
            DirEntry "basic"
              [ DirEntry "button"
                  [FileEntry "button.component.js"; FileEntry "button.props.js.map"];
                DirEntry "label" [FileEntry "label.component.js.map"];
                DirEntry "icon" [FileEntry "index.tsx"];
                DirEntry ".cache" [ClosedDirEntry "tmp"; FileEntry "index.ts"] ];
            DirEntry "prefabs" [ClosedDirEntry "broken"] ]) ];
     sourceMaps :=
       [ ("payload of button.props.js.map",
          mkSourceMap ["button.props.ts"] (Some [buttonPropsText])) ];
     syntaxTrees := [ (buttonPropsText, buttonPropsTree) ] |}.

Definition libraryDiscovery : DiscoveryConfig :=
  {| includeComponents := ["button"; "label"];
     excludeCategories := ["node_modules"; "prefabs"] |}.

Definition libraryComponents : list Component :=
  [ mkComponent "lib/components/basic/button" "basic";
    mkComponent "lib/components/basic/label" "basic" ].

Definition libraryDocs : list ComponentDoc :=
  [ {| componentName := "button";
       componentPath := "lib/components/basic/button";
       category := "basic";
       props := [mkPropInfo "onTap" "Function" None true false None];
       methods := [];
       events := [mkEventInfo "onTap" "Function" (Some "(e)")];
       styles := [];
       baseClass := None;
       children := [] |} ].

Lemma found_components_are_whitelisted_witness :
  Forall (discovered (diskHost libraryDisk) "lib" libraryDiscovery) libraryComponents.
Proof.
  apply (found_components_are_whitelisted (diskHost libraryDisk) "lib" libraryDiscovery
           freshState freshState libraryComponents).
  vm_compute. reflexivity.
Defined.

Lemma unreadable_folder_stops_discovery_witness :
  let H := diskHost libraryDisk in
  let blocked :=
    match readdirSync_withFileTypes H (categoriesPath H "lib") with
    | Some entries =>
        existsb closedCategory (List.filter (isCategory libraryDiscovery) entries)
    | None => true
    end in
  (fst (findAllComponents H "lib" libraryDiscovery freshState) = Throw <-> blocked = true)
  /\ (fst (generateAllDocs H "lib" noConfig libraryDiscovery 2 freshState) = Throw
      <-> blocked = true)
  /\ fst (findAllComponents H "lib" libraryDiscovery freshState) <> Diverge.
Proof.
  apply (unreadable_folder_stops_discovery (diskHost libraryDisk) "lib" noConfig
           libraryDiscovery 2 freshState).
  vm_compute. reflexivity.
Defined.

Lemma docs_follow_discovery_witness :
  exists components st1,
    findAllComponents (diskHost libraryDisk) "lib" libraryDiscovery freshState
    = (Ok components, st1)
    /\ sublist (map (fun d => (componentPath d, category d)) libraryDocs)
         (map (fun c => (found_path c, found_category c)) components)
    /\ Forall (fun d => componentName d
                        = path_basename (diskHost libraryDisk) (componentPath d))
         libraryDocs.
Proof.
  apply (docs_follow_discovery (diskHost libraryDisk) "lib" noConfig libraryDiscovery 2
           freshState freshState libraryDocs).
  vm_compute. reflexivity.
Defined.

(* ================================================================== *)
(** * 29. The clean-up of a model response ([LLMDocGenerator]) *)
(* ================================================================== *)

(** [s.replace(re, f)] for a pattern without the global flag: the leftmost
    match is replaced. *)
Fixpoint replaceFirst (re : Matcher string) (s : string) : string :=
  match re s with
  | Some (r, rest) => (r ++ rest)%string
  | None =>
      match s with
      | EmptyString => EmptyString
      | String c s' => String c (replaceFirst re s')
      end
  end.

Definition fence : string := "```".

(** [cleanJson.replace(/^```(json)?\n?/, '')] *)
Definition dropOpeningFence (s : string) : string :=
  match strip_prefix fence s with
  | Some rest =>
      let rest := default rest (strip_prefix "json" rest) in
      default rest (strip_prefix lineFeed rest)
  | None => s
  end.

(** The pattern [\n?```$] at a position: the text from there to the end is a
    fence, after a line feed or not. *)
Definition closingFence : Matcher string := fun s =>
  if (s =? lineFeed ++ fence) || (s =? fence) then Some (EmptyString, EmptyString)
  else None.

(** The text that [generateAllDocs] hands to [JSON.parse]. *)
Definition cleanResponse (jsonResponse : string) : string :=
  let cleanJson := trim jsonResponse in
  let cleanJson :=
    if startsWith cleanJson fence then dropOpeningFence cleanJson else cleanJson in
  if endsWith cleanJson fence then replaceFirst closingFence cleanJson else cleanJson.

Lemma trimEnd_spaces ws : all_chars is_space ws = true -> trimEnd ws = "".
Proof.
  induction ws as [|c ws IH]; [reflexivity|].
  cbn [all_chars trimEnd]. intros Hs. apply andb_true_iff in Hs as [Hc Hs].
  rewrite (IH Hs), Hc. reflexivity.
Qed.

Lemma trimEnd_after x c ws :
  is_space c = false -> all_chars is_space ws = true ->
  trimEnd (x ++ String c ws) = (x ++ String c "")%string.
Proof.
  intros Hc Hws. induction x as [|a x IH].
  - rewrite !append_nil. cbn [trimEnd]. rewrite (trimEnd_spaces ws Hws), Hc. reflexivity.
  - rewrite !append_cons. cbn [trimEnd]. rewrite IH.
    replace ((x ++ String c "")%string =? "") with false
      by (destruct x; reflexivity).
    rewrite andb_false_r. reflexivity.
Qed.

Lemma replaceFirst_closingFence body :
  replaceFirst closingFence (body ++ lineFeed ++ fence) = body.
Proof.
  induction body as [|c body IH]; [reflexivity|].
  rewrite append_cons. cbn [replaceFirst]. unfold closingFence at 1.
  assert (forall t, (String.length t <= 4)%nat ->
                    (String c (body ++ lineFeed ++ fence) =? t) = false) as Hlong.
  { intros t Ht. apply String.eqb_neq. intros E.
    apply (f_equal String.length) in E. cbn [String.length] in E.
    rewrite !length_append in E.
    change (String.length lineFeed) with 1%nat in E.
    change (String.length fence) with 3%nat in E. lia. }
  rewrite (Hlong (lineFeed ++ fence)%string), (Hlong fence) by (vm_compute; lia).
  cbn [orb]. rewrite IH. reflexivity.
Qed.

(** X18: A response wrapped in a code fence, tagged [json] or not, with white
    space around it, is handed to the parser without the fence and the white
    space, whatever the text between the fence lines. *)
Theorem fenced_response_is_unwrapped (ws1 ws2 tag body : string) :
  all_chars is_space ws1 = true ->
  all_chars is_space ws2 = true ->
  tag = "json" \/ tag = "" ->
  cleanResponse
    (ws1 ++ fence ++ tag ++ lineFeed ++ body ++ lineFeed ++ fence ++ ws2)%string
  = body.
Proof.
  intros Hws1 Hws2 Htag. unfold cleanResponse, trim.
  rewrite trimStart_spaces by exact Hws1.
  assert (trimStart (fence ++ tag ++ lineFeed ++ body ++ lineFeed ++ fence ++ ws2)
          = (fence ++ tag ++ lineFeed ++ body ++ lineFeed ++ fence ++ ws2)%string) as ->
    by reflexivity.
  assert ((fence ++ tag ++ lineFeed ++ body ++ lineFeed ++ fence ++ ws2)%string
          = ((fence ++ tag ++ lineFeed ++ body ++ lineFeed ++ "``")
               ++ String "`" ws2)%string) as ->.
  { rewrite !append_assoc. reflexivity. }
  rewrite trimEnd_after by (reflexivity || exact Hws2).
  assert (((fence ++ tag ++ lineFeed ++ body ++ lineFeed ++ "``") ++ "`")%string
          = (fence ++ tag ++ lineFeed ++ body ++ lineFeed ++ fence)%string) as ->.
  { rewrite !append_assoc. reflexivity. }
  assert (dropOpeningFence (fence ++ tag ++ lineFeed ++ body ++ lineFeed ++ fence)
          = (body ++ lineFeed ++ fence)%string) as Hopen.
  { unfold dropOpeningFence. rewrite strip_prefix_app. cbn zeta.
    destruct Htag as [-> | ->].
    - rewrite strip_prefix_app. cbn [from_option id]. rewrite strip_prefix_app.
      reflexivity.
    - rewrite append_nil. cbn [strip_prefix lineFeed append]. reflexivity. }
  assert (startsWith (fence ++ tag ++ lineFeed ++ body ++ lineFeed ++ fence) fence = true)
    as -> by (eapply strip_prefix_startsWith, strip_prefix_app).
  rewrite Hopen.
  assert (endsWith (body ++ lineFeed ++ fence) fence = true) as ->.
  { rewrite <- append_assoc. apply endsWith_app. }
  apply replaceFirst_closingFence.
Qed.

Lemma fenced_response_is_unwrapped_witness :
  cleanResponse
    ((lineFeed ++ " ") ++ fence ++ "json" ++ lineFeed ++ "{ }" ++ lineFeed ++ fence
       ++ lineFeed)%string
  = "{ }".
Proof.
  apply (fenced_response_is_unwrapped (lineFeed ++ " ") lineFeed "json" "{ }");
    [reflexivity|reflexivity|left; reflexivity].
Defined.

(* ================================================================== *)
(** * 30. Folder names of the generated pages ([LLMDocGenerator]) *)
(* ================================================================== *)

(** [c.toUpperCase()] on a character of the 7-bit range. *)
Definition upper_char (c : ascii) : ascii :=
  if is_lower c then ascii_of_nat (code c - 32) else c.

(** [word.charAt(0).toUpperCase() + word.slice(1)] *)
Definition capitalize (word : string) : string :=
  match word with
  | EmptyString => EmptyString
  | String c rest => String (upper_char c) rest
  end.

Definition toWmPascalCase (str : string) : string :=
  ("Wm" ++ join "" (map capitalize (split "-" str)))%string.

(** The folder of a component in the storybook, with its manual overrides. *)
Definition storybookComponentFolder (componentName : string) : string :=
  if componentName =? "dialog" then "WmDesignDialog"
  else if componentName =? "layoutgrid" then "WmGridLayout"
  else if componentName =? "selectlocale" then "WmSelectLocale"
  else toWmPascalCase componentName.

Definition getTargetDir (H : Host) (storybookPath : string) (componentDoc : ComponentDoc)
  : string :=
  path_join H [storybookPath; "components";
               storybookComponentFolder (componentName componentDoc); "docs"].

Definition no_hyphen (c : ascii) : bool := negb (Ascii.eqb c "-").

Lemma split_no_separator sep s :
  Forall (fun part => all_chars (fun c => negb (Ascii.eqb c sep)) part = true)
    (split sep s).
Proof.
  induction s as [|c s IH]; cbn [split].
  - constructor; [reflexivity|constructor].
  - destruct (Ascii.eqb c sep) eqn:E.
    + constructor; [reflexivity|exact IH].
    + destruct (split sep s) as [|h t].
      * constructor; [|constructor]. cbn [all_chars]. rewrite E. reflexivity.
      * apply Forall_cons in IH as [Hh Ht]. constructor; [|exact Ht].
        cbn [all_chars]. rewrite E, Hh. reflexivity.
Qed.

Lemma join_all_chars f parts :
  Forall (fun part => all_chars f part = true) parts ->
  all_chars f (join "" parts) = true.
Proof.
  induction 1 as [|p parts Hp _ IH]; [reflexivity|].
  destruct parts as [|q parts]; [exact Hp|].
  change (join "" (p :: q :: parts)) with (p ++ "" ++ join "" (q :: parts))%string.
  rewrite append_nil, all_chars_app, Hp, IH. reflexivity.
Qed.

Lemma upper_char_code c :
  is_lower c = true -> code (upper_char c) = (code c - 32)%nat.
Proof.
  intros Hc. unfold upper_char. rewrite Hc.
  unfold is_lower, in_range in Hc. apply andb_true_iff in Hc as [Hlo Hhi].
  apply Nat.leb_le in Hlo, Hhi. unfold code in *.
  apply nat_ascii_embedding. lia.
Qed.

Lemma upper_char_no_hyphen c : no_hyphen c = true -> no_hyphen (upper_char c) = true.
Proof.
  intros Hc. destruct (is_lower c) eqn:Hlow.
  - pose proof (upper_char_code c Hlow) as Hcode.
    unfold is_lower, in_range in Hlow. apply andb_true_iff in Hlow as [Hlo Hhi].
    apply Nat.leb_le in Hlo, Hhi.
    unfold no_hyphen. apply negb_true_iff, Ascii.eqb_neq. intros E.
    rewrite E in Hcode. unfold code in *.
    change (nat_of_ascii "-") with 45%nat in Hcode. lia.
  - unfold upper_char. rewrite Hlow. exact Hc.
Qed.

Lemma capitalize_no_hyphen word :
  all_chars no_hyphen word = true -> all_chars no_hyphen (capitalize word) = true.
Proof.
  destruct word as [|c rest]; [reflexivity|]. cbn [capitalize all_chars].
  intros Hw. apply andb_true_iff in Hw as [Hc Hrest].
  rewrite (upper_char_no_hyphen c Hc), Hrest. reflexivity.
Qed.

(** X19: The folder of a component's pages is the third of the four segments of
    the target directory; its name starts with [Wm] and has no hyphen,
    whatever the name of the component. *)
Theorem target_folder_is_prefixed (H : Host) (storybookPath : string)
    (componentDoc : ComponentDoc) :
  exists folder,
    getTargetDir H storybookPath componentDoc
    = path_join H [storybookPath; "components"; folder; "docs"]
    /\ startsWith folder "Wm" = true
    /\ all_chars no_hyphen folder = true.
Proof.
  exists (storybookComponentFolder (componentName componentDoc)).
  split; [reflexivity|]. unfold storybookComponentFolder.
  destruct (componentName componentDoc =? "dialog"); [split; reflexivity|].
  destruct (componentName componentDoc =? "layoutgrid"); [split; reflexivity|].
  destruct (componentName componentDoc =? "selectlocale"); [split; reflexivity|].
  unfold toWmPascalCase. split; [reflexivity|].
  rewrite all_chars_app. cbn [all_chars no_hyphen Ascii.eqb Bool.eqb negb andb].
  apply join_all_chars, Forall_forall. intros part Hpart.
  apply list_elem_of_In, in_map_iff in Hpart as (word & <- & Hword).
  apply capitalize_no_hyphen.
  pose proof (split_no_separator "-" (componentName componentDoc)) as Hall.
  rewrite Forall_forall in Hall. apply Hall, list_elem_of_In, Hword.
Qed.

(** ** From a folder name to the class name and back *)

Definition lower_or_digit (c : ascii) : bool := is_lower c || is_digit c.

(** A word of a folder name: a lower-case letter followed by at least one
    lower-case letter or digit. *)
Definition kebabWord (word : string) : bool :=
  match word with
  | String c (String d rest) =>
      is_lower c && all_chars lower_or_digit (String d rest)
  | _ => false
  end.

Lemma lower_or_digit_facts c :
  lower_or_digit c = true ->
  is_upper c = false /\ no_hyphen c = true /\ lower_char c = c.
Proof.
  unfold lower_or_digit, lower_char, is_lower, is_digit, is_upper, in_range, no_hyphen.
  intros Hc.
  assert (code c <> 45 /\ (code c < 65 \/ 90 < code c))%nat as [Hh Hu].
  { apply orb_true_iff in Hc as [Hc|Hc]; apply andb_true_iff in Hc as [Hlo Hhi];
      apply Nat.leb_le in Hlo, Hhi; lia. }
  assert ((65 <=? code c)%nat && (code c <=? 90)%nat = false) as ->.
  { apply andb_false_iff. destruct Hu; [left|right]; apply Nat.leb_gt; lia. }
  repeat split. apply negb_true_iff, Ascii.eqb_neq. intros ->. apply Hh. reflexivity.
Qed.

Lemma lower_upper_char c :
  is_lower c = true ->
  lower_char (upper_char c) = c
  /\ is_lower (upper_char c) = false /\ is_digit (upper_char c) = false.
Proof.
  intros Hc. pose proof (upper_char_code c Hc) as Hcode.
  unfold is_lower, in_range in Hc. apply andb_true_iff in Hc as [Hlo Hhi].
  apply Nat.leb_le in Hlo, Hhi.
  unfold lower_char, is_upper, is_lower, is_digit, in_range. rewrite Hcode.
  replace ((65 <=? code c - 32)%nat && (code c - 32 <=? 90)%nat) with true
    by (symmetry; apply andb_true_iff; split; apply Nat.leb_le; lia).
  replace (code c - 32 + 32)%nat with (code c) by lia.
  split; [apply ascii_nat_embedding|].
  split; apply andb_false_iff; [left|right]; apply Nat.leb_gt; lia.
Qed.

Lemma hyphenate_run r :
  all_chars lower_or_digit r = true -> hyphenate r = r.
Proof.
  induction r as [|a r IH]; [reflexivity|]. intros Hr.
  cbn [all_chars] in Hr. apply andb_true_iff in Hr as [_ Hr].
  destruct r as [|b r]; [reflexivity|].
  cbn [hyphenate]. pose proof Hr as Hb. cbn [all_chars] in Hb.
  apply andb_true_iff in Hb as [Hb _]. apply lower_or_digit_facts in Hb as (-> & _).
  rewrite andb_false_r. f_equal. apply IH, Hr.
Qed.

Lemma hyphenate_boundary r U t :
  all_chars lower_or_digit r = true -> r <> "" -> is_upper U = true ->
  hyphenate (r ++ String U t) = (r ++ String "-" (String U (hyphenate t)))%string.
Proof.
  intros Hr Hne HU. induction r as [|a r IH]; [congruence|].
  cbn [all_chars] in Hr. apply andb_true_iff in Hr as [Ha Hr].
  destruct r as [|b r].
  - rewrite !append_cons, !append_nil. cbn [hyphenate].
    unfold lower_or_digit in Ha. rewrite Ha, HU. reflexivity.
  - rewrite !append_cons. cbn [hyphenate]. pose proof Hr as Hb. cbn [all_chars] in Hb.
    apply andb_true_iff in Hb as [Hb _]. apply lower_or_digit_facts in Hb as (-> & _).
    rewrite andb_false_r. f_equal. rewrite <- !append_cons. apply IH; [exact Hr|discriminate].
Qed.

Lemma toLowerCase_app x y : toLowerCase (x ++ y) = (toLowerCase x ++ toLowerCase y)%string.
Proof.
  induction x as [|c x IH]; [reflexivity|].
  rewrite append_cons. cbn [toLowerCase]. rewrite IH. reflexivity.
Qed.

Lemma toLowerCase_run r : all_chars lower_or_digit r = true -> toLowerCase r = r.
Proof.
  induction r as [|c r IH]; [reflexivity|]. cbn [all_chars toLowerCase]. intros Hr.
  apply andb_true_iff in Hr as [Hc Hr]. apply lower_or_digit_facts in Hc as (_ & _ & ->).
  rewrite (IH Hr). reflexivity.
Qed.

(** The words of a folder name, each after a hyphen. *)
Fixpoint hyphenated (words : list string) : string :=
  match words with
  | [] => EmptyString
  | word :: rest => (String "-" word ++ hyphenated rest)%string
  end.

Lemma join_hyphenated word words :
  join "-" (word :: words) = (word ++ hyphenated words)%string.
Proof.
  revert word. induction words as [|w words IH]; intros word.
  - cbn [join hyphenated]. rewrite append_empty. reflexivity.
  - change (join "-" (word :: w :: words)) with (word ++ "-" ++ join "-" (w :: words))%string.
    rewrite IH. reflexivity.
Qed.

Lemma join_capitalized word words :
  join "" (map capitalize (word :: words))
  = (capitalize word ++ join "" (map capitalize words))%string.
Proof.
  destruct words as [|w words]; cbn [map join].
  - rewrite append_empty. reflexivity.
  - reflexivity.
Qed.

Lemma kebabWord_inv word :
  kebabWord word = true ->
  exists c r,
    word = String c r /\ is_lower c = true
    /\ all_chars lower_or_digit r = true /\ r <> "".
Proof.
  destruct word as [|c [|d rest]]; cbn [kebabWord]; try discriminate.
  intros Hw. apply andb_true_iff in Hw as [Hc Hr].
  exists c, (String d rest). repeat split; [exact Hc|exact Hr|discriminate].
Qed.

Lemma toKebab_after_run words :
  Forall (fun word => kebabWord word = true) words ->
  forall r,
    all_chars lower_or_digit r = true -> r <> "" ->
    toLowerCase (hyphenate (r ++ join "" (map capitalize words)))
    = (r ++ hyphenated words)%string.
Proof.
  induction 1 as [|word words Hword _ IH]; intros r Hr Hne.
  - cbn [map join hyphenated]. rewrite append_empty, hyphenate_run by exact Hr.
    apply toLowerCase_run, Hr.
  - apply kebabWord_inv in Hword as (c & rw & -> & Hc & Hrw & Hnw).
    rewrite join_capitalized. cbn [capitalize hyphenated].
    destruct (lower_upper_char c Hc) as (Hback & Hnl & Hnd).
    rewrite !append_cons.
    rewrite hyphenate_boundary; [|exact Hr|exact Hne|].
    2:{ unfold upper_char. rewrite Hc. pose proof (upper_char_code c Hc) as Hcode.
        unfold upper_char in Hcode. rewrite Hc in Hcode.
        unfold is_lower, in_range in Hc. apply andb_true_iff in Hc as [Hlo Hhi].
        apply Nat.leb_le in Hlo, Hhi.
        unfold is_upper, in_range. rewrite Hcode.
        apply andb_true_iff. split; apply Nat.leb_le; lia. }
    rewrite toLowerCase_app, (toLowerCase_run r Hr). cbn [toLowerCase].
    rewrite Hback, (IH rw Hrw Hnw).
    change (lower_char "-") with "-"%char. reflexivity.
Qed.

Lemma toKebab_capitalized word words :
  Forall (fun word => kebabWord word = true) (word :: words) ->
  toKebab (join "" (map capitalize (word :: words))) = join "-" (word :: words).
Proof.
  intros Hall. apply Forall_cons in Hall as [Hword Hall].
  apply kebabWord_inv in Hword as (c & rw & -> & Hc & Hrw & Hnw).
  rewrite join_capitalized, join_hyphenated. cbn [capitalize].
  destruct (lower_upper_char c Hc) as (Hback & Hnl & Hnd).
  unfold toKebab. rewrite !append_cons.
  destruct rw as [|d rw]; [congruence|]. rewrite !append_cons.
  cbn [hyphenate]. rewrite Hnl, Hnd. cbn [orb andb toLowerCase]. rewrite Hback.
  f_equal. rewrite <- !append_cons.
  rewrite <- (toKebab_after_run words Hall (String d rw) Hrw Hnw). reflexivity.
Qed.

Lemma split_single sep word :
  all_chars (fun c => negb (Ascii.eqb c sep)) word = true -> split sep word = [word].
Proof.
  induction word as [|c word IH]; [reflexivity|]. cbn [all_chars split]. intros Hw.
  apply andb_true_iff in Hw as [Hc Hw]. apply negb_true_iff in Hc.
  rewrite Hc, (IH Hw). reflexivity.
Qed.

Lemma split_app sep word rest :
  all_chars (fun c => negb (Ascii.eqb c sep)) word = true ->
  split sep (word ++ String sep rest) = word :: split sep rest.
Proof.
  induction word as [|c word IH]; cbn [all_chars]; intros Hw.
  - rewrite append_nil. cbn [split]. rewrite Ascii.eqb_refl. reflexivity.
  - apply andb_true_iff in Hw as [Hc Hw]. apply negb_true_iff in Hc.
    rewrite append_cons. cbn [split]. rewrite Hc, (IH Hw). reflexivity.
Qed.

Lemma split_join word words :
  Forall (fun w => all_chars no_hyphen w = true) (word :: words) ->
  split "-" (join "-" (word :: words)) = word :: words.
Proof.
  revert word. induction words as [|w words IH]; intros word Hall;
    apply Forall_cons in Hall as [Hword Hall].
  - apply split_single, Hword.
  - change (join "-" (word :: w :: words))
      with (word ++ String "-" (join "-" (w :: words)))%string.
    rewrite split_app by exact Hword. rewrite (IH w Hall). reflexivity.
Qed.

Lemma kebabWord_no_hyphen word : kebabWord word = true -> all_chars no_hyphen word = true.
Proof.
  intros Hw. apply kebabWord_inv in Hw as (c & r & -> & Hc & Hr & _).
  cbn [all_chars]. apply andb_true_iff. split.
  - apply lower_or_digit_facts. unfold lower_or_digit. rewrite Hc. reflexivity.
  - eapply all_chars_impl; [|exact Hr]. intros a Ha. apply lower_or_digit_facts, Ha.
Qed.

Lemma removeSuffix_app suffix x : removeSuffix suffix (x ++ suffix) = x.
Proof.
  induction x as [|c x IH].
  - rewrite append_nil. destruct suffix; cbn [removeSuffix]; rewrite String.eqb_refl;
      reflexivity.
  - rewrite append_cons. cbn [removeSuffix].
    replace (String c (x ++ suffix) =? suffix) with false.
    + rewrite IH. reflexivity.
    + symmetry. apply String.eqb_neq. intros E. apply (f_equal String.length) in E.
      cbn [String.length] in E. rewrite length_append in E. lia.
Qed.

Lemma removeSuffix_absent suffix s : endsWith s suffix = false -> removeSuffix suffix s = s.
Proof.
  induction s as [|c s IH]; cbn [endsWith removeSuffix]; intros He;
    apply orb_false_iff in He as [Heq Hrest]; rewrite Heq; [reflexivity|].
  rewrite (IH Hrest). reflexivity.
Qed.

(** X20: The class name that the page generator derives from a folder name leads
    back to the folder: for a folder name of hyphen-separated words, each a
    lower-case letter followed by lower-case letters or digits, the candidate
    stems of the properties class of its [Wm] name contain the folder name,
    unless the name ends like [Component]. *)
Theorem folder_name_is_a_candidate (word : string) (words : list string) :
  Forall (fun w => kebabWord w = true) (word :: words) ->
  let folder := join "-" (word :: words) in
  endsWith (toWmPascalCase folder) "Component" = false ->
  toKebab (drop_chars 2 (toWmPascalCase folder)) = folder
  /\ In folder (candidates (toWmPascalCase folder ++ "Props")).
Proof.
  intros Hall. cbn zeta. intros Hcomp.
  assert (toWmPascalCase (join "-" (word :: words))
          = ("Wm" ++ join "" (map capitalize (word :: words)))%string) as Hname.
  { unfold toWmPascalCase. rewrite split_join; [reflexivity|].
    eapply Forall_impl; [exact Hall|]. intros w. apply kebabWord_no_hyphen. }
  assert (toKebab (drop_chars 2 (toWmPascalCase (join "-" (word :: words))))
          = join "-" (word :: words)) as Hback.
  { rewrite Hname. change (drop_chars 2 ("Wm" ++ ?x)) with x.
    apply toKebab_capitalized, Hall. }
  split; [exact Hback|].
  unfold candidates. rewrite removeSuffix_app, (removeSuffix_absent _ _ Hcomp).
  apply (unique_spec []). split; [|intros []].
  rewrite Hback. rewrite Hname at 1. change (startsWith ("Wm" ++ ?x) "Wm") with true.
  cbn iota. apply in_or_app. right. right. left. reflexivity.
Qed.

Lemma folder_name_is_a_candidate_witness :
  toKebab (drop_chars 2 (toWmPascalCase "progress-bar")) = "progress-bar"
  /\ In "progress-bar" (candidates (toWmPascalCase "progress-bar" ++ "Props")).
Proof.
  apply (folder_name_is_a_candidate "progress" ["bar"]); vm_compute; [|reflexivity].
  repeat constructor.
Defined.

(* ================================================================== *)
(** * 31. The batches of the command line ([index.ts]) *)
(* ================================================================== *)

(** [xs.slice(i, j)] *)
Definition slice {A} (i j : nat) (xs : list A) : list A := firstn (j - i) (skipn i xs).

(** The batches of the loop
    [for (let i = 0; i < docs.length; i += batchSize)], from index [i] on, for
    a batch size that is a natural number; [fuel] bounds the iterations. *)
Fixpoint batchesFrom {A} (fuel batchSize i : nat) (docs : list A) : Res (list (list A)) :=
  match fuel with
  | O => Diverge
  | S fuel' =>
      if (i <? List.length docs)%nat then
        let* rest := batchesFrom fuel' batchSize (i + batchSize) docs in
        Ok (slice i (i + batchSize) docs :: rest)
      else Ok []
  end.

(** [Math.ceil(docs.length / batchSize)] for a positive batch size. *)
Definition totalBatches (batchSize len : nat) : nat := ((len + batchSize - 1) / batchSize)%nat.

Lemma batchesFrom_done {A} (fuel batchSize i : nat) (docs : list A) :
  (List.length docs <= i)%nat -> batchesFrom (S fuel) batchSize i docs = Ok [].
Proof.
  intros Hge. cbn [batchesFrom].
  destruct (Nat.ltb_spec i (List.length docs)); [lia|reflexivity].
Qed.

Lemma totalBatches_step batchSize len :
  (0 < batchSize)%nat -> (0 < len)%nat ->
  totalBatches batchSize len = S (totalBatches batchSize (len - batchSize)).
Proof.
  intros Hpos Hlen. unfold totalBatches.
  destruct (Nat.le_gt_cases batchSize len) as [Hfull|Hlast].
  - replace (len + batchSize - 1)%nat
      with (len - batchSize + batchSize - 1 + 1 * batchSize)%nat by lia.
    rewrite Nat.div_add by lia. lia.
  - replace (len - batchSize + batchSize - 1)%nat with (batchSize - 1)%nat by lia.
    replace (len + batchSize - 1)%nat with (len - 1 + 1 * batchSize)%nat by lia.
    rewrite Nat.div_add by lia. rewrite !Nat.div_small by lia. reflexivity.
Qed.

Lemma batchesFrom_spec {A} (batchSize : nat) (docs : list A) :
  (0 < batchSize)%nat ->
  forall fuel i,
    (List.length docs <= i + fuel * batchSize)%nat ->
    exists batches,
      batchesFrom (S fuel) batchSize i docs = Ok batches
      /\ concat batches = skipn i docs
      /\ Forall (fun batch => (0 < List.length batch <= batchSize)%nat) batches
      /\ List.length batches = totalBatches batchSize (List.length docs - i).
Proof.
  intros Hpos. induction fuel as [|fuel IH]; intros i Hfuel.
  - exists []. split; [apply batchesFrom_done; cbn in Hfuel; lia|].
    split; [rewrite skipn_all2 by (cbn in Hfuel; lia); reflexivity|].
    split; [constructor|].
    replace (List.length docs - i)%nat with 0%nat by (cbn in Hfuel; lia).
    unfold totalBatches. symmetry. apply Nat.div_small. lia.
  - destruct (Nat.le_gt_cases (List.length docs) i) as [Hge|Hlt].
    + exists []. split; [apply batchesFrom_done, Hge|].
      split; [rewrite skipn_all2 by lia; reflexivity|].
      split; [constructor|].
      replace (List.length docs - i)%nat with 0%nat by lia.
      unfold totalBatches. symmetry. apply Nat.div_small. lia.
    + destruct (IH (i + batchSize)%nat) as (rest & Hrest & Hcat & Hall & Hlen);
        [cbn in Hfuel; lia|].
      exists (slice i (i + batchSize) docs :: rest).
      split; [|split; [|split]].
      * change (batchesFrom (S (S fuel)) batchSize i docs)
          with (if (i <? List.length docs)%nat
                then let* rest := batchesFrom (S fuel) batchSize (i + batchSize) docs in
                     Ok (slice i (i + batchSize) docs :: rest)
                else Ok []).
        destruct (Nat.ltb_spec i (List.length docs)); [|lia].
        rewrite Hrest. reflexivity.
      * cbn [concat]. rewrite Hcat. unfold slice.
        replace (i + batchSize - i)%nat with batchSize by lia.
        rewrite Nat.add_comm, <- skipn_skipn. apply firstn_skipn.
      * constructor; [|exact Hall]. unfold slice.
        replace (i + batchSize - i)%nat with batchSize by lia.
        rewrite length_firstn, length_skipn. lia.
      * cbn [List.length]. rewrite Hlen.
        rewrite (totalBatches_step batchSize (List.length docs - i)) by lia.
        f_equal. f_equal. lia.
Qed.

(** X21: With a positive batch size the loop ends; its batches are the docs in
    order, each doc in one batch; no batch is empty or longer than the batch
    size; and there are as many batches as the loop announces. With a batch
    size of zero the loop never ends when there is a doc. *)
Theorem batches_cover_the_docs {A} (batchSize : nat) (docs : list A) :
  ((0 < batchSize)%nat ->
   exists batches,
     batchesFrom (S (List.length docs)) batchSize 0 docs = Ok batches
     /\ concat batches = docs
     /\ Forall (fun batch => (0 < List.length batch <= batchSize)%nat) batches
     /\ List.length batches = totalBatches batchSize (List.length docs))
  /\ (docs <> [] -> forall fuel, batchesFrom fuel 0 0 docs = Diverge).
Proof.
  split.
  - intros Hpos.
    destruct (batchesFrom_spec batchSize docs Hpos (List.length docs) 0)
      as (batches & Hrun & Hcat & Hall & Hlen); [nia|].
    exists batches. rewrite Nat.sub_0_r in Hlen. repeat split; assumption.
  - intros Hne fuel. induction fuel as [|fuel IH]; [reflexivity|].
    cbn [batchesFrom]. destruct docs as [|doc docs]; [congruence|].
    cbn [List.length Nat.ltb Nat.leb Nat.add]. rewrite IH. reflexivity.
Qed.

Lemma batches_cover_the_docs_witness :
  (exists batches,
      batchesFrom 6 2 0 ["a"; "b"; "c"; "d"; "e"] = Ok batches
      /\ concat batches = ["a"; "b"; "c"; "d"; "e"]
      /\ Forall (fun batch => (0 < List.length batch <= 2)%nat) batches
      /\ List.length batches = totalBatches 2 5)
  /\ forall fuel, batchesFrom fuel 0 0 ["a"; "b"; "c"; "d"; "e"] = Diverge.
Proof.
  split.
  - apply (proj1 (batches_cover_the_docs 2 ["a"; "b"; "c"; "d"; "e"])). lia.
  - apply (proj2 (batches_cover_the_docs 0 ["a"; "b"; "c"; "d"; "e"])). discriminate.
Defined.

(* ================================================================== *)
(** * 32. The state of the generator across a run *)
(* ================================================================== *)

(** How a call may change the generator: the cache as in [settles], and the
    warnings by appending. *)
Definition advances (H : Host) (componentsPath : string) (st st' : State) : Prop :=
  settles H componentsPath st st' /\ warnings st `prefix_of` warnings st'.

(** Every run of the computation changes the generator in that way only. *)
Definition Advancing (H : Host) (componentsPath : string) {A} (m : Gen A) : Prop :=
  forall st, advances H componentsPath st (snd (m st)).

Lemma settles_trans H componentsPath st st1 st2 :
  settles H componentsPath st st1 -> settles H componentsPath st1 st2 ->
  settles H componentsPath st st2.
Proof.
  unfold settles.
  intros [Hsame|(Hnone & bp & Hloc & Hsome)] [Hsame'|(Hnone' & bp' & Hloc' & Hsome')].
  - left. congruence.
  - right. split; [congruence|]. exists bp'. split; assumption.
  - right. split; [exact Hnone|]. exists bp. split; [exact Hloc|congruence].
  - congruence.
Qed.

Lemma advances_refl H componentsPath st : advances H componentsPath st st.
Proof. split; [left; reflexivity|reflexivity]. Qed.

Lemma advances_trans H componentsPath st st1 st2 :
  advances H componentsPath st st1 -> advances H componentsPath st1 st2 ->
  advances H componentsPath st st2.
Proof.
  intros [Hs Hw] [Hs' Hw']. split; [eapply settles_trans; eassumption|].
  etransitivity; eassumption.
Qed.

Section AdvancingRuns.

Variable H : Host.
Variable componentsPath : string.

Lemma ret_advancing {A} (a : A) : Advancing H componentsPath (ret a).
Proof. intros st. apply advances_refl. Qed.

Lemma liftG_advancing {A} (r : Res A) : Advancing H componentsPath (liftG r).
Proof. intros st. apply advances_refl. Qed.

Lemma warn_advancing message : Advancing H componentsPath (warn message).
Proof.
  intros st. split; [left; reflexivity|]. cbn [warn snd warnings].
  apply prefix_app_r. reflexivity.
Qed.

Lemma bindG_advancing {A B} (m : Gen A) (k : A -> Gen B) :
  Advancing H componentsPath m -> (forall a, Advancing H componentsPath (k a)) ->
  Advancing H componentsPath (bindG m k).
Proof.
  intros Hm Hk st. unfold bindG. specialize (Hm st).
  destruct (m st) as [[a| |] st1]; cbn [snd] in *; [|exact Hm|exact Hm].
  eapply advances_trans; [exact Hm|apply Hk].
Qed.

Lemma catchG_advancing {A} (m handler : Gen A) :
  Advancing H componentsPath m -> Advancing H componentsPath handler ->
  Advancing H componentsPath (catchG m handler).
Proof.
  intros Hm Hh st. unfold catchG. specialize (Hm st).
  destruct (m st) as [[a| |] st1]; cbn [snd] in *; [exact Hm| |exact Hm].
  eapply advances_trans; [exact Hm|apply Hh].
Qed.

Lemma foldG_advancing {A S} (body : S -> A -> Gen S) (xs : list A) :
  (forall s x, Advancing H componentsPath (body s x)) ->
  forall s, Advancing H componentsPath (foldG body xs s).
Proof.
  intros Hbody. induction xs as [|x xs IH]; intros s; cbn [foldG].
  - apply ret_advancing.
  - apply bindG_advancing; [apply Hbody|exact IH].
Qed.

Lemma getBaseProps_advancing : Advancing H componentsPath (getBaseProps H componentsPath).
Proof.
  intros st. split; [apply getBaseProps_settles|].
  unfold getBaseProps. destruct (basePropsCache st); [reflexivity|].
  destruct (locateBaseProps H componentsPath) as [[bp|]| |]; reflexivity.
Qed.

Lemma getInheritedProps_advancing fuel :
  forall baseClassName,
    Advancing H componentsPath (getInheritedProps H componentsPath fuel baseClassName).
Proof.
  induction fuel as [|fuel' IH]; intros baseClassName; [apply liftG_advancing|].
  cbn [getInheritedProps].
  destruct (baseClassName =? "BaseProps").
  { apply bindG_advancing; [apply getBaseProps_advancing|intros; apply ret_advancing]. }
  destruct (findParentPropsFile H componentsPath baseClassName) as [path|].
  2:{ apply bindG_advancing; [apply warn_advancing|intros; apply ret_advancing]. }
  apply catchG_advancing; [|apply ret_advancing].
  destruct (whenTruthy (extractSourceContent H path 0)) as [source|];
    [|apply ret_advancing].
  apply bindG_advancing; [apply liftG_advancing|]. intros [info|]; [|apply ret_advancing].
  cbn zeta. destruct (whenTruthy (pr_baseClass info)) as [grandparent|];
    [|apply ret_advancing].
  apply bindG_advancing; [apply IH|intros; apply ret_advancing].
Qed.

Lemma parseProps_advancing fuel propsSource :
  Advancing H componentsPath (parseProps H componentsPath fuel propsSource).
Proof.
  unfold parseProps. destruct (whenTruthy propsSource) as [source|]; [|apply ret_advancing].
  apply bindG_advancing; [apply liftG_advancing|]. intros [info|]; [|apply ret_advancing].
  destruct (whenTruthy (pr_baseClass info)) as [ancestor|]; [|apply ret_advancing].
  apply bindG_advancing; [apply getInheritedProps_advancing|intros; apply ret_advancing].
Qed.

Lemma generateComponentDoc_advancing config fuel :
  forall componentPath' category',
    Advancing H componentsPath
      (generateComponentDoc H componentsPath config fuel componentPath' category').
Proof.
  induction fuel as [|fuel' IH]; intros componentPath' category'; [apply liftG_advancing|].
  cbn [generateComponentDoc]. apply catchG_advancing; [|apply ret_advancing].
  apply bindG_advancing; [apply liftG_advancing|]. intros sources.
  destruct (negb (truthyOpt (src_props sources))
            && negb (truthyOpt (src_component sources))).
  { apply bindG_advancing; [apply warn_advancing|intros; apply ret_advancing]. }
  cbn zeta. apply bindG_advancing; [apply parseProps_advancing|]. intros [allProps ancestor].
  apply bindG_advancing; [apply liftG_advancing|]. intros callbackEvents.
  apply bindG_advancing; [|intros; apply ret_advancing].
  apply foldG_advancing. intros childData [childName relativePath]. unfold addChild.
  destruct (existsSync H (path_resolve H componentPath' relativePath)).
  - apply bindG_advancing; [apply IH|]. intros [doc|]; apply ret_advancing.
  - apply bindG_advancing; [apply warn_advancing|intros; apply ret_advancing].
Qed.

Lemma findAllComponents_advancing discovery :
  Advancing H componentsPath (findAllComponents H componentsPath discovery).
Proof.
  unfold findAllComponents. destruct (negb (existsSync H componentsPath));
    [apply ret_advancing|].
  apply bindG_advancing; [apply liftG_advancing|]. intros entries.
  apply bindG_advancing; [apply liftG_advancing|]. intros components.
  apply bindG_advancing; [|intros; apply ret_advancing].
  destruct (_ && _); [|apply ret_advancing].
  apply foldG_advancing. intros _ message. apply warn_advancing.
Qed.

End AdvancingRuns.

(** X22: Whatever a call of [generateComponentDoc] or a full run does, and
    however it ends, it leaves the generator with the cache it had, or with
    the located root properties in a cache that was empty, and with the
    warnings it had followed by the new ones. *)
Theorem generation_only_adds_warnings (H : Host) (componentsPath : string)
    (config : GeneratorConfig) (discovery : DiscoveryConfig) (fuel : nat)
    (componentPath' category' : string) (st : State) :
  advances H componentsPath st
    (snd (generateComponentDoc H componentsPath config fuel componentPath' category' st))
  /\ advances H componentsPath st
       (snd (generateAllDocs H componentsPath config discovery fuel st)).
Proof.
  split; [apply generateComponentDoc_advancing|].
  unfold generateAllDocs.
  apply bindG_advancing; [apply findAllComponents_advancing|]. intros components.
  apply foldG_advancing. intros docs component. unfold addDoc.
  apply bindG_advancing; [apply generateComponentDoc_advancing|].
  intros [doc|]; apply ret_advancing.
Qed.

(* ================================================================== *)
(** * 33. Direct sources and compiled sources *)
(* ================================================================== *)

(** The host with another decoder of source maps. *)
Definition withDecoder (H : Host) (decode : string -> option SourceMapContent) : Host :=
  {| createSourceFile := createSourceFile H;
     JSON_parse := decode;
     existsSync := existsSync H;
     readFileSync := readFileSync H;
     readdirSync := readdirSync H;
     readdirSync_withFileTypes := readdirSync_withFileTypes H;
     path_join := path_join H;
     path_basename := path_basename H;
     path_resolve := path_resolve H |}.

(** [s] is the first entry of [sourcesContent] in the decoded content of the
    first listed file whose name ends in [suffix]. *)
Definition embeddedSource (H : Host) (componentDir : string) (files : list string)
    (suffix s : string) : Prop :=
  exists f content sourceMap contents,
    List.find (fun f => endsWith f suffix) files = Some f
    /\ readFileSync H (path_join H [componentDir; f]) = Some content
    /\ JSON_parse H content = Some sourceMap
    /\ sourcesContent sourceMap = Some contents
    /\ contents !! 0%nat = Some s.

Lemma extractRole_embedded H componentDir files suffix s :
  extractRole H componentDir files suffix = Some s
  <-> truthy s = true /\ embeddedSource H componentDir files suffix s.
Proof.
  unfold extractRole, extractSourceContent, readSourceMap, embeddedSource. split.
  - intros Hs.
    destruct (List.find _ files) as [f|] eqn:Hfind; [|discriminate].
    cbn [mbind option_bind] in Hs.
    destruct (readFileSync H (path_join H [componentDir; f])) as [content|] eqn:Hread;
      [|discriminate].
    cbn [mbind option_bind] in Hs.
    destruct (JSON_parse H content) as [sourceMap|] eqn:Hparse; [|discriminate].
    cbn [mbind option_bind] in Hs.
    destruct (sourcesContent sourceMap) as [contents|] eqn:Hsc; [|discriminate].
    cbn [mbind option_bind] in Hs.
    destruct (contents !! 0%nat) as [first|] eqn:Hfirst; [|discriminate].
    cbn [mbind option_bind] in Hs.
    apply nonEmpty_Some in Hs as [-> Ht]. split; [exact Ht|].
    exists f, content, sourceMap, contents. repeat split; assumption.
  - intros (Ht & f & content & sourceMap & contents & -> & Hread & Hparse & Hsc & Hfirst).
    cbn [mbind option_bind]. rewrite Hread. cbn [mbind option_bind].
    rewrite Hparse. cbn [mbind option_bind]. rewrite Hsc. cbn [mbind option_bind].
    rewrite Hfirst. cbn [mbind option_bind]. unfold nonEmpty. rewrite Ht. reflexivity.
Qed.

(** X23: A component directory that can be listed always yields sources.
    When it lists an index file, the sources are read from the listed files
    alone: the component source is the content of the index file, the props
    source the content of the types file when one is listed and read and that
    of the index file otherwise, the styles source the content of the styles
    file; no source map is decoded, whatever maps lie beside them. When it
    lists none, a source is recorded for a role exactly when the first listed
    source map of the role decodes to a first embedded source that is not
    empty, and it is that embedded source. *)
Theorem direct_sources_take_precedence (H : Host) (componentDir : string)
    (files : list string) :
  readdirSync H componentDir = Some files ->
  exists sources,
    extractComponentSources H componentDir = Ok sources
    /\ match List.find isIndexFile files with
       | Some indexFile =>
           src_component sources = readFileSync H (path_join H [componentDir; indexFile])
           /\ src_props sources
              = match
                  typesFile ← List.find isTypesFile files;
                  readFileSync H (path_join H [componentDir; typesFile])
                with
                | Some typesContent => Some typesContent
                | None => readFileSync H (path_join H [componentDir; indexFile])
                end
           /\ src_styles sources
              = (stylesFile ← List.find isStylesFile files;
                 readFileSync H (path_join H [componentDir; stylesFile]))
           /\ forall decode,
                extractComponentSources (withDecoder H decode) componentDir = Ok sources
       | None =>
           forall s,
             (src_props sources = Some s
              <-> truthy s = true
                  /\ embeddedSource H componentDir files ".props.js.map" s)
             /\ (src_component sources = Some s
                 <-> truthy s = true
                     /\ embeddedSource H componentDir files ".component.js.map" s)
             /\ (src_styles sources = Some s
                 <-> truthy s = true
                     /\ embeddedSource H componentDir files ".styles.js.map" s)
       end.
Proof.
  intros Hdir. unfold extractComponentSources at 1. rewrite Hdir. cbn [lift bind].
  destruct (List.find isIndexFile files) as [indexFile|] eqn:Hfind.
  - eexists. split; [reflexivity|]. cbn [src_props src_component src_styles].
    split; [reflexivity|]. split.
    { unfold override, assign, readRole.
      destruct (typesFile ← List.find isTypesFile files;
                readFileSync H (path_join H [componentDir; typesFile]));
        reflexivity. }
    split; [reflexivity|].
    intros decode. unfold extractComponentSources.
    cbn [withDecoder readdirSync]. rewrite Hdir. cbn [lift bind]. rewrite Hfind.
    reflexivity.
  - eexists. split; [reflexivity|]. cbn [src_props src_component src_styles].
    intros s. split; [|split]; apply extractRole_embedded.
Qed.

(** A directory in the direct form next to a stale source map. *)
Definition directDisk : Disk :=
  {| files :=
       [ ("lib/components/basic/chip/index.tsx", "export const Chip = () => null;");
         ("lib/components/basic/chip/types.ts", "export interface ChipProps { }");
         ("lib/components/basic/chip/chip.props.js.map", "payload of chip.props.js.map") ];
     listings :=
       [ ("lib/components/basic/chip", ["chip.props.js.map"; "index.tsx"; "types.ts"]) ];
     trees := [];
     sourceMaps :=
       [ ("payload of chip.props.js.map",
          mkSourceMap ["chip.props.ts"] (Some ["export class ChipProps { stale: any; }"])) ];
     syntaxTrees := [] |}.

Lemma direct_sources_take_precedence_witness :
  (exists sources,
      extractComponentSources (diskHost directDisk) "lib/components/basic/chip"
      = Ok sources
      /\ src_component sources = Some "export const Chip = () => null;"
      /\ src_props sources = Some "export interface ChipProps { }"
      /\ src_styles sources = None
      /\ forall decode,
           extractComponentSources (withDecoder (diskHost directDisk) decode)
             "lib/components/basic/chip"
           = Ok sources)
  /\ (exists sources,
        extractComponentSources (diskHost (buttonDisk buttonBehaviourText))
          "lib/components/basic/button"
        = Ok sources
        /\ forall s,
             (src_props sources = Some s
              <-> truthy s = true
                  /\ embeddedSource (diskHost (buttonDisk buttonBehaviourText))
                       "lib/components/basic/button"
                       ["button.component.js"; "button.props.js.map"]
                       ".props.js.map" s)
             /\ (src_component sources = Some s
                 <-> truthy s = true
                     /\ embeddedSource (diskHost (buttonDisk buttonBehaviourText))
                          "lib/components/basic/button"
                          ["button.component.js"; "button.props.js.map"]
                          ".component.js.map" s)
             /\ (src_styles sources = Some s
                 <-> truthy s = true
                     /\ embeddedSource (diskHost (buttonDisk buttonBehaviourText))
                          "lib/components/basic/button"
                          ["button.component.js"; "button.props.js.map"]
                          ".styles.js.map" s)).
Proof.
  split.
  - exact (direct_sources_take_precedence (diskHost directDisk)
             "lib/components/basic/chip" ["chip.props.js.map"; "index.tsx"; "types.ts"]
             eq_refl).
  - exact (direct_sources_take_precedence (diskHost (buttonDisk buttonBehaviourText))
             "lib/components/basic/button"
             ["button.component.js"; "button.props.js.map"] eq_refl).
Defined.
